(** * Smart BibTeX Validator: the validation core

    A shallow embedding of [bib_validator/validator.py] and of the source
    policies of [bib_validator/sources/], with the properties of the
    validation engine proved about it.

    A second part adds the source table of a validator, the DBLP source
    of [bib_validator/sources/dblp.py] (its search with retries and the
    fields it extracts) and the URL check of [bib_validator/url_check.py],
    with further properties of the whole.

    Conventions of the embedding.
    - A Python [str] is a [string]; its characters are the code points
      0..255 (Latin-1), classified as CPython classifies them
      ([str.isspace], [str.isalnum], [str.lower], the [re] classes [\w]
      and [\s]).
    - A Python [dict] that is only read by key is a [gmap]; one that is
      iterated ([matches], [attempts], a FieldMap) is an association list
      in insertion order.
    - [entry.get(k)] is a lookup returning [option string]; Python
      truthiness of such a value is [truthy].
    - The providers (network) are a world state [W] threaded through the
      search functions; every search call and pacing delay is logged in a
      trace.
    - [difflib.SequenceMatcher] is embedded from CPython's [difflib.py];
      a ratio is an exact rational.
    - A result of DBLP is a JSON document as Python holds it; reading it
      returns or raises. The HTTP library is a world state as well, with
      its exceptions an abstract type and their [isinstance] tests
      functions on it. *)

From Stdlib Require Import Ascii String NArith ZArith QArith Qcanon.
From stdpp Require Import base gmap strings list pretty.
From Equations Require Import Equations.

Open Scope string_scope.

(** A value of type [A] together with the equation that it is the value of
    the inspected term; used to keep the equation in well-founded
    definitions. *)
Definition inspect {A} (a : A) : {b | a = b} := exist _ a eq_refl.

(** ** Characters and strings as Python sees them *)
Module PyStr.

Definition ord (c : ascii) : N := N_of_ascii c.
Definition chr (n : N) : ascii := ascii_of_N n.

Definition in_range (lo hi : N) (c : ascii) : bool :=
  ((lo <=? ord c) && (ord c <=? hi))%N.

(** [str.isspace] and the [re] class [\s], on code points below 256. *)
Definition isspace (c : ascii) : bool :=
  in_range 9 13 c || in_range 28 32 c
  || (ord c =? 133)%N || (ord c =? 160)%N.

(** [str.isalnum], on code points below 256. *)
Definition isalnum (c : ascii) : bool :=
  in_range 48 57 c || in_range 65 90 c || in_range 97 122 c
  || (ord c =? 170)%N || in_range 178 179 c || (ord c =? 181)%N
  || in_range 185 186 c || in_range 188 190 c
  || in_range 192 214 c || in_range 216 246 c || in_range 248 255 c.

(** The [re] class [\w]: alphanumeric or underscore. *)
Definition isword (c : ascii) : bool := isalnum c || (ord c =? 95)%N.

(** The [re] class [[a-zA-Z]]. *)
Definition isletter (c : ascii) : bool := in_range 65 90 c || in_range 97 122 c.

(** [str.lower] on one code point below 256: A-Z and the Latin-1 capitals
    (all of 192..222 but the multiplication sign) move up by 32. *)
Definition lower_char (c : ascii) : ascii :=
  if in_range 65 90 c || (in_range 192 222 c && negb (ord c =? 215)%N)
  then chr (ord c + 32) else c.

(** [str.upper] on the ASCII range; the program upper-cases source names
    only. *)
Definition upper_char (c : ascii) : ascii :=
  if in_range 97 122 c then chr (ord c - 32) else c.

Fixpoint map_chars (f : ascii -> ascii) (s : string) : string :=
  match s with
  | "" => ""
  | String c s' => String (f c) (map_chars f s')
  end.

Fixpoint filter_chars (p : ascii -> bool) (s : string) : string :=
  match s with
  | "" => ""
  | String c s' => if p c then String c (filter_chars p s') else filter_chars p s'
  end.

(** Every character of [s] satisfies [p]. *)
Fixpoint all_chars (p : ascii -> bool) (s : string) : bool :=
  match s with
  | "" => true
  | String c s' => p c && all_chars p s'
  end.

Definition lower (s : string) : string := map_chars lower_char s.
Definition upper (s : string) : string := map_chars upper_char s.

(** Truthiness of a string: non-empty. *)
Definition nonempty (s : string) : bool :=
  match s with "" => false | _ => true end.

(** Truthiness of the result of [d.get(k)]: present and non-empty. *)
Definition truthy (o : option string) : bool :=
  match o with Some s => nonempty s | None => false end.

(** [x or y] on optional strings. *)
Definition por (x y : option string) : option string :=
  if truthy x then x else y.

Fixpoint lstrip (s : string) : string :=
  match s with
  | "" => ""
  | String c s' => if isspace c then lstrip s' else s
  end.

Fixpoint rstrip (s : string) : string :=
  match s with
  | "" => ""
  | String c s' =>
      match rstrip s' with
      | "" => if isspace c then "" else String c ""
      | r => String c r
      end
  end.

(** [s.strip()] *)
Definition strip (s : string) : string := rstrip (lstrip s).

(** [s.split()]: the maximal runs of non-whitespace characters. [cur] is
    the run being read. *)
Fixpoint split_ws_go (cur : string) (s : string) : list string :=
  match s with
  | "" => if nonempty cur then [cur] else []
  | String c s' =>
      if isspace c
      then (if nonempty cur then cur :: split_ws_go "" s' else split_ws_go "" s')
      else split_ws_go (cur +:+ String c "") s'
  end.

Definition split_ws (s : string) : list string := split_ws_go "" s.

(** [sep.join(l)] *)
Definition join (sep : string) (l : list string) : string := String.concat sep l.

(** [s] with the prefix [p] removed, when [s] starts with [p]. *)
Fixpoint strip_prefix (p s : string) : option string :=
  match p, s with
  | "", _ => Some s
  | String a p', String b s' => if decide (a = b) then strip_prefix p' s' else None
  | String _ _, "" => None
  end.

Lemma strip_prefix_length p s r :
  strip_prefix p s = Some r -> String.length s = String.length p + String.length r.
Proof.
  revert s; induction p as [|a p IH]; intros [|b s]; simpl; intros H;
    try (inversion H; subst; reflexivity).
  destruct (decide (a = b)); [|discriminate].
  rewrite (IH _ H). reflexivity.
Qed.

(** [s.split(sep)] for a separator [String a p] (non-empty): cut at the
    leftmost occurrences, left to right. [cur] is the piece being read. *)
Equations? split_go (a : ascii) (p : string) (cur : string) (s : string)
  : list string by wf (String.length s) lt :=
  split_go a p cur "" := [cur];
  split_go a p cur (String c s') with inspect (strip_prefix (String a p) (String c s')) => {
    | exist _ (Some rest) H := cur :: split_go a p "" rest;
    | exist _ None _ := split_go a p (cur +:+ String c "") s' }.
Proof.
  apply (strip_prefix_length (String a p) (String c s')) in H.
  simpl in *. lia.
Qed.

Definition split (sep s : string) : list string :=
  match sep with
  | "" => [s]   (* Python raises ValueError; the program never does this *)
  | String a p => split_go a p "" s
  end.

(** [pat in s] *)
Fixpoint contains (pat s : string) : bool :=
  match strip_prefix pat s with
  | Some _ => true
  | None => match s with
            | "" => false
            | String _ s' => contains pat s'
            end
  end.

End PyStr.

(** ** String normalisation ([normalize_string] of [validator.py]) *)
Module Normalize.
Import PyStr.

(** The longest prefix of [s] whose characters satisfy [p], and the rest. *)
Fixpoint span (p : ascii -> bool) (s : string) : string * string :=
  match s with
  | "" => ("", "")
  | String c s' =>
      if p c then let '(l, r) := span p s' in (String c l, r) else ("", s)
  end.

Definition backslash : ascii := "\".
Definition lbrace : ascii := "{".
Definition rbrace : ascii := "}".

(** A match, at the start of [s] (the text after a backslash), of the rest
    of the pattern of [normalize_string]: one or more ASCII letters, an
    opening brace, group 1 made of the characters up to the first closing
    brace, and that closing brace. The result is group 1 and the text after
    the match. Both quantifiers are greedy and what follows each cannot be
    matched by it, so the match is the only one. *)
Definition match_command (s : string) : option (string * string) :=
  let '(name, r1) := span isletter s in
  if nonempty name then
    match r1 with
    | String c r2 =>
        if decide (c = lbrace) then
          let '(content, r3) := span (fun c => negb (bool_decide (c = rbrace))) r2 in
          match r3 with
          | String _ r4 => Some (content, r4)
          | "" => None
          end
        else None
    | "" => None
    end
  else None.

Lemma span_length p s l r :
  span p s = (l, r) -> String.length s = String.length l + String.length r.
Proof.
  revert l r; induction s as [|c s IH]; simpl; intros l r H.
  - inversion H; reflexivity.
  - destruct (p c).
    + destruct (span p s) as [l' r'] eqn:E. inversion H; subst.
      simpl. rewrite (IH _ _ eq_refl). reflexivity.
    + inversion H; subst. reflexivity.
Qed.

Lemma match_command_length s content rest :
  match_command s = Some (content, rest) ->
  String.length rest < String.length s.
Proof.
  unfold match_command.
  destruct (span isletter s) as [name r1] eqn:E1.
  destruct (nonempty name); [|discriminate].
  destruct r1 as [|c r2]; [discriminate|].
  destruct (decide (c = lbrace)); [|discriminate].
  destruct (span _ r2) as [content' r3] eqn:E2.
  destruct r3 as [|c' r4]; [discriminate|].
  intros H; inversion H; subst.
  apply span_length in E1, E2. simpl in *. lia.
Qed.

(** The first [re.sub] of [normalize_string]: scanning left to right, a
    backslash command with its braced argument is replaced by the argument
    (group 1), and the scan goes on after the closing brace. *)
Equations? sub_command (s : string) : string by wf (String.length s) lt :=
  sub_command "" := "";
  sub_command (String c s') with decide (c = backslash) => {
    | left _ with inspect (match_command s') => {
        | exist _ (Some (content, rest)) H := content +:+ sub_command rest;
        | exist _ None _ := String c (sub_command s') };
    | right _ := String c (sub_command s') }.
Proof.
  apply match_command_length in H. lia.
Qed.

(** The second [re.sub]: every brace is deleted. *)
Definition sub_braces (s : string) : string :=
  filter_chars (fun c => negb (bool_decide (c = lbrace) || bool_decide (c = rbrace))) s.

(** The third [re.sub]: every character that is neither [\w] nor [\s]
    becomes a space. *)
Definition sub_nonword (s : string) : string :=
  map_chars (fun c => if isword c || isspace c then c else " "%char) s.

(** [normalize_string]; the argument is [None] for Python's [None]. *)
Definition normalize_string (s : option string) : string :=
  match s with
  | None => ""
  | Some s =>
      if nonempty s then
        let s := sub_command s in
        let s := sub_braces s in
        let s := sub_nonword (lower s) in
        join " " (split_ws s)
      else ""
  end.

End Normalize.

(** ** [difflib.SequenceMatcher(None, a, b).ratio()]

    Embedded from CPython's [difflib.py], for [isjunk = None] and the
    default [autojunk = True], which is how [similarity] calls it. *)
Module Difflib.
Local Open Scope nat_scope.

Section SequenceMatcher.
Context {A : Type} `{EqDecision A}.
Variables a b : list A.

(** A match [(i, j, k)]: [a[i:i+k] == b[j:j+k]]. *)
Definition block : Type := nat * nat * nat.
Definition block_size (x : block) : nat := x.2.

(** [__chain_b]: [b2j[x]] is the increasing list of the positions of [x]
    in [b]. *)
Definition indices (x : A) : list nat :=
  filter (fun j => b !! j = Some x) (seq 0 (length b)).

(** No [isjunk] function is given: the junk set is empty. *)
Definition isbjunk (x : A) : bool := false.

(** With [autojunk], in a [b] of 200 elements or more, an element that
    occurs more than [n // 100 + 1] times is popular and loses its entry
    in [b2j]. *)
Definition popular (x : A) : bool :=
  (200 <=? length b) && (length b / 100 + 1 <? length (indices x)).

(** [b2j.get(x, nothing)] *)
Definition b2j_get (x : A) : list nat :=
  if popular x then [] else indices x.

(** [j2len.get(j-1, 0)]; the key [-1] is never present. *)
Definition j2len_get (j2len : gmap nat nat) (j : nat) : nat :=
  match j with
  | O => 0
  | S j' => default 0 (j2len !! j')
  end.

(** The loop over the positions [js] of [a[i]] in [b], in
    [find_longest_match]. *)
Fixpoint match_row (i blo bhi : nat) (j2len : gmap nat nat) (js : list nat)
    (newj2len : gmap nat nat) (best : block) : gmap nat nat * block :=
  match js with
  | [] => (newj2len, best)
  | j :: js' =>
      if j <? blo then match_row i blo bhi j2len js' newj2len best
      else if bhi <=? j then (newj2len, best)
      else
        let k := j2len_get j2len j + 1 in
        let newj2len := <[j := k]> newj2len in
        let best := if block_size best <? k then (i + 1 - k, j + 1 - k, k) else best in
        match_row i blo bhi j2len js' newj2len best
  end.

(** The loop [for i in range(alo, ahi)], over the list [rows] of the
    remaining positions. *)
Fixpoint match_rows (blo bhi : nat) (rows : list nat) (j2len : gmap nat nat)
    (best : block) : block :=
  match rows with
  | [] => best
  | i :: rows' =>
      match a !! i with
      | Some x =>
          let '(newj2len, best) := match_row i blo bhi j2len (b2j_get x) ∅ best in
          match_rows blo bhi rows' newj2len best
      | None => best   (* IndexError; [ahi] never exceeds [len(a)] *)
      end
  end.

(** [a[i] == b[j]], with both positions in range. *)
Definition same_at (i j : nat) : bool :=
  match a !! i, b !! j with
  | Some x, Some y => bool_decide (x = y)
  | _, _ => false
  end.

(** [isbjunk(b[j])], negated when [junk] is [false]. *)
Definition junk_at (junk : bool) (j : nat) : bool :=
  match b !! j with
  | Some y => bool_decide (isbjunk y = junk)
  | None => false
  end.

(** The loops that extend the match downwards, one element at a time. *)
Fixpoint extend_down (junk : bool) (alo blo : nat) (besti bestj bestsize : nat)
    : block :=
  match besti, bestj with
  | S i', S j' =>
      if (alo <? besti) && (blo <? bestj) && junk_at junk j' && same_at i' j'
      then extend_down junk alo blo i' j' (S bestsize)
      else (besti, bestj, bestsize)
  | _, _ => (besti, bestj, bestsize)
  end.

(** The loops that extend the match upwards; each round raises
    [besti + bestsize], which stays below [ahi]: [n] bounds the rounds
    left. *)
Fixpoint extend_up (junk : bool) (ahi bhi : nat) (n : nat)
    (besti bestj bestsize : nat) : block :=
  match n with
  | O => (besti, bestj, bestsize)
  | S n' =>
      if (besti + bestsize <? ahi) && (bestj + bestsize <? bhi)
         && junk_at junk (bestj + bestsize)
         && same_at (besti + bestsize) (bestj + bestsize)
      then extend_up junk ahi bhi n' besti bestj (S bestsize)
      else (besti, bestj, bestsize)
  end.

Definition extend (junk : bool) (alo ahi blo bhi : nat) (x : block) : block :=
  let '(besti, bestj, bestsize) := x in
  let '(besti, bestj, bestsize) := extend_down junk alo blo besti bestj bestsize in
  extend_up junk ahi bhi (ahi - (besti + bestsize)) besti bestj bestsize.

Definition find_longest_match (alo ahi blo bhi : nat) : block :=
  let best := match_rows blo bhi (seq alo (ahi - alo)) ∅ (alo, blo, 0) in
  let best := extend false alo ahi blo bhi best in
  extend true alo ahi blo bhi best.

(** The loop [while queue] of [get_matching_blocks]. The head of [queue]
    is the top of the stack. Each round either finds no match or splits a
    range around a match of at least one element: a range of [n] elements
    of [a] takes at most [2 * n + 1] rounds, and [fuel] bounds the rounds
    (see [DifflibTermination.get_matching_blocks_fuel]). *)
Fixpoint blocks_loop (fuel : nat) (queue : list (nat * nat * nat * nat))
    (matching_blocks : list block) : list block :=
  match fuel, queue with
  | S fuel', (alo, ahi, blo, bhi) :: queue' =>
      let '(i, j, k) := find_longest_match alo ahi blo bhi in
      if 0 <? k then
        let q1 := if (alo <? i) && (blo <? j) then [(alo, i, blo, j)] else [] in
        let q2 := if (i + k <? ahi) && (j + k <? bhi) then [(i + k, ahi, j + k, bhi)] else [] in
        blocks_loop fuel' (q2 ++ q1 ++ queue') (matching_blocks ++ [(i, j, k)])
      else blocks_loop fuel' queue' matching_blocks
  | _, _ => matching_blocks
  end.

End SequenceMatcher.

(** Tuples compare lexicographically. *)
Definition block_leb (x y : block) : bool :=
  let '(i1, j1, k1) := x in
  let '(i2, j2, k2) := y in
  (i1 <? i2) || ((i1 =? i2) && ((j1 <? j2) || ((j1 =? j2) && (k1 <=? k2)))).

Fixpoint insert_block (x : block) (l : list block) : list block :=
  match l with
  | [] => [x]
  | y :: l' => if block_leb x y then x :: l else y :: insert_block x l'
  end.

(** [matching_blocks.sort()] *)
Definition sort_blocks (l : list block) : list block :=
  foldr insert_block [] l.

(** The loop that merges adjacent blocks; [(i1, j1, k1)] is the block
    being grown. *)
Fixpoint collapse (i1 j1 k1 : nat) (l : list block) : list block :=
  match l with
  | [] => if 0 <? k1 then [(i1, j1, k1)] else []
  | (i2, j2, k2) :: l' =>
      if (i1 + k1 =? i2) && (j1 + k1 =? j2) then collapse i1 j1 (k1 + k2) l'
      else (if 0 <? k1 then [(i1, j1, k1)] else []) ++ collapse i2 j2 k2 l'
  end.

Section Ratio.
Context {A : Type} `{EqDecision A}.

Definition get_matching_blocks (a b : list A) : list block :=
  let la := length a in
  let lb := length b in
  let matching_blocks := blocks_loop a b (2 * la + 1) [(0, la, 0, lb)] [] in
  collapse 0 0 0 (sort_blocks matching_blocks) ++ [(la, lb, 0)].

(** [_calculate_ratio]: [2.0 * matches / length], and [1.0] for length 0.
    The float is the correctly rounded quotient of two small integers; it
    is below a threshold 0.75, 0.6 or 0.85 exactly when the rational is. *)
Definition calculate_ratio (matches length : nat) : Qc :=
  match length with
  | O => 1
  | _ => Qc_of_Z (Z.of_nat (2 * matches)) / Qc_of_Z (Z.of_nat length)
  end%Qc.

Definition ratio (a b : list A) : Qc :=
  let matches := sum_list (block_size <$> get_matching_blocks a b) in
  calculate_ratio matches (length a + length b).

End Ratio.
End Difflib.

(** ** Insertion-ordered dictionaries with string keys *)
Module Dict.
Section Dict.
Context {V : Type}.

(** The items of the dictionary, in insertion order. *)
Definition dict : Type := list (string * V).

(** [d.get(k)] *)
Fixpoint get (k : string) (d : dict) : option V :=
  match d with
  | [] => None
  | (k', v) :: d' => if decide (k' = k) then Some v else get k d'
  end.

(** [k in d] *)
Definition mem (k : string) (d : dict) : bool := bool_decide (is_Some (get k d)).

(** [d[k] = v]: a key already there keeps its place, a new key goes last. *)
Fixpoint set (k : string) (v : V) (d : dict) : dict :=
  match d with
  | [] => [(k, v)]
  | (k', v') :: d' => if decide (k' = k) then (k, v) :: d' else (k', v') :: set k v d'
  end.

Definition keys (d : dict) : list string := fst <$> d.

End Dict.
Arguments dict : clear implicits.
End Dict.

(** ** The validator ([validator.py]) and its sources ([sources/]) *)
Module Validator.
Import PyStr Normalize.

(** A BibTeX entry as the parser gives it: field name to string, with the
    keys [ID] and [ENTRYTYPE]. *)
Abbreviation Entry := (gmap string string).

(** The fields a source extracts from a provider result. *)
Abbreviation FieldMap := (Dict.dict string).

Definition DEFAULT_ORDER : list string := ["dblp"; "scholar"; "semantic"].

(** *** [authors_to_list] *)

(** The values [authors_to_list] tells apart: [None], a string, a list of
    strings. *)
Inductive author_value :=
  | ANone
  | AStr (s : string)
  | AList (l : list string).

(** What [d.get(k)] gives, as an [author_value]. *)
Definition author_of (o : option string) : author_value :=
  match o with Some s => AStr s | None => ANone end.

(** [[x.strip() for x in l if x.strip()]] *)
Definition stripped (l : list string) : list string :=
  filter (fun x => nonempty x = true) (strip <$> l).

Definition authors_to_list (authors_val : author_value) : list string :=
  match authors_val with
  | ANone => []
  | AStr s => if nonempty s then stripped (split " and " s) else []
  | AList l => stripped l
  end.

(** *** [similarity] *)
Definition similarity (a b : string) : Qc :=
  Difflib.ratio (list_ascii_of_string (normalize_string (Some a)))
                (list_ascii_of_string (normalize_string (Some b))).

(** Numbers as an f-string prints them. *)
Definition str_of_nat (n : nat) : string := pretty n.

Section Compare.
(** The conversion [{sim:.2f}] of a ratio to text rounds a binary float
    and is left to the caller. *)
Variable format_2f : Qc -> string.

(** The loop over [zip(orig_authors, corr_authors)]. *)
Fixpoint author_mismatches (orig_authors corr_authors : list string) : list string :=
  match orig_authors, corr_authors with
  | oa :: orig', ca :: corr' =>
      (if bool_decide (similarity oa ca < Q2Qc (3 # 4))%Qc
       then ["'" +:+ oa +:+ "' vs '" +:+ ca +:+ "'"] else [])
      ++ author_mismatches orig' corr'
  | _, _ => []
  end.

(** The author part of [compare_with_corrected]. *)
Definition compare_authors (original : Entry) (corrected : FieldMap) : list string :=
  if Dict.mem "author" corrected && bool_decide (is_Some (original !! "author")) then
    let orig_authors := authors_to_list (author_of (original !! "author")) in
    let corr_authors := authors_to_list (author_of (Dict.get "author" corrected)) in
    if negb (length orig_authors =? length corr_authors)%nat then
      ["AUTHORS: Different count (" +:+ str_of_nat (length orig_authors) +:+ " vs "
         +:+ str_of_nat (length corr_authors) +:+ ")"]
    else
      let mismatches := author_mismatches orig_authors corr_authors in
      if negb (bool_decide (mismatches = [])) && (length mismatches <=? 3)%nat
      then ["AUTHORS: " +:+ join "; " mismatches] else []
  else [].

Definition compare_venue (original : Entry) (corrected : FieldMap) : list string :=
  let orig_venue := default "" (por (por (original !! "booktitle") (original !! "journal")) (Some "")) in
  let corr_venue := default "" (Dict.get "venue" corrected) in
  if nonempty orig_venue && nonempty corr_venue then
    if bool_decide (similarity orig_venue corr_venue < Q2Qc (3 # 5))%Qc
    then ["VENUE: '" +:+ orig_venue +:+ "' vs '" +:+ corr_venue +:+ "'"] else []
  else [].

Definition compare_year (original : Entry) (corrected : FieldMap) : list string :=
  let orig_year := default "" (original !! "year") in
  let corr_year := default "" (Dict.get "year" corrected) in
  if nonempty orig_year && nonempty corr_year && negb (bool_decide (orig_year = corr_year))
  then ["YEAR: " +:+ orig_year +:+ " vs " +:+ corr_year] else [].

Definition compare_title (original : Entry) (corrected : FieldMap) : list string :=
  match original !! "title", Dict.get "title" corrected with
  | Some orig_title, Some corr_title =>
      let sim := similarity orig_title corr_title in
      if bool_decide (sim < Q2Qc (17 # 20))%Qc
      then ["TITLE: Low similarity (" +:+ format_2f sim +:+ ")"] else []
  | _, _ => []
  end.

(** [compare_with_corrected]: the four comparisons append to [issues] in
    this order. *)
Definition compare_with_corrected (original : Entry) (corrected : FieldMap) : list string :=
  compare_authors original corrected ++ compare_venue original corrected
  ++ compare_year original corrected ++ compare_title original corrected.

End Compare.

(** *** The providers and the effects of a run *)

(** What a run does to the outside, in order: the search calls it issues,
    each with whether it returned a result, and the pacing delays
    (seconds). Console output is left out. *)
Inductive event :=
  | SearchByDoi (source doi : string) (hit : bool)
  | SearchByTitle (source title : string) (hit : bool)
  | Sleep (seconds : nat).

Section Run.
(** The state of the providers, and the provider-native result objects
    with their Python truthiness (an empty mapping is falsy). *)
Context {W R : Type}.
Variable truthy_result : R -> bool.
Variable format_2f : Qc -> string.

Record state := State { world : W; trace : list event }.

(** A computation that may query the providers and is logged. *)
Definition M (X : Type) : Type := state -> X * state.

Definition ret {X} (x : X) : M X := fun st => (x, st).
Definition bind {X Y} (m : M X) (k : X -> M Y) : M Y :=
  fun st => let '(x, st') := m st in k x st'.

Notation "'let*' x ':=' m 'in' k" := (bind m (fun x => k))
  (at level 10, x pattern, m at level 100, k at level 200).

Definition log (e : event) : M unit :=
  fun st => (tt, State (world st) (trace st ++ [e])).

(** A call into a provider client: it may read and change the world. *)
Definition query {X} (f : W -> X * W) : M X :=
  fun st => let '(x, w) := f (world st) in (x, State w (trace st)).

(** [time.sleep] *)
Definition sleep (seconds : nat) : M unit := log (Sleep seconds).

(** [ValidationSource]: the four methods of a source. *)
Record Source := {
  name : string;
  should_attempt : Entry -> bool * string;
  search_by_doi : string -> W -> option R * W;
  search_by_title : string -> W -> option R * W;
  extract_bibtex_fields : R -> FieldMap;
}.

(** Truthiness of what a search returned: [None] and a falsy object are
    no result. *)
Definition found_truthy (found : option R) : bool :=
  match found with Some r => truthy_result r | None => false end.

(** **** [sources/dblp.py] *)
Definition skip_patterns : list string :=
  [ "github.com"; "github issue"; "pull request"; "documentation"; "readme";
    "security policy"; "vulnerability disclosure"; "nasa.gov"; "esa.int";
    "manual"; "guide"; "tutorial"; "blog"; "website"; "webpage" ].

Definition dblp_should_attempt (entry : Entry) : bool * string :=
  let entry_type := lower (default "" (entry !! "ENTRYTYPE")) in
  let title := lower (default "" (por (entry !! "title") (Some ""))) in
  match List.find (fun pattern => contains pattern title) skip_patterns with
  | Some pattern => (false, "title contains '" +:+ pattern +:+ "'")
  | None =>
      if bool_decide (entry_type = "online") && negb (truthy (entry !! "doi"))
      then (false, "online entry without DOI")
      else if bool_decide (entry_type ∈ ["techreport"; "misc"; "manual"])
              && negb (truthy (entry !! "doi"))
      then (false, entry_type +:+ " without DOI")
      else (true, "ok")
  end.

(** [dblp_search q] is [_search] on the query [q]: the HTTP request with
    its retries, which ends in the first hit or [None]. *)
Definition DBLPSource (dblp_search : string -> W -> option R * W)
    (extract : R -> FieldMap) : Source := {|
  name := "dblp";
  should_attempt := dblp_should_attempt;
  search_by_doi doi := dblp_search ("doi:" +:+ doi);
  search_by_title title := dblp_search title;
  extract_bibtex_fields := extract;
|}.

(** **** [sources/scholar.py] *)
Definition scholar_should_attempt (entry : Entry) : bool * string :=
  if negb (truthy (entry !! "title")) then (false, "missing title") else (true, "ok").

(** [search_pubs title] is the guarded call of [scholarly.search_pubs] with
    the first publication taken. *)
Definition ScholarSource (search_pubs : string -> W -> option R * W)
    (extract : R -> FieldMap) : Source := {|
  name := "scholar";
  should_attempt := scholar_should_attempt;
  search_by_doi doi := fun w => (None, w);
  search_by_title title := search_pubs title;
  extract_bibtex_fields := extract;
|}.

(** **** [sources/semantic.py] *)
Definition semantic_should_attempt (entry : Entry) : bool * string :=
  if negb (truthy (entry !! "doi")) && negb (truthy (entry !! "title"))
  then (false, "missing doi and title") else (true, "ok").

(** [get_paper] and [search_paper] are the guarded client calls. *)
Definition SemanticScholarSource (get_paper search_paper : string -> W -> option R * W)
    (extract : R -> FieldMap) : Source := {|
  name := "semantic";
  should_attempt := semantic_should_attempt;
  search_by_doi doi := get_paper ("DOI:" +:+ doi);
  search_by_title title := search_paper title;
  extract_bibtex_fields := extract;
|}.

(** **** [sources/__init__.py] *)
Definition build_sources (dblp scholar semantic : Source) (selected : list string)
    : gmap string Source :=
  foldl (fun sources source_name =>
           if bool_decide (source_name ∈ selected) then
             if bool_decide (source_name = "dblp") then <["dblp" := dblp]> sources
             else if bool_decide (source_name = "scholar") then <["scholar" := scholar]> sources
             else if bool_decide (source_name = "semantic") then <["semantic" := semantic]> sources
             else sources
           else sources)
        ∅ DEFAULT_ORDER.

(** *** Validation results *)
Record SourceMatch := {
  match_search_method : option string;
  match_source_data : R;
  match_corrected_fields : FieldMap;
}.

Record Attempt := { attempted : bool; reason : string }.

Record ValidationResult := {
  res_id : string;
  res_title : string;
  res_status : string;
  res_issues : list string;
  res_corrected_fields : FieldMap;
  res_search_method : option string;
  res_matches : Dict.dict SourceMatch;
  res_attempts : Dict.dict Attempt;
}.

Definition set_attempt (source_name : string) (x : Attempt) (r : ValidationResult) :=
  {| res_id := res_id r; res_title := res_title r; res_status := res_status r;
     res_issues := res_issues r; res_corrected_fields := res_corrected_fields r;
     res_search_method := res_search_method r; res_matches := res_matches r;
     res_attempts := Dict.set source_name x (res_attempts r) |}.

Definition set_match (source_name : string) (m : SourceMatch) (r : ValidationResult) :=
  {| res_id := res_id r; res_title := res_title r; res_status := res_status r;
     res_issues := res_issues r; res_corrected_fields := res_corrected_fields r;
     res_search_method := res_search_method r;
     res_matches := Dict.set source_name m (res_matches r);
     res_attempts := res_attempts r |}.

Definition set_outcome (status : string) (issues : list string) (r : ValidationResult) :=
  {| res_id := res_id r; res_title := res_title r; res_status := status;
     res_issues := issues; res_corrected_fields := res_corrected_fields r;
     res_search_method := res_search_method r; res_matches := res_matches r;
     res_attempts := res_attempts r |}.

Definition set_corrected (m : SourceMatch) (r : ValidationResult) :=
  {| res_id := res_id r; res_title := res_title r; res_status := res_status r;
     res_issues := res_issues r; res_corrected_fields := match_corrected_fields m;
     res_search_method := match_search_method m; res_matches := res_matches r;
     res_attempts := res_attempts r |}.

(** *** [validate_entry] *)
Variable sources : gmap string Source.

(** The DOI search and the title fallback for one source that accepted
    the entry: what was found and by which method. *)
Definition search_source (source_name : string) (source : Source) (entry : Entry)
    : M (option R * option string) :=
  let found := None in
  let search_method := None in
  let doi := entry !! "doi" in
  let* (found, search_method) :=
    (if truthy doi then
       let* found := query (search_by_doi source (default "" doi)) in
       let* _ := log (SearchByDoi source_name (default "" doi) (found_truthy found)) in
       ret (found, if found_truthy found then Some (source_name +:+ ":DOI") else search_method)
     else ret (found, search_method)) in
  if negb (found_truthy found) then
    let title := entry !! "title" in
    if truthy title then
      let* found := query (search_by_title source (default "" title)) in
      let* _ := log (SearchByTitle source_name (default "" title) (found_truthy found)) in
      ret (found, if found_truthy found then Some (source_name +:+ ":Title") else search_method)
    else ret (found, search_method)
  else ret (found, search_method).

(** One round of the loop over [DEFAULT_ORDER]. *)
Definition try_source (entry : Entry) (source_name : string) (result : ValidationResult)
    : M ValidationResult :=
  match sources !! source_name with
  | None => ret result
  | Some source =>
      let '(can_try, why) := should_attempt source entry in
      let result := set_attempt source_name {| attempted := can_try; reason := why |} result in
      if negb can_try then ret result
      else
        let* (found, search_method) := search_source source_name source entry in
        let result :=
          match found with
          | Some data =>
              if truthy_result data then
                set_match source_name
                  {| match_search_method := search_method;
                     match_source_data := data;
                     match_corrected_fields := extract_bibtex_fields source data |}
                  result
              else result
          | None => result
          end in
        let* _ := sleep 1 in
        ret result
  end.

Fixpoint try_sources (entry : Entry) (order : list string) (result : ValidationResult)
    : M ValidationResult :=
  match order with
  | [] => ret result
  | source_name :: order' =>
      let* result := try_source entry source_name result in
      try_sources entry order' result
  end.

(** The loop that picks the corrected fields: the first name of the order
    that has a match. *)
Fixpoint choose_corrected (order : list string) (result : ValidationResult)
    : ValidationResult :=
  match order with
  | [] => result
  | preferred :: order' =>
      match Dict.get preferred (res_matches result) with
      | Some m => set_corrected m result
      | None => choose_corrected order' result
      end
  end.

(** [list(dict.fromkeys(issues))]: the first occurrence of each issue
    stays. *)
Fixpoint dedup (seen : list string) (issues : list string) : list string :=
  match issues with
  | [] => []
  | i :: issues' =>
      if bool_decide (i ∈ seen) then dedup seen issues'
      else i :: dedup (i :: seen) issues'
  end.

(** The issues of all matches, each prefixed with its source. *)
Definition collect_issues (entry : Entry) (matches : Dict.dict SourceMatch) : list string :=
  mjoin ((fun '(source_name, m) =>
            (fun i => upper source_name +:+ ": " +:+ i)
              <$> compare_with_corrected format_2f entry (match_corrected_fields m))
         <$> matches).

(** The result as [validate_entry] first builds it. *)
Definition initial_result (entry : Entry) : ValidationResult :=
  {| res_id := default "unknown" (entry !! "ID");
     res_title := default "" (entry !! "title");
     res_status := "unknown";
     res_issues := [];
     res_corrected_fields := [];
     res_search_method := None;
     res_matches := [];
     res_attempts := [] |}.

Definition validate_entry (entry : Entry) : M ValidationResult :=
  let result := initial_result entry in
  let* result := try_sources entry DEFAULT_ORDER result in
  if bool_decide (res_matches result = []) then
    ret (set_outcome "not_found" (res_issues result ++ ["Entry not found in any source"]) result)
  else
    let result := choose_corrected DEFAULT_ORDER result in
    let issues := collect_issues entry (res_matches result) in
    let issues := dedup [] issues in
    ret (set_outcome (if bool_decide (issues = []) then "validated" else "mismatch")
           issues result).

(** *** [validate_all]

    Validation only reads the entries: [entries] is what the dictionaries
    of [self.entries] hold. *)

(** [self.results] *)
Record Results := {
  validated : list ValidationResult;
  mismatches : list ValidationResult;
  not_found : list ValidationResult;
}.

(** What [__init__] sets [self.results] to. *)
Definition no_results : Results :=
  {| validated := []; mismatches := []; not_found := [] |}.

(** The three branches on [result["status"]]; a result with another status
    would go nowhere. *)
Definition bucket (result : ValidationResult) (results : Results) : Results :=
  if bool_decide (res_status result = "validated") then
    {| validated := validated results ++ [result];
       mismatches := mismatches results; not_found := not_found results |}
  else if bool_decide (res_status result = "mismatch") then
    {| validated := validated results;
       mismatches := mismatches results ++ [result]; not_found := not_found results |}
  else if bool_decide (res_status result = "not_found") then
    {| validated := validated results;
       mismatches := mismatches results; not_found := not_found results ++ [result] |}
  else results.

(** The loop of [validate_all] over the entries. *)
Fixpoint validate_each (entries : list Entry) (results : Results) : M Results :=
  match entries with
  | [] => ret results
  | entry :: entries' =>
      let* result := validate_entry entry in
      let results := bucket result results in
      let* _ := sleep 2 in
      validate_each entries' results
  end.

Definition validate_all (entries : list Entry) (results : Results) : M Results :=
  match entries with
  | [] => ret results
  | _ => validate_each entries results
  end.

End Run.

Arguments state : clear implicits.
Arguments M : clear implicits.
Arguments Source : clear implicits.
Arguments SourceMatch : clear implicits.
Arguments ValidationResult : clear implicits.
Arguments Results : clear implicits.

(** *** [apply_corrections_to_entries]

    Entries are mutable dictionaries: [self.entries] is a list of
    references into a heap, [deepcopy] allocates, and an item assignment
    writes through a reference. *)
Abbreviation loc := nat.
Abbreviation heap := (gmap loc Entry).

Section Apply.
Context {R : Type}.

(** [deepcopy(entry)]: a new dictionary with the same items. *)
Definition deepcopy (entry : loc) (h : heap) : loc * heap :=
  let entry_copy := fresh (dom h) in
  (entry_copy, <[entry_copy := h !!! entry]> h).

(** [d.get(k)] through a reference. *)
Definition read (d : loc) (k : string) (h : heap) : option string :=
  h !! d ≫= fun e => e !! k.

(** [d[k] = v] through a reference. *)
Definition write (d : loc) (k v : string) (h : heap) : heap :=
  alter (fun e => <[k := v]> e) d h.

(** The first result with the entry's id, in [validated + mismatches]. An
    entry without [ID] has the id [None], which equals no result's id. *)
Definition find_result (results : Results R) (entry_id : option string)
    : option (ValidationResult R) :=
  List.find (fun result => bool_decide (Some (res_id result) = entry_id))
            (validated results ++ mismatches results).

(** The loop over [corrected.items()] *)
Definition write_fields (entry entry_copy : loc) (corrected : FieldMap) (h : heap) : heap :=
  foldl (fun h '(field, value) =>
           if nonempty value then
             if bool_decide (field = "venue") then
               if bool_decide (read entry "ENTRYTYPE" h = Some "article")
               then write entry_copy "journal" value h
               else write entry_copy "booktitle" value h
             else write entry_copy field value h
           else h)
        h corrected.

(** A search method in an f-string. *)
Definition str_of_method (search_method : option string) : string :=
  default "None" search_method.

Definition write_note (entry_copy : loc) (validation_result : ValidationResult R)
    (h : heap) : heap :=
  let source_info := str_of_method (res_search_method validation_result) in
  let existing_note := default "" (read entry_copy "note" h) in
  let validation_note := "Validated via " +:+ source_info in
  write entry_copy "note"
    (if nonempty existing_note then existing_note +:+ "; " +:+ validation_note
     else validation_note) h.

(** One round of the loop over [self.entries]. A result is a dictionary
    that always has the key [corrected_fields]: the test before the
    corrections holds as soon as a result was found. *)
Definition apply_corrections (results : Results R) (entry : loc) (h : heap) : loc * heap :=
  let '(entry_copy, h) := deepcopy entry h in
  let entry_id := read entry "ID" h in
  match find_result results entry_id with
  | Some validation_result =>
      let h := write_fields entry entry_copy (res_corrected_fields validation_result) h in
      let h := write_note entry_copy validation_result h in
      (entry_copy, h)
  | None => (entry_copy, h)
  end.

Fixpoint apply_corrections_loop (results : Results R) (entries : list loc)
    (updated_entries : list loc) (h : heap) : list loc * heap :=
  match entries with
  | [] => (updated_entries, h)
  | entry :: entries' =>
      let '(entry_copy, h) := apply_corrections results entry h in
      apply_corrections_loop results entries' (updated_entries ++ [entry_copy]) h
  end.

Definition apply_corrections_to_entries (results : Results R) (entries : list loc)
    (h : heap) : list loc * heap :=
  apply_corrections_loop results entries [] h.

End Apply.

End Validator.

(** * Further models *)

(** ** The source table of a validator ([SmartBibtexValidator.__init__]) *)
Module InitModel.
Import Validator.
Section Init.
Context {W R : Type}.

(** [SmartBibtexValidator.__init__], the source table: the one given, or
    all defaults when none or an empty one is given (an empty dict is
    falsy). [dblp], [scholar] and [semantic] are the sources that
    [build_sources] constructs. *)
Definition init_sources (dblp scholar semantic : Source W R)
    (sources : option (gmap string (Source W R))) : gmap string (Source W R) :=
  match sources with
  | Some given => if decide (given = ∅) then build_sources dblp scholar semantic DEFAULT_ORDER
                  else given
  | None => build_sources dblp scholar semantic DEFAULT_ORDER
  end.

End Init.
End InitModel.

(** ** Provider results as Python values

    What [response.json()] returns, and what membership, indexing,
    truthiness and [str] do on it. *)
Module PyValue.
Import PyStr.
Local Open Scope list_scope.

(** A JSON document as Python holds it. A float is kept as the rational it
    denotes; the keys of a dictionary are distinct. *)
#[warnings="-register-all"]
Inductive value :=
  | VNone
  | VBool (b : bool)
  | VInt (n : Z)
  | VFloat (x : Q)
  | VStr (s : string)
  | VList (l : list value)
  | VDict (d : Dict.dict value).

(** The built-in exceptions that reading a value can raise. *)
Inductive builtin := TypeError | KeyError | IndexError.

(** An exception: a built-in one, or one raised by a call into the HTTP
    library, of type [E]. *)
Inductive exc (E : Type) :=
  | Builtin (b : builtin)
  | Library (e : E).
Arguments Builtin {E} b.
Arguments Library {E} e.

(** A computation that returns or raises. *)
Inductive outcome (E X : Type) :=
  | Return (x : X)
  | Raise (e : exc E).
Arguments Return {E X} x.
Arguments Raise {E X} e.

#[export] Instance outcome_ret {E} : MRet (outcome E) := fun X x => Return x.
#[export] Instance outcome_bind {E} : MBind (outcome E) := fun X Y k m =>
  match m with
  | Return x => k x
  | Raise e => Raise e
  end.

Definition is_list (v : value) : bool := match v with VList _ => true | _ => false end.
Definition is_dict (v : value) : bool := match v with VDict _ => true | _ => false end.

(** [bool(v)] *)
Definition truthy_value (v : value) : bool :=
  match v with
  | VNone => false
  | VBool b => b
  | VInt n => negb (n =? 0)%Z
  | VFloat x => negb (Qeq_bool x 0)
  | VStr s => nonempty s
  | VList l => negb (bool_decide (l = []))
  | VDict d => negb (bool_decide (d = []))
  end.

(** [v == k] for a string [k]: only the same string is equal to it. *)
Definition eq_str (k : string) (v : value) : bool :=
  match v with VStr s => bool_decide (s = k) | _ => false end.

Section Reading.
Context {E : Type}.

(** [k in v] for a string [k]: a key of a dictionary, an item of a list,
    a substring of a string; the other values are not containers. *)
Definition has (k : string) (v : value) : outcome E bool :=
  match v with
  | VDict d => Return (Dict.mem k d)
  | VList l => Return (existsb (eq_str k) l)
  | VStr s => Return (contains k s)
  | _ => Raise (Builtin TypeError)
  end.

(** [v[k]] for a string [k]. *)
Definition item (k : string) (v : value) : outcome E value :=
  match v with
  | VDict d => match Dict.get k d with
               | Some x => Return x
               | None => Raise (Builtin KeyError)
               end
  | _ => Raise (Builtin TypeError)
  end.

(** [v[0]]: the key [0] is in no dictionary made from JSON. *)
Definition first (v : value) : outcome E value :=
  match v with
  | VList (x :: _) => Return x
  | VList [] => Raise (Builtin IndexError)
  | VStr (String c _) => Return (VStr (String c ""))
  | VStr "" => Raise (Builtin IndexError)
  | VDict _ => Raise (Builtin KeyError)
  | _ => Raise (Builtin TypeError)
  end.

(** [sep.join(l)]: every item must be a string. *)
Fixpoint strings (l : list value) : outcome E (list string) :=
  match l with
  | [] => Return []
  | VStr s :: l' => ss ← strings l'; Return (s :: ss)
  | _ :: _ => Raise (Builtin TypeError)
  end.

Definition join_values (sep : string) (l : list value) : outcome E string :=
  ss ← strings l; Return (join sep ss).

(** [[f(a) for a in l]] *)
Fixpoint for_each {X Y} (f : X -> outcome E Y) (l : list X) : outcome E (list Y) :=
  match l with
  | [] => Return []
  | x :: l' => y ← f x; ys ← for_each f l'; Return (y :: ys)
  end.

End Reading.

(** [str(v)]. The text of a float, a list or a dictionary is left to
    [repr]. *)
Definition str_of (repr : value -> string) (v : value) : string :=
  match v with
  | VStr s => s
  | VInt n => pretty n
  | VBool true => "True"
  | VBool false => "False"
  | VNone => "None"
  | _ => repr v
  end.

End PyValue.

(** ** The DBLP source ([sources/dblp.py]) *)
Module Dblp.
Import PyStr PyValue.
Local Open Scope list_scope.

(** What the search does to the outside: the requests it sends, each with
    its query, and the waits (seconds). *)
Inductive http_event :=
  | Request (q : string)
  | Wait (seconds : nat).

Section Search.
(** The state of the network and the exceptions of the HTTP library, with
    the test [isinstance(e, requests.exceptions.RequestException)]. *)
Context {W E : Type}.
Variable is_request_exception : E -> bool.

(** A response: its status code, what [raise_for_status()] raises, if it
    raises, and what [json()] returns or raises. *)
Record response := {
  status_code : Z;
  raise_for_status : option E;
  json : E + value;
}.

(** [requests.get(url, params={q, format, h}, timeout=15)]: an exception
    or a response. Only the query [q] differs between calls. *)
Variable requests_get : string -> W -> (E + response) * W.

Record net := Net { net_world : W; net_log : list http_event }.

(** [except requests.exceptions.RequestException]: no built-in exception
    is one. *)
Definition caught (e : exc E) : bool :=
  match e with
  | Library e => is_request_exception e
  | Builtin _ => false
  end.

(** The body of [_search] after a response was parsed: the first hit of
    the document, if it has one. *)
Definition first_hit (data : value) : outcome E (option value) :=
  has_result ← has "result" data;
  has_hits ← (if has_result : bool then result ← item "result" data; has "hits" result
              else Return false);
  has_hit ← (if has_hits : bool then
               result ← item "result" data; hits ← item "hits" result; has "hit" hits
             else Return false);
  if has_hit : bool then
    result ← item "result" data;
    hits ← item "hits" result;
    hits ← item "hit" hits;
    if truthy_value hits then
      hit ← first hits;
      info ← item "info" hit;
      Return (Some info)
    else Return None
  else Return None.

Definition retry_delay : nat := 3.

(** What one round of the loop of [_search] decides: to go on with the
    next attempt after a wait, or to stop with a result or an
    exception. *)
Inductive step :=
  | Continue (wait_time : nat)
  | Stop (result : outcome E (option value)).

(** The handler of [RequestException], and what happens to any other
    exception. *)
Definition on_exception (max_retries attempt : nat) (e : exc E) : step :=
  if caught e then
    if (attempt <? max_retries - 1)%nat then Continue (retry_delay * 2 ^ attempt)
    else Stop (Return None)
  else Stop (Raise e).

(** One round, after [requests.get] raised or returned. *)
Definition search_round (max_retries attempt : nat) (got : E + response) : step :=
  match got with
  | inl e => on_exception max_retries attempt (Library e)
  | inr response =>
      if (status_code response =? 429)%Z then
        if (attempt <? max_retries - 1)%nat then Continue (retry_delay * 2 ^ attempt)
        else Stop (Return None)
      else
        match raise_for_status response with
        | Some e => on_exception max_retries attempt (Library e)
        | None =>
            match json response with
            | inl e => on_exception max_retries attempt (Library e)
            | inr data =>
                match first_hit data with
                | Raise e => on_exception max_retries attempt e
                | Return found => Stop (Return found)
                end
            end
        end
  end.

(** The loop [for attempt in range(max_retries)], over the attempts that
    are left. *)
Fixpoint search_loop (q : string) (max_retries : nat) (attempts : list nat) (st : net)
    : outcome E (option value) * net :=
  match attempts with
  | [] => (Return None, st)
  | attempt :: attempts' =>
      let '(got, w) := requests_get q (net_world st) in
      let st := Net w (net_log st ++ [Request q]) in
      match search_round max_retries attempt got with
      | Continue wait_time =>
          search_loop q max_retries attempts' (Net (net_world st) (net_log st ++ [Wait wait_time]))
      | Stop result => (result, st)
      end
  end.

(** [_search(params, max_retries)], for the query [q] of [params]. *)
Definition _search (q : string) (max_retries : nat) (st : net)
    : outcome E (option value) * net :=
  search_loop q max_retries (seq 0 max_retries) st.

Definition search_by_doi (doi : string) : net -> outcome E (option value) * net :=
  _search ("doi:" +:+ doi) 3.

Definition search_by_title (title : string) : net -> outcome E (option value) * net :=
  _search title 3.

End Search.

Section Extract.
Context {E : Type}.
Variable repr : value -> string.

(** [a["text"] if isinstance(a, dict) else a] *)
Definition author_text (a : value) : outcome E value :=
  if is_dict a then item "text" a else Return a.

(** [extract_bibtex_fields] *)
Definition extract_bibtex_fields (result : value) : outcome E (Dict.dict value) :=
  let fields := [] in
  has_title ← has "title" result;
  fields ← (if has_title : bool then
              title ← item "title" result; Return (Dict.set "title" title fields)
            else Return fields);
  has_authors ← has "authors" result;
  has_author ← (if has_authors : bool then authors ← item "authors" result; has "author" authors
                else Return false);
  fields ← (if has_author : bool then
              authors ← item "authors" result;
              author_data ← item "author" authors;
              authors ← (match author_data with
                         | VList l => for_each author_text l
                         | _ => a ← author_text author_data; Return [a]
                         end);
              joined ← join_values " and " authors;
              Return (Dict.set "author" (VStr joined) fields)
            else Return fields);
  has_year ← has "year" result;
  fields ← (if has_year : bool then
              year ← item "year" result; Return (Dict.set "year" (VStr (str_of repr year)) fields)
            else Return fields);
  has_venue ← has "venue" result;
  fields ← (if has_venue : bool then
              venue ← item "venue" result; Return (Dict.set "venue" venue fields)
            else Return fields);
  has_doi ← has "doi" result;
  fields ← (if has_doi : bool then
              doi ← item "doi" result; Return (Dict.set "doi" doi fields)
            else Return fields);
  Return fields.

End Extract.
End Dblp.

(** ** The URL check ([url_check.py]) *)
Module UrlCheck.
Import PyStr.
Local Open Scope list_scope.

(** The calls [check_url] makes on the session. *)
Inductive call :=
  | Head (url : string)
  | Get (url : string)
  | Close.

Section Check.
(** The state of the network, and the exceptions (instances of
    [Exception]) that a call on the session raises, with the [isinstance]
    tests against the classes of [requests.exceptions] and with [str]. *)
Context {W E : Type}.
Variables is_timeout is_ssl_error is_connection_error is_request_exception : E -> bool.
Variable str_of_exception : E -> string.

(** The test that tells a DNS failure from another connection error. *)
Definition dns_message (e : E) : bool :=
  contains "Name or service not known" (str_of_exception e)
  || contains "getaddrinfo failed" (str_of_exception e).

Definition classify_request_exception (e : E) : string :=
  if is_timeout e then "timeout"
  else if is_connection_error e then
    if dns_message e then "dns" else "connection_error"
  else if is_ssl_error e then "ssl"
  else if is_request_exception e then "request_error"
  else "unknown_error".

(** [session.head] and [session.get] raise or return a response, of which
    the status code is read; [response.close()] may raise. *)
Variable session_head : string -> W -> (E + Z) * W.
Variable session_get : string -> W -> (E + Z) * W.
Variable response_close : W -> option E * W.

Record session := Session { session_world : W; session_log : list call }.

(** [f"HTTP {status}"] *)
Definition http_detail (status : Z) : string := "HTTP " +:+ pretty status.

(** [200 <= status < 400] *)
Definition valid_status (status : Z) : bool := ((200 <=? status) && (status <? 400))%Z.

(** The [GET] fallback, with its own handler of every exception. *)
Definition get_fallback (url : string) (st : session) : (bool * string) * session :=
  let '(got, w) := session_get url (session_world st) in
  let st := Session w (session_log st ++ [Get url]) in
  match got with
  | inl e => ((false, classify_request_exception e), st)
  | inr status =>
      let '(closed, w) := response_close (session_world st) in
      let st := Session w (session_log st ++ [Close]) in
      match closed with
      | Some e => ((false, classify_request_exception e), st)
      | None =>
          if valid_status status then ((true, http_detail status), st)
          else ((false, http_detail status), st)
      end
  end.

(** The handlers of the outer [try], in the order of the [except]
    clauses. *)
Definition on_head_exception (e : E) : bool * string :=
  if is_timeout e then (false, "timeout")
  else if is_ssl_error e then (false, "ssl")
  else if is_connection_error e then
    if dns_message e then (false, "dns") else (false, "connection_error")
  else if is_request_exception e then (false, classify_request_exception e)
  else (false, "unknown_error").

Definition check_url (url : string) (st : session) : (bool * string) * session :=
  if negb (nonempty url) then ((false, "empty_url"), st)
  else if negb (String.prefix "http://" url || String.prefix "https://" url)
  then ((false, "invalid_scheme"), st)
  else
    let '(got, w) := session_head url (session_world st) in
    let st := Session w (session_log st ++ [Head url]) in
    match got with
    | inl e => (on_head_exception e, st)
    | inr status =>
        if valid_status status then ((true, http_detail status), st)
        else if bool_decide (status = 405%Z) || bool_decide (status = 403%Z)
        then get_fallback url st
        else ((false, http_detail status), st)
    end.

End Check.
End UrlCheck.


(** * Properties *)

(** ** Strings *)
Module PyStrFacts.
Import PyStr.

(** A property of every character, checked on the 256 code points. *)
Ltac each_char c :=
  destruct c as [[] [] [] [] [] [] [] []]; vm_compute; try reflexivity; try discriminate; auto.

Lemma all_app p s t : all_chars p (s +:+ t) = all_chars p s && all_chars p t.
Proof. induction s as [|c s IH]; simpl; [reflexivity|]. rewrite IH, andb_assoc. reflexivity. Qed.

Lemma all_impl (p q : ascii -> bool) s :
  (forall c, p c = true -> q c = true) -> all_chars p s = true -> all_chars q s = true.
Proof.
  intros Hpq. induction s as [|c s IH]; simpl; [reflexivity|].
  intros [Hc Hs]%andb_true_iff. rewrite (Hpq _ Hc), (IH Hs). reflexivity.
Qed.

Lemma map_fixed f s :
  all_chars (fun c => bool_decide (f c = c)) s = true -> map_chars f s = s.
Proof.
  induction s as [|c s IH]; simpl; [reflexivity|].
  intros [Hc Hs]%andb_true_iff. apply bool_decide_eq_true in Hc.
  rewrite Hc, (IH Hs). reflexivity.
Qed.

Lemma filter_all p s : all_chars p s = true -> filter_chars p s = s.
Proof.
  induction s as [|c s IH]; simpl; [reflexivity|].
  intros [Hc Hs]%andb_true_iff. rewrite Hc, (IH Hs). reflexivity.
Qed.

Lemma all_map p f s : all_chars p (map_chars f s) = all_chars (fun c => p (f c)) s.
Proof. induction s as [|c s IH]; simpl; [reflexivity|]. rewrite IH. reflexivity. Qed.

Lemma all_true p s : (forall c, p c = true) -> all_chars p s = true.
Proof. intros Hp. induction s as [|c s IH]; simpl; [reflexivity|]. rewrite Hp, IH. reflexivity. Qed.

Lemma append_cons c s t : String c s +:+ t = String c (s +:+ t).
Proof. reflexivity. Qed.

Lemma append_nil_r s : s +:+ "" = s.
Proof. induction s as [|c s IH]; [reflexivity|]. rewrite append_cons, IH. reflexivity. Qed.

Lemma append_assoc s t u : (s +:+ t) +:+ u = s +:+ (t +:+ u).
Proof. induction s as [|c s IH]; [reflexivity|]. rewrite !append_cons, IH. reflexivity. Qed.

(** Reading a word that has no whitespace only grows the current run. *)
Lemma split_ws_go_word cur w s :
  all_chars (fun c => negb (isspace c)) w = true ->
  split_ws_go cur (w +:+ s) = split_ws_go (cur +:+ w) s.
Proof.
  revert cur; induction w as [|c w IH]; simpl; intros cur.
  - rewrite append_nil_r. reflexivity.
  - intros [Hc Hw]%andb_true_iff. apply negb_true_iff in Hc. rewrite Hc.
    rewrite IH by assumption. rewrite append_assoc. reflexivity.
Qed.

Lemma split_ws_go_space cur s :
  nonempty cur = true -> split_ws_go cur (String " " s) = cur :: split_ws_go "" s.
Proof. intros Hne. simpl. rewrite Hne. reflexivity. Qed.

(** Splitting what [join] made of words gives the words back. *)
Lemma split_ws_join ws :
  Forall (fun w => nonempty w = true /\ all_chars (fun c => negb (isspace c)) w = true) ws ->
  split_ws (join " " ws) = ws.
Proof.
  unfold split_ws, join. induction 1 as [|w ws [Hne Hw] Hws IH]; [reflexivity|].
  destruct ws as [|w' ws].
  - simpl. rewrite <- (append_nil_r w) at 1. rewrite split_ws_go_word by assumption.
    change ("" +:+ w) with w. simpl. rewrite Hne. reflexivity.
  - change (String.concat " " (w :: w' :: ws))
      with (w +:+ String " " (String.concat " " (w' :: ws))).
    rewrite split_ws_go_word by assumption.
    change ("" +:+ w) with w. rewrite split_ws_go_space by assumption.
    rewrite IH. reflexivity.
Qed.

(** The runs that [split] on whitespace returns are non-empty and made of
    the non-whitespace characters read. *)
Lemma split_ws_go_words (p : ascii -> bool) cur s :
  all_chars p cur = true ->
  all_chars (fun c => isspace c || p c) s = true ->
  Forall (fun w => nonempty w = true /\ all_chars p w = true) (split_ws_go cur s).
Proof.
  revert cur; induction s as [|c s IH]; simpl; intros cur Hcur Hs.
  - destruct (nonempty cur) eqn:E; auto.
  - apply andb_true_iff in Hs as [Hc Hs]. destruct (isspace c) eqn:Ec.
    + destruct (nonempty cur) eqn:E; [constructor; [auto|]|]; apply IH; auto.
    + apply IH; [|assumption]. rewrite all_app. simpl in *. rewrite Hcur, Hc. reflexivity.
Qed.

End PyStrFacts.

(** ** [normalize_string] *)
Module NormalizeFacts.
Import PyStr PyStrFacts Normalize.

(** A character of a normalised word: matched by [\w] and left alone by
    [str.lower]. *)
Definition lower_word_char (c : ascii) : bool :=
  isword c && bool_decide (lower_char c = c).

(** The characters the specification allows in the output: a space, or an
    alphanumeric character left alone by [str.lower]. *)
Definition lower_alnum_or_space (c : ascii) : bool :=
  bool_decide (c = " "%char) || (isalnum c && bool_decide (lower_char c = c)).

Definition not_rbrace (c : ascii) : bool := negb (bool_decide (c = rbrace)).

Lemma span_stop p s c t :
  all_chars p s = true -> p c = false -> span p (s +:+ String c t) = (s, String c t).
Proof.
  intros Hs Hc. induction s as [|d s IH].
  - simpl. rewrite Hc. reflexivity.
  - simpl in Hs. apply andb_true_iff in Hs as [Hd Hs].
    rewrite append_cons. simpl. rewrite Hd, (IH Hs). reflexivity.
Qed.

Lemma match_command_wrapper name content rest :
  nonempty name = true -> all_chars isletter name = true -> all_chars not_rbrace content = true ->
  match_command (name +:+ String lbrace (content +:+ String rbrace rest))
  = Some (content, rest).
Proof.
  intros Hne Hname Hcontent. unfold match_command.
  rewrite (span_stop isletter) by (assumption || reflexivity).
  rewrite Hne. rewrite decide_True by reflexivity.
  change (fun c => negb (bool_decide (c = rbrace))) with not_rbrace.
  rewrite (span_stop not_rbrace) by (assumption || reflexivity).
  reflexivity.
Qed.

(** One step of the scan. *)
Lemma sub_command_cons c s :
  sub_command (String c s) =
  if decide (c = backslash) then
    match match_command s with
    | Some (content, rest) => content +:+ sub_command rest
    | None => String c (sub_command s)
    end
  else String c (sub_command s).
Proof.
  simp sub_command. destruct (decide (c = backslash)) as [->|Hc]; simpl; [|reflexivity].
  destruct (inspect (match_command s)) as [[[content rest]|] H]; simpl; rewrite H; reflexivity.
Qed.

Lemma sub_command_wrapper name content rest :
  nonempty name = true -> all_chars isletter name = true -> all_chars not_rbrace content = true ->
  sub_command (String backslash (name +:+ String lbrace (content +:+ String rbrace rest)))
  = content +:+ sub_command rest.
Proof.
  intros Hne Hname Hcontent. rewrite sub_command_cons.
  rewrite decide_True by reflexivity.
  rewrite match_command_wrapper by assumption. reflexivity.
Qed.

(** Text without a backslash has no command. *)
Lemma sub_command_plain s :
  all_chars (fun c => negb (bool_decide (c = backslash))) s = true -> sub_command s = s.
Proof.
  induction s as [|c s IH]; [reflexivity|]. simpl.
  intros [Hc Hs]%andb_true_iff. rewrite sub_command_cons.
  apply negb_true_iff, bool_decide_eq_false in Hc.
  rewrite decide_False by assumption. rewrite (IH Hs). reflexivity.
Qed.

(** The guard on the empty string changes nothing: the pipeline maps the
    empty string to itself. *)
Lemma normalize_string_pipeline s :
  normalize_string (Some s)
  = join " " (split_ws (sub_nonword (lower (sub_braces (sub_command s))))).
Proof. destruct s; reflexivity. Qed.

Lemma lower_word_char_of c :
  let d := lower_char c in
  (isspace (if isword d || isspace d then d else " "%char)
   || lower_word_char (if isword d || isspace d then d else " "%char)) = true.
Proof. each_char c. Qed.

Lemma lower_word_char_props c :
  lower_word_char c = true ->
  negb (isspace c) = true /\ c <> backslash /\ c <> lbrace /\ c <> rbrace
  /\ lower_char c = c /\ isword c = true.
Proof. each_char c; repeat split; discriminate. Qed.

Lemma all_join p ws :
  p " "%char = true -> Forall (fun w => all_chars p w = true) ws -> all_chars p (join " " ws) = true.
Proof.
  intros Hsp. unfold join. induction 1 as [|w ws Hw Hws IH]; [reflexivity|].
  destruct ws as [|w' ws]; [assumption|].
  change (String.concat " " (w :: w' :: ws))
    with (w +:+ String " " (String.concat " " (w' :: ws))).
  rewrite all_app. cbn [all_chars]. rewrite Hw, Hsp, IH. reflexivity.
Qed.

(** The words of a normalised string. *)
Lemma normalize_string_words_of s :
  exists ws, normalize_string s = join " " ws
    /\ Forall (fun w => nonempty w = true /\ all_chars lower_word_char w = true) ws.
Proof.
  destruct s as [s|]; [|exists []; split; [reflexivity|constructor]].
  rewrite normalize_string_pipeline. eexists; split; [reflexivity|].
  apply split_ws_go_words; [reflexivity|].
  unfold sub_nonword, lower. rewrite !all_map. apply all_true.
  intros c. apply lower_word_char_of.
Qed.

(** Normalising the join of normalised words changes nothing. *)
Lemma normalize_string_join ws :
  Forall (fun w => nonempty w = true /\ all_chars lower_word_char w = true) ws ->
  normalize_string (Some (join " " ws)) = join " " ws.
Proof.
  intros Hws. rewrite normalize_string_pipeline.
  assert (Hall : all_chars (fun c => bool_decide (c = " "%char) || lower_word_char c) (join " " ws) = true).
  { apply all_join; [reflexivity|]. eapply Forall_impl; [exact Hws|].
    intros w [_ Hw]. simpl. eapply all_impl; [|exact Hw].
    intros c Hc. rewrite Hc. apply orb_true_r. }
  assert (Hchar : forall c, (bool_decide (c = " "%char) || lower_word_char c) = true ->
             c <> backslash /\ c <> lbrace /\ c <> rbrace /\ lower_char c = c
             /\ (isword c || isspace c) = true).
  { intros c [->%bool_decide_eq_true|Hc]%orb_true_iff.
    - repeat split; discriminate.
    - apply lower_word_char_props in Hc as (_ & ? & ? & ? & ? & Hw).
      rewrite Hw. repeat split; assumption. }
  rewrite sub_command_plain.
  2:{ eapply all_impl; [|exact Hall]. intros c Hc. apply Hchar in Hc as (? & _).
      apply negb_true_iff, bool_decide_eq_false. assumption. }
  unfold sub_braces. rewrite filter_all.
  2:{ eapply all_impl; [|exact Hall]. intros c Hc. apply Hchar in Hc as (_ & ? & ? & _).
      rewrite !bool_decide_eq_false_2 by assumption. reflexivity. }
  unfold lower. rewrite map_fixed.
  2:{ eapply all_impl; [|exact Hall]. intros c Hc. apply Hchar in Hc as (_ & _ & _ & ? & _).
      apply bool_decide_eq_true. assumption. }
  unfold sub_nonword. rewrite map_fixed.
  2:{ eapply all_impl; [|exact Hall]. intros c Hc. apply Hchar in Hc as (_ & _ & _ & _ & Hw).
      rewrite Hw. apply bool_decide_eq_true. reflexivity. }
  rewrite split_ws_join; [reflexivity|].
  eapply Forall_impl; [exact Hws|]. intros w [Hne Hw]. split; [assumption|].
  eapply all_impl; [|exact Hw]. intros c Hc. apply lower_word_char_props in Hc as [? _].
  assumption.
Qed.

(** C7, amended. [normalize_string] maps [None] and the empty string to
    the empty string, and any other string through the pipeline: commands
    with a braced argument collapsed to the argument, braces deleted,
    lower-cased, every character that is neither a word character nor
    whitespace turned into a space, then split on whitespace and joined by
    single spaces. Its output is made of non-empty words separated by
    single spaces, and every character of a word is a lower-case word
    character: alphanumeric or an underscore. *)
Theorem normalize_string_shape :
  normalize_string None = ""
  /\ normalize_string (Some "") = ""
  /\ (forall s, normalize_string (Some s)
               = join " " (split_ws (sub_nonword (lower (sub_braces (sub_command s))))))
  /\ (forall name content rest,
        nonempty name = true -> all_chars isletter name = true ->
        all_chars not_rbrace content = true ->
        sub_command (String backslash
                       (name +:+ String lbrace (content +:+ String rbrace rest)))
        = content +:+ sub_command rest)
  /\ (forall s, exists ws,
        normalize_string s = join " " ws
        /\ Forall (fun w => nonempty w = true /\ all_chars lower_word_char w = true) ws)
  /\ (forall c, lower_word_char c = true ->
        (isalnum c = true \/ c = "_"%char) /\ lower_char c = c /\ isspace c = false).
Proof.
  split; [reflexivity|]. split; [reflexivity|].
  split; [exact normalize_string_pipeline|].
  split; [exact sub_command_wrapper|].
  split; [exact normalize_string_words_of|].
  intros c. each_char c.
Qed.

(** C7 as stated fails: an underscore is a word character, so it stays,
    and the output of [normalize_string] on [a_b] has a character that is
    neither a space nor alphanumeric. *)
Lemma normalize_string_keeps_underscore :
  ~ (forall s, all_chars lower_alnum_or_space (normalize_string s) = true).
Proof. intros H. specialize (H (Some "a_b")). vm_compute in H. discriminate. Qed.

(** C8. [normalize_string] is idempotent. *)
Theorem normalize_string_idempotent (s : option string) :
  normalize_string (Some (normalize_string s)) = normalize_string s.
Proof.
  destruct (normalize_string_words_of s) as (ws & -> & Hws).
  apply normalize_string_join. assumption.
Qed.

End NormalizeFacts.

(** ** [SequenceMatcher] on two equal sequences *)
Module DifflibFacts.
Import Difflib.
Local Open Scope nat_scope.
Local Open Scope list_scope.

Section Same.
Context {A : Type} `{EqDecision A}.
Variable a : list A.

(** The length of the run of unpopular elements that ends at position [i]
    of [a], and of the run that ends just before [i]. *)
Fixpoint run (i : nat) : nat :=
  match a !! i with
  | Some x =>
      if popular a x then 0
      else S (match i with O => 0 | S i' => run i' end)
  | None => 0
  end.

Definition run_before (i : nat) : nat :=
  match i with O => 0 | S i' => run i' end.

Lemma run_unfold i :
  run i = match a !! i with
          | Some x => if popular a x then 0 else S (run_before i)
          | None => 0
          end.
Proof. destruct i; reflexivity. Qed.

Lemma run_le i : run i <= S i.
Proof.
  induction i as [|i IH]; rewrite run_unfold; simpl;
    destruct (a !! _) as [x|]; try destruct (popular a x); lia.
Qed.

(** The positions of an element of [a]: those below [i], [i] itself, those
    above. *)
Lemma indices_split i x :
  a !! i = Some x ->
  exists js1 js2,
    indices a x = js1 ++ i :: js2
    /\ Forall (fun j => j < i /\ a !! j = Some x) js1
    /\ Forall (fun j => i < j /\ j < length a /\ a !! j = Some x) js2.
Proof.
  intros Hi. pose proof (lookup_lt_Some _ _ _ Hi) as Hlt.
  exists (filter (fun j => a !! j = Some x) (seq 0 i)),
         (filter (fun j => a !! j = Some x) (seq (S i) (length a - S i))).
  split; [|split].
  - unfold indices.
    replace (length a) with (i + S (length a - S i)) at 1 by lia.
    rewrite seq_app, filter_app. simpl. rewrite filter_cons_True by assumption.
    reflexivity.
  - apply Forall_forall. intros j [Hj Hin%elem_of_seq]%list_elem_of_filter.
    split; [lia|assumption].
  - apply Forall_forall. intros j [Hj Hin%elem_of_seq]%list_elem_of_filter.
    split; [lia|]. split; [lia|assumption].
Qed.

(** The row of [j2len] that [match_row] builds, and the best match it
    keeps, when no position is skipped. *)
Definition row_entry (j2len : gmap nat nat) (j : nat) : nat := j2len_get j2len j + 1.

Definition row_insert (j2len : gmap nat nat) (newj2len : gmap nat nat) (j : nat) :=
  <[j := row_entry j2len j]> newj2len.

Lemma match_row_app i bhi j2len js1 js2 newj2len best :
  Forall (fun j => j < bhi) js1 ->
  match_row i 0 bhi j2len (js1 ++ js2) newj2len best
  = let '(newj2len', best') := match_row i 0 bhi j2len js1 newj2len best in
    match_row i 0 bhi j2len js2 newj2len' best'.
Proof.
  intros Hjs; revert newj2len best.
  induction Hjs as [|j js1 Hj Hjs IH]; intros newj2len best; simpl.
  - reflexivity.
  - destruct (bhi <=? j) eqn:E; [apply Nat.leb_le in E; lia|]. apply IH.
Qed.

(** Positions whose entry does not beat the best match leave it alone. *)
Lemma match_row_keep i bhi j2len js newj2len best :
  Forall (fun j => j < bhi /\ row_entry j2len j <= block_size best) js ->
  match_row i 0 bhi j2len js newj2len best
  = (foldl (row_insert j2len) newj2len js, best).
Proof.
  intros Hjs; revert newj2len.
  induction Hjs as [|j js [Hj Hk] Hjs IH]; intros newj2len; simpl.
  - reflexivity.
  - destruct (bhi <=? j) eqn:E; [apply Nat.leb_le in E; lia|].
    fold (row_entry j2len j).
    destruct (block_size best <? row_entry j2len j) eqn:E'; [apply Nat.ltb_lt in E'; lia|].
    apply IH.
Qed.

Lemma lookup_row j2len js newj2len j :
  foldl (row_insert j2len) newj2len js !! j
  = if bool_decide (j ∈ js) then Some (row_entry j2len j) else newj2len !! j.
Proof.
  revert newj2len; induction js as [|j' js IH]; intros newj2len; simpl.
  - reflexivity.
  - rewrite IH. unfold row_insert.
    destruct (decide (j = j')) as [->|Hne].
    + rewrite lookup_insert_eq. rewrite (bool_decide_eq_true_2 (j' ∈ j' :: js)) by left.
      destruct (bool_decide (j' ∈ js)); reflexivity.
    + rewrite lookup_insert_ne by congruence.
      destruct (decide (j ∈ js)) as [Hin|Hin].
      * rewrite !bool_decide_eq_true_2; [reflexivity|right; assumption|assumption].
      * rewrite !bool_decide_eq_false_2; [reflexivity| |assumption].
        intros [?|?]%elem_of_cons; contradiction.
Qed.

(** What holds of the row [j2len] read while row [i] is built: its entry
    before [i] is the run that ends there, and no entry is longer than the
    run that ends at its own position or than that one. *)
Definition row_ok (i : nat) (j2len : gmap nat nat) : Prop :=
  j2len_get j2len i = run_before i
  /\ forall j k, j2len !! j = Some k -> k <= run j /\ k <= run_before i.

(** What holds of the best match before row [i]: it lies on the diagonal,
    ends before [i], and is as long as every run that ends before [i]. *)
Definition best_ok (i : nat) (best : block) : Prop :=
  best.1.1 = best.1.2
  /\ best.1.1 + block_size best <= i
  /\ forall r, r < i -> run r <= block_size best.

Lemma row_entry_le i x j2len j :
  row_ok i j2len -> a !! i = Some x -> popular a x = false -> a !! j = Some x ->
  row_entry j2len j <= run j /\ row_entry j2len j <= run i.
Proof.
  intros [_ Hrow] Hi Hx Hj. rewrite (run_unfold j), (run_unfold i), Hi, Hj, Hx.
  unfold row_entry. destruct j as [|j']; simpl; [lia|].
  destruct (j2len !! j') as [k|] eqn:E; simpl; [|lia].
  destruct (Hrow _ _ E). lia.
Qed.

Lemma row_entry_diag i x j2len :
  row_ok i j2len -> a !! i = Some x -> popular a x = false ->
  row_entry j2len i = run i.
Proof.
  intros [Hd _] Hi Hx. rewrite (run_unfold i), Hi, Hx. unfold row_entry. lia.
Qed.

(** One row keeps the two invariants. *)
Lemma match_row_same i x j2len best :
  a !! i = Some x -> row_ok i j2len -> best_ok i best ->
  row_ok (S i) (match_row i 0 (length a) j2len (b2j_get a x) ∅ best).1
  /\ best_ok (S i) (match_row i 0 (length a) j2len (b2j_get a x) ∅ best).2.
Proof.
  intros Hi Hrow Hbest. pose proof (lookup_lt_Some _ _ _ Hi) as Hlt.
  destruct Hbest as (Hdiag & Hend & Hruns).
  unfold b2j_get. destruct (popular a x) eqn:Hx; simpl.
  - (* a popular element has no positions: the row is empty *)
    assert (Hrun : run i = 0) by (rewrite run_unfold, Hi, Hx; reflexivity).
    split; [split|split; [|split]].
    + simpl. rewrite lookup_empty. simpl. symmetry; exact Hrun.
    + intros j k Hk. rewrite lookup_empty in Hk. discriminate.
    + assumption.
    + lia.
    + intros r Hr. destruct (decide (r = i)) as [->|]; [lia|]. apply Hruns. lia.
  - destruct (indices_split i x Hi) as (js1 & js2 & Hjs & Hjs1 & Hjs2).
    assert (Hmem : forall j, j ∈ js1 ++ i :: js2 -> a !! j = Some x).
    { intros j [Hj|[->|Hj]%elem_of_cons]%elem_of_app; [|assumption|].
      - rewrite Forall_forall in Hjs1. apply (Hjs1 j Hj).
      - rewrite Forall_forall in Hjs2. apply (Hjs2 j Hj). }
    pose proof (row_entry_diag i x j2len Hrow Hi Hx) as Hki.
    pose proof (run_le i) as Hle.
    rewrite Hjs. rewrite match_row_app.
    2:{ eapply Forall_impl; [exact Hjs1|]. simpl. intros j [? _]. lia. }
    rewrite match_row_keep.
    2:{ eapply Forall_impl; [exact Hjs1|]. simpl. intros j [Hj Haj].
        split; [lia|]. destruct (row_entry_le i x j2len j Hrow Hi Hx Haj) as [H1 _].
        specialize (Hruns j Hj). lia. }
    simpl. destruct (length a <=? i) eqn:E; [apply Nat.leb_le in E; lia|].
    fold (row_entry j2len i). fold (row_insert j2len (foldl (row_insert j2len) ∅ js1) i).
    set (best' := if block_size best <? row_entry j2len i
                  then (i + 1 - row_entry j2len i, i + 1 - row_entry j2len i, row_entry j2len i)
                  else best).
    assert (Hbest' : best'.1.1 = best'.1.2 /\ best'.1.1 + block_size best' <= S i
                     /\ run i <= block_size best'
                     /\ block_size best <= block_size best').
    { subst best'. destruct (block_size best <? row_entry j2len i) eqn:E';
        [apply Nat.ltb_lt in E'|apply Nat.ltb_ge in E']; simpl; unfold block_size in *;
        simpl; repeat split; lia. }
    destruct Hbest' as (Hdiag' & Hend' & Hrun' & Hgrow).
    rewrite match_row_keep.
    2:{ eapply Forall_impl; [exact Hjs2|]. simpl. intros j (Hj & Hjn & Haj).
        split; [lia|]. destruct (row_entry_le i x j2len j Hrow Hi Hx Haj) as [_ H2]. lia. }
    simpl. split; [split|split; [|split]].
    + simpl.
      change (foldl (row_insert j2len) (row_insert j2len (foldl (row_insert j2len) ∅ js1) i) js2)
        with (foldl (row_insert j2len) (foldl (row_insert j2len) ∅ js1) (i :: js2)).
      rewrite <- foldl_app. rewrite lookup_row.
      rewrite bool_decide_eq_true_2 by (apply elem_of_app; right; left).
      simpl. exact Hki.
    + intros j k.
      change (foldl (row_insert j2len) (row_insert j2len (foldl (row_insert j2len) ∅ js1) i) js2)
        with (foldl (row_insert j2len) (foldl (row_insert j2len) ∅ js1) (i :: js2)).
      rewrite <- foldl_app. rewrite lookup_row.
      destruct (decide (j ∈ js1 ++ i :: js2)) as [Hin|Hin].
      * rewrite bool_decide_eq_true_2 by assumption. intros [= <-].
        simpl. apply (row_entry_le i x); auto.
      * rewrite bool_decide_eq_false_2 by assumption. rewrite lookup_empty. discriminate.
    + assumption.
    + assumption.
    + intros r Hr. destruct (decide (r = i)) as [->|]; [lia|].
      specialize (Hruns r). lia.
Qed.

(** The loop over the rows ends with a best match on the diagonal. *)
Lemma match_rows_same m : forall i j2len best,
  i + m = length a -> row_ok i j2len -> best_ok i best ->
  best_ok (length a) (match_rows a a 0 (length a) (seq i m) j2len best).
Proof.
  induction m as [|m IH]; intros i j2len best Hm Hrow Hbest; simpl.
  - replace (length a) with i by lia. assumption.
  - destruct (lookup_lt_is_Some_2 a i) as [x Hx]; [lia|]. rewrite Hx.
    destruct (match_row_same i x j2len best Hx Hrow Hbest) as [Hrow' Hbest'].
    destruct (match_row i 0 (length a) j2len (b2j_get a x) ∅ best) as [newj2len best'].
    apply IH; [lia|assumption|assumption].
Qed.

Lemma extend_down_same d k :
  d <= length a -> extend_down a a false 0 0 d d k = (0, 0, d + k).
Proof.
  revert k; induction d as [|d IH]; intros k Hd; simpl; [reflexivity|].
  destruct (lookup_lt_is_Some_2 a d) as [x Hx]; [lia|].
  unfold junk_at, same_at. rewrite Hx. simpl.
  rewrite bool_decide_eq_true_2 by reflexivity.
  rewrite IH by lia. f_equal. lia.
Qed.

Lemma extend_up_same m k :
  k + m = length a -> extend_up a a false (length a) (length a) m 0 0 k = (0, 0, length a).
Proof.
  revert k; induction m as [|m IH]; intros k Hk; simpl.
  - f_equal. lia.
  - destruct (lookup_lt_is_Some_2 a k) as [x Hx]; [lia|].
    unfold junk_at, same_at. rewrite Hx. simpl.
    rewrite bool_decide_eq_true_2 by reflexivity.
    destruct (k <? length a) eqn:E; [|apply Nat.ltb_ge in E; lia]. simpl.
    apply IH. lia.
Qed.

(** The longest match of a sequence with itself is the whole sequence. *)
Lemma find_longest_match_same :
  find_longest_match a a 0 (length a) 0 (length a) = (0, 0, length a).
Proof.
  unfold find_longest_match. rewrite Nat.sub_0_r.
  pose proof (match_rows_same (length a) 0 ∅ (0, 0, 0)) as Hbest.
  destruct Hbest as (Hdiag & Hend & _).
  { reflexivity. }
  { split; [reflexivity|]. intros j k Hk. rewrite lookup_empty in Hk. discriminate. }
  { split; [reflexivity|]. split; [simpl; lia|]. intros r Hr. lia. }
  destruct (match_rows a a 0 (length a) (seq 0 (length a)) ∅ (0, 0, 0)) as [[d d'] k].
  simpl in Hdiag, Hend. subst d'. unfold block_size in Hend. simpl in Hend.
  unfold extend at 2. rewrite extend_down_same by lia.
  rewrite extend_up_same by lia.
  unfold extend. simpl. rewrite Nat.sub_diag. reflexivity.
Qed.

Lemma blocks_loop_done (b : list A) fuel matching_blocks :
  blocks_loop a b fuel [] matching_blocks = matching_blocks.
Proof. destruct fuel; reflexivity. Qed.

(** The matching blocks of a sequence with itself: the whole sequence, if
    it is not empty, and the closing dummy. *)
Lemma get_matching_blocks_same :
  get_matching_blocks a a
  = (if 0 <? length a then [(0, 0, length a)] else []) ++ [(length a, length a, 0)].
Proof.
  unfold get_matching_blocks. f_equal.
  replace (2 * length a + 1) with (S (2 * length a)) by lia.
  simpl blocks_loop. rewrite find_longest_match_same.
  rewrite Nat.ltb_irrefl. simpl.
  replace (length a <? length a) with false by (symmetry; apply Nat.ltb_irrefl).
  destruct (0 <? length a) eqn:E; rewrite blocks_loop_done; simpl.
  - rewrite E. reflexivity.
  - reflexivity.
Qed.

Lemma ratio_same : ratio a a = 1%Qc.
Proof.
  unfold ratio. rewrite get_matching_blocks_same.
  destruct (0 <? length a) eqn:E.
  - apply Nat.ltb_lt in E. simpl. unfold block_size. simpl.
    unfold calculate_ratio. destruct (length a + length a) eqn:E'; [reflexivity|].
    rewrite <- E'. replace (2 * (length a + 0)) with (length a + length a) by lia.
    apply Qcmult_inv_r. intros Hz.
    apply (f_equal (fun q => Qnum (this q))) in Hz. simpl in Hz. lia.
  - apply Nat.ltb_ge in E. assert (Hz : length a = 0) by lia. rewrite Hz. reflexivity.
Qed.

End Same.
End DifflibFacts.

(** ** [get_matching_blocks] ends before its fuel does *)
Module DifflibTermination.
Import Difflib.
Local Open Scope nat_scope.
Local Open Scope list_scope.

Section Bounds.
Context {A : Type} `{EqDecision A}.
Variables a b : list A.

(** A best match that lies in [a[alo:hi]]. *)
Definition within (alo hi : nat) (best : block) : Prop :=
  alo <= best.1.1 /\ best.1.1 + block_size best <= hi.

(** A row whose entries are at most [n]. *)
Definition row_le (n : nat) (j2len : gmap nat nat) : Prop :=
  forall j k, j2len !! j = Some k -> k <= n.

Lemma match_row_bounds alo i blo bhi j2len js : forall newj2len best,
  alo <= i -> row_le (i - alo) j2len -> row_le (S i - alo) newj2len ->
  within alo (S i) best ->
  row_le (S i - alo) (match_row i blo bhi j2len js newj2len best).1
  /\ within alo (S i) (match_row i blo bhi j2len js newj2len best).2.
Proof.
  induction js as [|j js IH]; intros newj2len best Hi Hrow Hnew Hbest; simpl.
  - auto.
  - destruct (j <? blo); [apply IH; assumption|].
    destruct (bhi <=? j); [auto|].
    assert (Hk : j2len_get j2len j + 1 <= S i - alo).
    { destruct j as [|j']; simpl; [lia|].
      destruct (j2len !! j') as [k|] eqn:E; simpl; [|lia]. specialize (Hrow _ _ E). lia. }
    apply IH; try assumption.
    + intros j0 k. destruct (decide (j0 = j)) as [->|Hne].
      * rewrite lookup_insert_eq. intros [= <-]. assumption.
      * rewrite lookup_insert_ne by congruence. apply Hnew.
    + destruct (block_size best <? j2len_get j2len j + 1); [|assumption].
      unfold within, block_size. simpl. lia.
Qed.

Lemma match_rows_bounds alo blo bhi m : forall i j2len best,
  alo <= i -> row_le (i - alo) j2len -> within alo i best ->
  within alo (i + m) (match_rows a b blo bhi (seq i m) j2len best).
Proof.
  induction m as [|m IH]; intros i j2len best Hi Hrow Hbest; simpl.
  - rewrite Nat.add_0_r. assumption.
  - assert (Hbest' : within alo (S i) best) by (destruct Hbest; split; lia).
    destruct (a !! i) as [x|]; [|destruct Hbest; split; lia].
    destruct (match_row_bounds alo i blo bhi j2len (b2j_get b x) ∅ best) as [Hrow1 Hbest1];
      try assumption.
    { intros j k Hk. rewrite lookup_empty in Hk. discriminate. }
    destruct (match_row i blo bhi j2len (b2j_get b x) ∅ best) as [newj2len best1].
    replace (i + S m) with (S i + m) by lia. apply IH; [lia|assumption|assumption].
Qed.

Lemma extend_down_bounds junk alo blo hi besti : forall bestj bestsize,
  within alo hi (besti, bestj, bestsize) ->
  within alo hi (extend_down a b junk alo blo besti bestj bestsize).
Proof.
  induction besti as [|i' IH]; intros bestj bestsize Hbest; simpl; [assumption|].
  destruct bestj as [|j']; [assumption|].
  destruct ((alo <? S i') && (blo <? S j') && junk_at b junk j' && same_at a b i' j') eqn:E;
    [|assumption].
  apply IH. apply andb_true_iff in E as [E _]. apply andb_true_iff in E as [E _].
  apply andb_true_iff in E as [E _]. apply Nat.ltb_lt in E.
  destruct Hbest as [Hlo Hhi]. unfold within, block_size in *. simpl in *. lia.
Qed.

Lemma extend_up_bounds junk alo ahi bhi n besti bestj : forall bestsize,
  within alo ahi (besti, bestj, bestsize) ->
  within alo ahi (extend_up a b junk ahi bhi n besti bestj bestsize).
Proof.
  induction n as [|n IH]; intros bestsize Hbest; simpl; [assumption|].
  destruct ((besti + bestsize <? ahi) && (bestj + bestsize <? bhi)
            && junk_at b junk (bestj + bestsize)
            && same_at a b (besti + bestsize) (bestj + bestsize)) eqn:E; [|assumption].
  apply IH. apply andb_true_iff in E as [E _]. apply andb_true_iff in E as [E _].
  apply andb_true_iff in E as [E _]. apply Nat.ltb_lt in E.
  destruct Hbest as [Hlo Hhi]. unfold within, block_size in *. simpl in *. lia.
Qed.

Lemma extend_bounds junk alo ahi blo bhi best :
  within alo ahi best -> within alo ahi (extend a b junk alo ahi blo bhi best).
Proof.
  intros Hbest. destruct best as [[besti bestj] bestsize]. unfold extend.
  pose proof (extend_down_bounds junk alo blo ahi besti bestj bestsize Hbest) as Hdown.
  destruct (extend_down a b junk alo blo besti bestj bestsize) as [[i j] k].
  apply extend_up_bounds. assumption.
Qed.

(** The match that [find_longest_match] returns lies in the range of [a]
    it was asked about. *)
Lemma find_longest_match_bounds alo ahi blo bhi :
  alo <= ahi -> within alo ahi (find_longest_match a b alo ahi blo bhi).
Proof.
  intros Hle. unfold find_longest_match. apply extend_bounds, extend_bounds.
  pose proof (match_rows_bounds alo blo bhi (ahi - alo) alo ∅ (alo, blo, 0)) as Hrows.
  replace (alo + (ahi - alo)) with ahi in Hrows by lia.
  apply Hrows; [lia| |split; simpl; lia].
  intros j k Hk. rewrite lookup_empty in Hk. discriminate.
Qed.

(** The rounds a queue can still take: each range of [n] elements of [a]
    takes at most [2 * n + 1]. *)
Definition rounds (queue : list (nat * nat * nat * nat)) : nat :=
  sum_list ((fun '(alo, ahi, _, _) => 2 * (ahi - alo) + 1) <$> queue).

Definition ordered (item : nat * nat * nat * nat) : Prop :=
  let '(alo, ahi, _, _) := item in alo <= ahi.

Lemma rounds_app q1 q2 : rounds (q1 ++ q2) = rounds q1 + rounds q2.
Proof. unfold rounds. rewrite fmap_app, sum_list_with_app. reflexivity. Qed.

Lemma rounds_cons alo ahi blo bhi queue :
  rounds ((alo, ahi, blo, bhi) :: queue) = 2 * (ahi - alo) + 1 + rounds queue.
Proof. reflexivity. Qed.

(** More fuel than the rounds left changes nothing. *)
Lemma blocks_loop_fuel fuel : forall queue matching_blocks extra,
  Forall ordered queue -> rounds queue <= fuel ->
  blocks_loop a b (fuel + extra) queue matching_blocks
  = blocks_loop a b fuel queue matching_blocks.
Proof.
  induction fuel as [|fuel IH]; intros queue matching_blocks extra Hord Hfuel.
  - destruct queue as [|[[[alo ahi] blo] bhi] queue].
    + destruct extra; reflexivity.
    + rewrite rounds_cons in Hfuel. lia.
  - destruct queue as [|[[[alo ahi] blo] bhi] queue]; [reflexivity|].
    apply Forall_cons in Hord as [Hle Hord]. simpl in Hle.
    change (S fuel + extra) with (S (fuel + extra)). simpl.
    pose proof (find_longest_match_bounds alo ahi blo bhi Hle) as [Hlo Hhi].
    destruct (find_longest_match a b alo ahi blo bhi) as [[i j] k].
    unfold block_size in Hhi. simpl in Hlo, Hhi.
    rewrite rounds_cons in Hfuel.
    destruct (0 <? k) eqn:Ek; [apply Nat.ltb_lt in Ek|apply IH; [assumption|lia]].
    apply IH.
    + rewrite !Forall_app. split; [|split; [|assumption]].
      * destruct ((i + k <? ahi) && (j + k <? bhi)) eqn:E; [|constructor].
        apply andb_true_iff in E as [E _]. apply Nat.ltb_lt in E.
        constructor; [simpl; lia|constructor].
      * destruct ((alo <? i) && (blo <? j)) eqn:E; [|constructor].
        apply andb_true_iff in E as [E _]. apply Nat.ltb_lt in E.
        constructor; [simpl; lia|constructor].
    + rewrite !rounds_app.
      assert (H1 : rounds (if (i + k <? ahi) && (j + k <? bhi)
                           then [(i + k, ahi, j + k, bhi)] else []) <= 2 * (ahi - (i + k)) + 1).
      { destruct ((i + k <? ahi) && (j + k <? bhi)); [rewrite rounds_cons|];
          unfold rounds; simpl; lia. }
      assert (H2 : rounds (if (alo <? i) && (blo <? j) then [(alo, i, blo, j)] else [])
                   <= 2 * (i - alo) + 1).
      { destruct ((alo <? i) && (blo <? j)); [rewrite rounds_cons|];
          unfold rounds; simpl; lia. }
      lia.
Qed.

(** The fuel of [get_matching_blocks] is enough: the loop ends with an
    empty queue, and any larger fuel gives the same blocks. *)
Lemma get_matching_blocks_fuel extra :
  blocks_loop a b (2 * length a + 1 + extra) [(0, length a, 0, length b)] []
  = blocks_loop a b (2 * length a + 1) [(0, length a, 0, length b)] [].
Proof.
  apply blocks_loop_fuel.
  - constructor; [simpl; lia|constructor].
  - rewrite rounds_cons. unfold rounds. simpl. lia.
Qed.

End Bounds.
End DifflibTermination.

(** ** Dictionaries *)
Module DictFacts.
Import Dict.
Section Dict.
Context {V : Type}.
Implicit Types (d : dict V) (k : string) (v : V).

Lemma get_set_eq k v d : get k (set k v d) = Some v.
Proof.
  induction d as [|[k' v'] d IH]; simpl.
  - rewrite decide_True by reflexivity. reflexivity.
  - destruct (decide (k' = k)) as [->|Hne]; simpl.
    + rewrite decide_True by reflexivity. reflexivity.
    + rewrite decide_False by assumption. assumption.
Qed.

Lemma get_set_ne k k' v d : k <> k' -> get k' (set k v d) = get k' d.
Proof.
  intros Hne. induction d as [|[k0 v0] d IH]; simpl.
  - rewrite decide_False by assumption. reflexivity.
  - destruct (decide (k0 = k)) as [->|Hne0]; simpl.
    + rewrite !decide_False by assumption. reflexivity.
    + destruct (decide (k0 = k')); [reflexivity|assumption].
Qed.

Lemma set_not_nil k v d : set k v d <> [].
Proof. destruct d as [|[k' v'] d]; simpl; [discriminate|]. destruct (decide (k' = k)); discriminate. Qed.

Lemma get_elem_of k v d : get k d = Some v -> (k, v) ∈ d.
Proof.
  induction d as [|[k' v'] d IH]; simpl; [discriminate|].
  destruct (decide (k' = k)) as [->|Hne].
  - intros [= ->]. left.
  - intros Hd. right. apply IH. assumption.
Qed.

Lemma elem_of_get k v d : (k, v) ∈ d -> is_Some (get k d).
Proof.
  induction d as [|[k' v'] d IH]; simpl.
  - intros Hin. inversion Hin.
  - intros [[= <- <-]|Hin]%elem_of_cons.
    + rewrite decide_True by reflexivity. eauto.
    + destruct (decide (k' = k)); [eauto|]. apply IH. assumption.
Qed.

(** After [d[k] = v], an item of [d] is either the new one or an old
    one. *)
Lemma elem_of_set k v k' v' d :
  (k', v') ∈ set k v d -> (k' = k /\ v' = v) \/ (k', v') ∈ d.
Proof.
  induction d as [|[k0 v0] d IH]; simpl.
  - intros [[= -> ->]|Hin]%elem_of_cons; [left; auto|inversion Hin].
  - destruct (decide (k0 = k)) as [->|Hne].
    + intros [[= -> ->]|Hin]%elem_of_cons; [left; auto|right; right; assumption].
    + intros [[= -> ->]|Hin]%elem_of_cons; [right; left|].
      destruct (IH Hin) as [?|?]; [left; assumption|right; right; assumption].
Qed.

End Dict.
End DictFacts.

(** ** The validator *)
Module ValidatorFacts.
Import PyStr Dict DictFacts Validator.
Local Open Scope list_scope.

Section Run.
Context {W R : Type}.
Variable truthy_result : R -> bool.
Variable format_2f : Qc -> string.
Variable sources : gmap string (Source W R).

(** Reduces the field projections of a result that was updated. *)
Ltac fields :=
  cbn [res_id res_title res_status res_issues res_corrected_fields res_search_method
       res_matches res_attempts set_outcome set_corrected set_match set_attempt fst snd] in *.

(** Unfolds the plumbing of the monad. *)
Ltac run := unfold sleep, log, query, bind, ret in *; simpl in *.

(** The record [try_source] stores for a result [data] found by
    [method]. *)
Definition stored_match (method : string) (source : Source W R) (data : R)
    : SourceMatch R :=
  {| match_search_method := Some method;
     match_source_data := data;
     match_corrected_fields := extract_bibtex_fields source data |}.

(** A search that returned nothing, or a delay. *)
Definition no_hit (e : event) : Prop :=
  match e with
  | SearchByDoi _ _ hit | SearchByTitle _ _ hit => hit = false
  | Sleep _ => True
  end.

(** A delay. *)
Definition is_sleep (e : event) : Prop :=
  match e with Sleep _ => True | _ => False end.

Lemma found_truthy_Some (found : option R) :
  found_truthy truthy_result found = true ->
  exists data, found = Some data /\ truthy_result data = true.
Proof. destruct found as [data|]; simpl; [eauto|discriminate]. Qed.

(** The searches for one source: the calls in order, the state of the
    providers after them, and what is found by which method. *)
Lemma search_source_cases source_name (source : Source W R) entry (st : state W) :
  let doi := entry !! "doi" in
  let title := entry !! "title" in
  let by_doi := search_by_doi source (default "" doi) (world st) in
  let doi_hit := truthy doi && found_truthy truthy_result by_doi.1 in
  let w1 := if truthy doi then by_doi.2 else world st in
  let title_called := truthy title && negb doi_hit in
  let by_title := search_by_title source (default "" title) w1 in
  let title_hit := title_called && found_truthy truthy_result by_title.1 in
  let out := search_source truthy_result source_name source entry st in
  trace out.2
  = trace st
    ++ (if truthy doi then [SearchByDoi source_name (default "" doi) doi_hit] else [])
    ++ (if title_called then [SearchByTitle source_name (default "" title) title_hit] else [])
  /\ world out.2 = (if title_called then by_title.2 else w1)
  /\ out.1
     = (if doi_hit then (by_doi.1, Some (source_name +:+ ":DOI"))
        else if title_called
             then (by_title.1, if title_hit then Some (source_name +:+ ":Title") else None)
             else (if truthy doi then by_doi.1 else None, None)).
Proof.
  cbv zeta. unfold search_source.
  destruct (truthy (entry !! "doi")) eqn:Hdoi; run.
  - destruct (search_by_doi source (default "" (entry !! "doi")) (world st)) as [f1 w1].
    simpl. destruct (found_truthy truthy_result f1) eqn:Hf1; simpl.
    + rewrite andb_false_r. simpl. auto.
    + rewrite andb_true_r. destruct (truthy (entry !! "title")) eqn:Htitle; simpl.
      * destruct (search_by_title source (default "" (entry !! "title")) w1) as [f2 w2].
        simpl. rewrite <- app_assoc. auto.
      * auto.
  - destruct (truthy (entry !! "title")) eqn:Htitle; simpl.
    + destruct (search_by_title source (default "" (entry !! "title")) (world st)) as [f2 w2].
      simpl. auto.
    + rewrite app_nil_r. destruct st; auto.
Qed.

(** [try_source] leaves the id, the title and the issues alone. *)
Lemma try_source_ids entry source_name result st :
  let out := try_source truthy_result sources entry source_name result st in
  res_id out.1 = res_id result /\ res_title out.1 = res_title result
  /\ res_issues out.1 = res_issues result.
Proof.
  cbv zeta. unfold try_source. destruct (sources !! source_name) as [source|]; [|auto].
  destruct (should_attempt source entry) as [[] why]; run; [|auto].
  destruct (search_source _ _ _ _ _) as [[[data|] method] st']; simpl; [|auto].
  destruct (truthy_result data); auto.
Qed.

(** How a stored match came about. *)
Definition match_origin (source_name : string) (m : SourceMatch R) : Prop :=
  exists source data method,
    sources !! source_name = Some source
    /\ truthy_result data = true
    /\ m = stored_match method source data
    /\ ((method = source_name +:+ ":DOI"
         /\ exists doi w, found_truthy truthy_result (search_by_doi source doi w).1 = true)
        \/ method = source_name +:+ ":Title").

(** One round of the loop, whatever the source does: the events it adds
    and what it does to the matches. *)
Lemma try_source_step entry source_name result st :
  let out := try_source truthy_result sources entry source_name result st in
  exists evs,
    trace out.2 = trace st ++ evs
    /\ ((res_matches out.1 = res_matches result /\ Forall no_hit evs)
        \/ (exists m, match_origin source_name m
                      /\ res_matches out.1 = Dict.set source_name m (res_matches result)
                      /\ ~ Forall no_hit evs))
    /\ (truthy (entry !! "doi") = false -> truthy (entry !! "title") = false ->
        Forall is_sleep evs /\ world out.2 = world st
        /\ res_matches out.1 = res_matches result).
Proof.
  cbv zeta. unfold try_source. destruct (sources !! source_name) as [source|] eqn:Hsrc.
  2:{ exists []. run. rewrite app_nil_r. repeat split; auto. }
  destruct (should_attempt source entry) as [[] why].
  2:{ exists []. run. rewrite app_nil_r. repeat split; auto. }
  cbn [negb]. unfold bind.
  destruct (search_source_cases source_name source entry st) as (Htrace & Hworld & Hout).
  destruct (search_source truthy_result source_name source entry st) as [[found method] st1].
  cbn [fst snd] in Htrace, Hworld, Hout. run. rewrite Htrace, Hworld, <- !app_assoc.
  eexists. split; [reflexivity|]. clear Htrace Hworld.
  destruct (truthy (entry !! "doi")) eqn:Hdoi; cbn [andb] in Hout |- *.
  - split; [|discriminate].
    destruct (found_truthy truthy_result (search_by_doi source _ (world st)).1) eqn:Hf1;
      cbn [negb andb] in Hout |- *.
    + injection Hout as -> ->.
      destruct (found_truthy_Some _ Hf1) as (data & -> & Hdata). rewrite Hdata. right.
      eexists. split; [|split; [reflexivity|]].
      * exists source, data. eexists. repeat split; eauto.
      * intros Hno. inversion Hno as [|? ? Hhit]. discriminate Hhit.
    + rewrite andb_true_r in Hout |- *.
      destruct (truthy (entry !! "title")) eqn:Htitle; cbn [andb] in Hout |- *.
      * injection Hout as -> ->.
        destruct (found_truthy truthy_result (search_by_title source _ _).1) eqn:Hf2.
        -- destruct (found_truthy_Some _ Hf2) as (data & -> & Hdata). rewrite Hdata. right.
           eexists. split; [|split; [reflexivity|]].
           ++ exists source, data. eexists. repeat split; eauto.
           ++ intros Hno. inversion Hno as [|? ? _ Hno']. inversion Hno' as [|? ? Hhit].
              discriminate Hhit.
        -- left. split; [|repeat constructor].
           destruct (search_by_title source _ _).1 as [data|]; [|reflexivity].
           simpl in Hf2. rewrite Hf2. reflexivity.
      * injection Hout as -> ->. left. split; [|repeat constructor].
        destruct (search_by_doi source _ _).1 as [data|]; [|reflexivity].
        simpl in Hf1. rewrite Hf1. reflexivity.
  - destruct (truthy (entry !! "title")) eqn:Htitle; cbn [andb negb] in Hout |- *.
    + split; [|discriminate]. injection Hout as -> ->.
      destruct (found_truthy truthy_result (search_by_title source _ _).1) eqn:Hf2.
      * destruct (found_truthy_Some _ Hf2) as (data & -> & Hdata). rewrite Hdata. right.
        eexists. split; [|split; [reflexivity|]].
        -- exists source, data. eexists. repeat split; eauto.
        -- intros Hno. inversion Hno as [|? ? Hhit]. discriminate Hhit.
      * left. split; [|repeat constructor].
        destruct (search_by_title source _ _).1 as [data|]; [|reflexivity].
        simpl in Hf2. rewrite Hf2. reflexivity.
    + injection Hout as -> ->. split; [left; split; [reflexivity|repeat constructor]|].
      intros _ _. split; [repeat constructor|]. split; reflexivity.
Qed.

(** The loop over the sources: the events it adds, and where the matches
    it leaves come from. *)
Lemma try_sources_spec entry order : forall result st,
  let out := try_sources truthy_result sources entry order result st in
  exists evs,
    trace out.2 = trace st ++ evs
    /\ (res_matches out.1 = [] <-> res_matches result = [] /\ Forall no_hit evs)
    /\ (truthy (entry !! "doi") = false -> truthy (entry !! "title") = false ->
        Forall is_sleep evs /\ world out.2 = world st
        /\ res_matches out.1 = res_matches result)
    /\ (forall source_name m, (source_name, m) ∈ res_matches out.1 ->
        (source_name, m) ∈ res_matches result
        \/ (source_name ∈ order /\ match_origin source_name m))
    /\ res_id out.1 = res_id result /\ res_title out.1 = res_title result
    /\ res_issues out.1 = res_issues result.
Proof.
  induction order as [|source_name order IH]; intros result st; cbv zeta.
  - exists []. simpl. rewrite app_nil_r. repeat split; auto.
    + intros [? _]; assumption.
  - simpl. unfold bind.
    destruct (try_source_step entry source_name result st) as (evs1 & Ht1 & Hm1 & Hq1).
    pose proof (try_source_ids entry source_name result st) as (Hid1 & Htitle1 & Hissues1).
    destruct (try_source truthy_result sources entry source_name result st) as [result1 st1].
    simpl in *.
    destruct (IH result1 st1) as (evs2 & Ht2 & Hnil2 & Hq2 & Hin2 & Hid2 & Htitle2 & Hissues2).
    exists (evs1 ++ evs2). split; [|split; [|split; [|split]]].
    + rewrite Ht2, Ht1, app_assoc. reflexivity.
    + rewrite Hnil2, Forall_app. destruct Hm1 as [[-> Hno]|(m & _ & -> & Hno)].
      * tauto.
      * pose proof (set_not_nil source_name m (res_matches result)). tauto.
    + intros Hdoi Htitle. destruct (Hq1 Hdoi Htitle) as (Hs1 & Hw1 & Hr1).
      destruct (Hq2 Hdoi Htitle) as (Hs2 & Hw2 & Hr2).
      rewrite Forall_app. repeat split; auto; congruence.
    + intros name m Hin. destruct (Hin2 name m Hin) as [Hin1|[Hord Horig]].
      * destruct Hm1 as [[Heq _]|(m1 & Horig & Heq & _)]; rewrite Heq in Hin1.
        -- left; assumption.
        -- apply elem_of_set in Hin1 as [[-> ->]|Hin1]; [right|left; assumption].
           split; [left|assumption].
      * right. split; [right|]; assumption.
    + repeat split; congruence.
Qed.

Lemma choose_corrected_matches order (result : ValidationResult R) :
  res_matches (choose_corrected order result) = res_matches result.
Proof.
  induction order as [|preferred order IH]; simpl; [reflexivity|].
  destruct (Dict.get preferred (res_matches result)); [reflexivity|assumption].
Qed.

(** The corrected fields come from the first name of the order that has
    a match. *)
Lemma choose_corrected_first order (result : ValidationResult R) :
  (exists i preferred m,
      order !! i = Some preferred
      /\ Dict.get preferred (res_matches result) = Some m
      /\ (forall i' earlier, (i' < i)%nat -> order !! i' = Some earlier ->
           Dict.get earlier (res_matches result) = None)
      /\ choose_corrected order result = set_corrected m result)
  \/ ((forall preferred, preferred ∈ order -> Dict.get preferred (res_matches result) = None)
      /\ choose_corrected order result = result).
Proof.
  induction order as [|preferred order IH]; simpl.
  - right. split; [|reflexivity]. intros preferred Hin. inversion Hin.
  - destruct (Dict.get preferred (res_matches result)) as [m|] eqn:Hget.
    + left. exists 0%nat, preferred, m. repeat split; auto. intros i' earlier Hlt. lia.
    + destruct IH as [(i & name & m & Hi & Hm & Hfirst & Heq)|[Hnone Heq]].
      * left. exists (S i), name, m. repeat split; auto.
        intros [|i'] earlier Hlt Hearlier; simpl in Hearlier.
        -- injection Hearlier as <-. assumption.
        -- apply (Hfirst i'); [lia|assumption].
      * right. split; [|assumption].
        intros name [->|Hin]%elem_of_cons; [assumption|apply Hnone; assumption].
Qed.

Lemma elem_of_dedup seen issues i :
  i ∈ dedup seen issues <-> i ∈ issues /\ i ∉ seen.
Proof.
  revert seen; induction issues as [|i' issues IH]; intros seen; simpl.
  - split; [intros Hin; inversion Hin|intros [Hin _]; inversion Hin].
  - destruct (decide (i' ∈ seen)) as [Hseen|Hseen].
    + rewrite bool_decide_eq_true_2 by assumption. rewrite IH, elem_of_cons.
      split; [tauto|]. intros [[->|?] ?]; [contradiction|tauto].
    + rewrite bool_decide_eq_false_2 by assumption. rewrite !elem_of_cons, IH, elem_of_cons.
      split.
      * intros [->|[? ?]]; [tauto|]. split; [tauto|]. tauto.
      * intros [[->|?] ?]; [tauto|]. destruct (decide (i = i')); [tauto|]. tauto.
Qed.

Lemma elem_of_collect_issues entry (matches : Dict.dict (SourceMatch R)) source_name m i :
  (source_name, m) ∈ matches ->
  i ∈ compare_with_corrected format_2f entry (match_corrected_fields m) ->
  upper source_name +:+ ": " +:+ i ∈ collect_issues format_2f entry matches.
Proof.
  intros Hm Hi. unfold collect_issues. apply list_elem_of_join.
  eexists. split; [|apply list_elem_of_fmap; exists (source_name, m); split; [reflexivity|exact Hm]].
  simpl. apply list_elem_of_fmap. exists i. split; [reflexivity|assumption].
Qed.

(** [validate_entry], in the two cases of its test on the matches. *)
Lemma validate_entry_unfold entry st :
  let loop := try_sources truthy_result sources entry DEFAULT_ORDER (initial_result entry) st in
  let out := validate_entry truthy_result format_2f sources entry st in
  out.2 = loop.2
  /\ res_matches out.1 = res_matches loop.1
  /\ res_id out.1 = res_id loop.1
  /\ (res_matches loop.1 = [] ->
      out.1 = set_outcome "not_found" (res_issues loop.1 ++ ["Entry not found in any source"]) loop.1)
  /\ (res_matches loop.1 <> [] ->
      let chosen := choose_corrected DEFAULT_ORDER loop.1 in
      let issues := dedup [] (collect_issues format_2f entry (res_matches chosen)) in
      out.1 = set_outcome (if bool_decide (issues = []) then "validated" else "mismatch")
                issues chosen).
Proof.
  cbv zeta. unfold validate_entry, bind.
  generalize DEFAULT_ORDER. intros order.
  destruct (try_sources truthy_result sources entry order (initial_result entry) st)
    as [result st']. simpl.
  destruct (decide (res_matches result = [])) as [Hnil|Hne].
  - rewrite bool_decide_eq_true_2 by assumption. unfold ret. simpl.
    repeat split; auto. intros; contradiction.
  - rewrite bool_decide_eq_false_2 by assumption. unfold ret. simpl.
    rewrite choose_corrected_matches. repeat split; auto.
    + destruct (choose_corrected_first order result)
        as [(i & name & m & _ & _ & _ & ->)|[_ ->]]; reflexivity.
    + intros; contradiction.
Qed.

(** The matches [validate_entry] returns are those of sources of the
    order, stored by [try_source]. *)
Lemma validate_entry_matches entry st source_name m :
  (source_name, m) ∈ res_matches (validate_entry truthy_result format_2f sources entry st).1 ->
  source_name ∈ DEFAULT_ORDER /\ match_origin source_name m.
Proof.
  destruct (validate_entry_unfold entry st) as (_ & -> & _).
  destruct (try_sources_spec entry DEFAULT_ORDER (initial_result entry) st)
    as (evs & _ & _ & _ & Hin & _).
  intros Hm. destruct (Hin _ _ Hm) as [Hinit|?]; [inversion Hinit|assumption].
Qed.

(** The three outcomes of [validate_entry]. *)
Lemma validate_entry_status entry st :
  let r := (validate_entry truthy_result format_2f sources entry st).1 in
  (res_matches r = [] /\ res_status r = "not_found"
   /\ res_issues r = ["Entry not found in any source"])
  \/ (res_matches r <> [] /\ res_status r = "validated" /\ res_issues r = [])
  \/ (res_matches r <> [] /\ res_status r = "mismatch" /\ res_issues r <> []).
Proof.
  cbv zeta. destruct (validate_entry_unfold entry st) as (_ & Hm & _ & Hnil & Hne).
  destruct (try_sources_spec entry DEFAULT_ORDER (initial_result entry) st)
    as (evs & _ & _ & _ & _ & _ & _ & Hissues).
  rewrite Hm.
  destruct (decide (res_matches
    (try_sources truthy_result sources entry DEFAULT_ORDER (initial_result entry) st).1 = []))
    as [E|E].
  - left. rewrite (Hnil E). fields. rewrite Hissues. auto.
  - right. rewrite (Hne E). fields.
    destruct (decide (dedup [] (collect_issues format_2f entry (res_matches
      (choose_corrected DEFAULT_ORDER
         (try_sources truthy_result sources entry DEFAULT_ORDER (initial_result entry) st).1))) = []))
      as [E'|E'].
    + left. rewrite bool_decide_eq_true_2 by assumption. auto.
    + right. rewrite bool_decide_eq_false_2 by assumption. auto.
Qed.

(** C1. When at least one source matched, the corrected fields of the
    result are the fields extracted from the result found by the first
    source of the order dblp, scholar, semantic that has a match, the
    search method is that of the same match, whatever the later sources
    found; the issues are the de-duplicated issues of the comparison with
    every match, so each issue of each matching source is among them. *)
Theorem validate_entry_corrected entry st :
  let r := (validate_entry truthy_result format_2f sources entry st).1 in
  res_matches r <> [] ->
  exists i preferred source m,
    DEFAULT_ORDER !! i = Some preferred
    /\ sources !! preferred = Some source
    /\ Dict.get preferred (res_matches r) = Some m
    /\ (forall i' earlier, (i' < i)%nat -> DEFAULT_ORDER !! i' = Some earlier ->
         Dict.get earlier (res_matches r) = None)
    /\ res_corrected_fields r = extract_bibtex_fields source (match_source_data m)
    /\ res_corrected_fields r = match_corrected_fields m
    /\ res_search_method r = match_search_method m
    /\ res_issues r = dedup [] (collect_issues format_2f entry (res_matches r))
    /\ (forall source_name m' i,
          (source_name, m') ∈ res_matches r ->
          i ∈ compare_with_corrected format_2f entry (match_corrected_fields m') ->
          upper source_name +:+ ": " +:+ i ∈ res_issues r).
Proof.
  cbv zeta. intros Hne.
  pose proof (validate_entry_matches entry st) as Horigin.
  destruct (validate_entry_unfold entry st) as (_ & Hm & _ & _ & Hout).
  rewrite Hm in Hne, Horigin |- *. specialize (Hout Hne). cbv zeta in Hout.
  rewrite Hout, choose_corrected_matches. fields. clear Hout Hm.
  set (result := (try_sources truthy_result sources entry DEFAULT_ORDER (initial_result entry) st).1)
    in *.
  destruct (choose_corrected_first DEFAULT_ORDER result)
    as [(i & preferred & m & Hi & Hget & Hfirst & ->)|[Hnone _]].
  - destruct (Horigin _ _ (get_elem_of _ _ _ Hget))
      as (_ & source & data & method & Hsrc & _ & -> & _).
    exists i, preferred, source. eexists. repeat split; eauto.
    intros source_name m' issue Hin Hissue. apply elem_of_dedup. split.
    + apply (elem_of_collect_issues entry _ source_name m'); assumption.
    + intros Hseen. inversion Hseen.
  - destruct (res_matches result) as [|[k v] matches]; [contradiction|].
    assert (Hk : (k, v) ∈ (k, v) :: matches) by left.
    destruct (Horigin _ _ Hk) as [Hord _]. apply elem_of_get in Hk as [? Hk].
    rewrite (Hnone _ Hord) in Hk. discriminate.
Qed.

(** C2. The events of a run of [validate_entry] show no search that
    returned a result exactly when the result has no match, and then its
    status is not_found and its only issue says so. For an entry with
    neither DOI nor title the run consists of pacing delays only: no search
    is issued, whatever the search functions would return, the providers
    are left as they were, and the outcome is the same; the Scholar and
    Semantic Scholar policies refuse such an entry. *)
Theorem validate_entry_not_found entry st :
  let out := validate_entry truthy_result format_2f sources entry st in
  exists evs,
    trace out.2 = trace st ++ evs
    /\ (Forall no_hit evs <-> res_matches out.1 = [])
    /\ (Forall no_hit evs ->
        res_status out.1 = "not_found"
        /\ res_issues out.1 = ["Entry not found in any source"])
    /\ (truthy (entry !! "doi") = false -> truthy (entry !! "title") = false ->
        Forall is_sleep evs /\ world out.2 = world st
        /\ res_status out.1 = "not_found"
        /\ res_issues out.1 = ["Entry not found in any source"]
        /\ scholar_should_attempt entry = (false, "missing title")
        /\ semantic_should_attempt entry = (false, "missing doi and title")).
Proof.
  cbv zeta.
  destruct (validate_entry_unfold entry st) as (Hst & Hm & _).
  destruct (try_sources_spec entry DEFAULT_ORDER (initial_result entry) st)
    as (evs & Htrace & Hnil & Hquiet & _).
  assert (Hnone : Forall no_hit evs <-> res_matches
            (validate_entry truthy_result format_2f sources entry st).1 = []).
  { rewrite Hm, Hnil. simpl. tauto. }
  assert (Hnf : Forall no_hit evs ->
            res_status (validate_entry truthy_result format_2f sources entry st).1 = "not_found"
            /\ res_issues (validate_entry truthy_result format_2f sources entry st).1
               = ["Entry not found in any source"]).
  { intros Hno%Hnone.
    destruct (validate_entry_status entry st) as [(_ & ? & ?)|[(? & _)|(? & _)]];
      [auto|contradiction|contradiction]. }
  exists evs. rewrite Hst. split; [assumption|]. split; [assumption|]. split; [assumption|].
  intros Hdoi Htitle. destruct (Hquiet Hdoi Htitle) as (Hsleep & Hworld & _).
  split; [assumption|]. split; [assumption|].
  assert (Hno : Forall no_hit evs).
  { eapply Forall_impl; [exact Hsleep|]. intros [] Hs; simpl in *; auto; contradiction. }
  destruct (Hnf Hno) as [? ?]. repeat split; auto.
  - unfold scholar_should_attempt. rewrite Htitle. reflexivity.
  - unfold semantic_should_attempt. rewrite Hdoi, Htitle. reflexivity.
Qed.

(** C3. For a source that accepts the entry: the DOI search is called
    first, and only when the entry has a DOI; the title search is called
    exactly when the entry has a title and the DOI search was not called or
    returned no result; a match is stored exactly when one of the two
    returned a result, with the method [source:DOI] or [source:Title] of
    the search that did and the fields extracted from its result; then the
    pacing delay follows. *)
Theorem try_source_searches source_name source entry result st :
  sources !! source_name = Some source ->
  (should_attempt source entry).1 = true ->
  let doi := entry !! "doi" in
  let title := entry !! "title" in
  let by_doi := search_by_doi source (default "" doi) (world st) in
  let doi_hit := truthy doi && found_truthy truthy_result by_doi.1 in
  let w1 := if truthy doi then by_doi.2 else world st in
  let title_called := truthy title && negb doi_hit in
  let by_title := search_by_title source (default "" title) w1 in
  let title_hit := title_called && found_truthy truthy_result by_title.1 in
  let attempt := {| attempted := true; reason := (should_attempt source entry).2 |} in
  let out := try_source truthy_result sources entry source_name result st in
  trace out.2
  = trace st
    ++ (if truthy doi then [SearchByDoi source_name (default "" doi) doi_hit] else [])
    ++ (if title_called then [SearchByTitle source_name (default "" title) title_hit] else [])
    ++ [Sleep 1]
  /\ world out.2 = (if title_called then by_title.2 else w1)
  /\ out.1
     = match (if doi_hit then by_doi.1 else if title_hit then by_title.1 else None) with
       | Some data =>
           set_match source_name
             (stored_match (source_name +:+ (if doi_hit then ":DOI" else ":Title")) source data)
             (set_attempt source_name attempt result)
       | None => set_attempt source_name attempt result
       end
  /\ (is_Some (if doi_hit then by_doi.1 else if title_hit then by_title.1 else None)
      <-> doi_hit || title_hit = true).
Proof.
  intros Hsrc Hok. cbv zeta. unfold try_source. rewrite Hsrc.
  destruct (should_attempt source entry) as [can_try why]. simpl in Hok. subst can_try.
  cbn [negb snd]. unfold bind.
  destruct (search_source_cases source_name source entry st) as (Htrace & Hworld & Hout).
  destruct (search_source truthy_result source_name source entry st) as [[found method] st1].
  cbn [fst snd] in Htrace, Hworld, Hout. run. rewrite Htrace, Hworld, <- !app_assoc.
  split; [reflexivity|]. split; [reflexivity|]. clear Htrace Hworld.
  destruct (truthy (entry !! "doi") && found_truthy truthy_result
              (search_by_doi source (default "" (entry !! "doi")) (world st)).1) eqn:Hdoi.
  - (* found by DOI *)
    injection Hout as -> ->. apply andb_true_iff in Hdoi as [_ Hf1].
    destruct (found_truthy_Some _ Hf1) as (data & -> & Hdata). rewrite Hdata.
    split; [reflexivity|]. split; eauto.
  - cbn [negb orb] in Hout |- *. rewrite andb_true_r in Hout |- *.
    destruct (truthy (entry !! "title")) eqn:Htitle; cbn [andb] in Hout |- *.
    + (* the title search is called *)
      injection Hout as -> ->.
      destruct (found_truthy truthy_result (search_by_title source _ _).1) eqn:Hf2.
      * destruct (found_truthy_Some _ Hf2) as (data & -> & Hdata). rewrite Hdata.
        split; [reflexivity|]. split; eauto.
      * split; [|split; [intros [? [=]]|discriminate]].
        destruct (search_by_title source _ _).1 as [data|]; [|reflexivity].
        simpl in Hf2. rewrite Hf2. reflexivity.
    + (* no search is left *)
      injection Hout as -> ->. split; [|split; [intros [? [=]]|discriminate]].
      destruct (truthy (entry !! "doi")); [|reflexivity].
      destruct (search_by_doi source _ _).1 as [data|]; [|reflexivity].
      simpl in Hdoi. rewrite Hdoi. reflexivity.
Qed.

(** C10. The Scholar source answers [None] to every DOI search and leaves
    the providers as they were; so, when it is the scholar source of the
    validator, a match stored for scholar was found by title. *)
Theorem scholar_search_by_doi_none search_pubs extract :
  (forall doi w, search_by_doi (ScholarSource search_pubs extract) doi w = (None, w))
  /\ (sources !! "scholar" = Some (ScholarSource search_pubs extract) ->
      forall entry st m,
        Dict.get "scholar" (res_matches (validate_entry truthy_result format_2f sources entry st).1)
        = Some m ->
        match_search_method m = Some "scholar:Title"
        /\ match_search_method m <> Some "scholar:DOI").
Proof.
  split; [reflexivity|]. intros Hsrc entry st m Hget.
  destruct (validate_entry_matches entry st _ _ (get_elem_of _ _ _ Hget))
    as (_ & source & data & method & Hsrc' & _ & -> & Hmethod).
  rewrite Hsrc in Hsrc'. injection Hsrc' as <-.
  destruct Hmethod as [[_ (doi & w & Hhit)]| ->]; [discriminate Hhit|].
  split; [reflexivity|discriminate].
Qed.

(** What holds of every result of [validate_entry]: one of the three
    statuses; with a match, validated exactly when there is no issue;
    not_found exactly when there is no match. *)
Definition classified (r : ValidationResult R) : Prop :=
  res_status r ∈ ["validated"; "mismatch"; "not_found"]
  /\ (res_matches r <> [] -> (res_status r = "validated" <-> res_issues r = []))
  /\ (res_matches r = [] <-> res_status r = "not_found").

Lemma validate_entry_classified entry st :
  classified (validate_entry truthy_result format_2f sources entry st).1.
Proof.
  destruct (validate_entry_status entry st)
    as [(Hm & Hs & Hi)|[(Hm & Hs & Hi)|(Hm & Hs & Hi)]]; unfold classified;
    rewrite Hs; (split; [set_solver|]); split.
  - intros; contradiction.
  - tauto.
  - rewrite Hi. tauto.
  - split; [contradiction|discriminate].
  - intros _. split; [discriminate|]. intros Hnil. contradiction.
  - split; [contradiction|discriminate].
Qed.

(** [bucket] appends a classified result to the bucket of its status and
    to no other. *)
Lemma bucket_classified (r : ValidationResult R) results :
  res_status r ∈ ["validated"; "mismatch"; "not_found"] ->
  validated (bucket r results)
  = validated results ++ filter (fun r => res_status r = "validated") [r]
  /\ mismatches (bucket r results)
     = mismatches results ++ filter (fun r => res_status r = "mismatch") [r]
  /\ not_found (bucket r results)
     = not_found results ++ filter (fun r => res_status r = "not_found") [r].
Proof.
  intros Hs. unfold bucket. rewrite !filter_cons, !filter_nil.
  repeat (apply elem_of_cons in Hs as [Hs|Hs]); [| | |inversion Hs];
    repeat (case_decide; try congruence); repeat (case_bool_decide; try congruence);
    cbn [validated mismatches not_found]; rewrite ?app_nil_r; auto.
Qed.

(** The loop of [validate_all]: one result per entry, in order, each
    appended to the bucket of its status. *)
Lemma validate_each_spec entries : forall results st,
  let out := validate_each truthy_result format_2f sources entries results st in
  exists rs,
    Forall2 (fun entry r =>
               exists st0, r = (validate_entry truthy_result format_2f sources entry st0).1)
            entries rs
    /\ validated out.1 = validated results ++ filter (fun r => res_status r = "validated") rs
    /\ mismatches out.1 = mismatches results ++ filter (fun r => res_status r = "mismatch") rs
    /\ not_found out.1 = not_found results ++ filter (fun r => res_status r = "not_found") rs.
Proof.
  induction entries as [|entry entries IH]; intros results st; cbv zeta.
  - exists []. simpl. rewrite !filter_nil, !app_nil_r. repeat split; auto.
  - simpl. unfold bind.
    pose proof (validate_entry_classified entry st) as (Hs & _).
    destruct (validate_entry truthy_result format_2f sources entry st) as [r st1] eqn:E.
    simpl in Hs. run.
    destruct (IH (bucket r results) (State (world st1) (trace st1 ++ [Sleep 2])))
      as (rs & Hrs & Hv & Hm & Hn).
    destruct (bucket_classified r results Hs) as (Hv1 & Hm1 & Hn1).
    exists (r :: rs). split; [|split; [|split]].
    + constructor; [|assumption]. exists st. rewrite E. reflexivity.
    + rewrite Hv, Hv1, <- app_assoc, <- filter_app. reflexivity.
    + rewrite Hm, Hm1, <- app_assoc, <- filter_app. reflexivity.
    + rewrite Hn, Hn1, <- app_assoc, <- filter_app. reflexivity.
Qed.

(** Results with one of the three statuses split into the three
    buckets. *)
Lemma length_buckets (rs : list (ValidationResult R)) :
  Forall (fun r => res_status r ∈ ["validated"; "mismatch"; "not_found"]) rs ->
  (length (filter (fun r => res_status r = "validated") rs)
   + length (filter (fun r => res_status r = "mismatch") rs)
   + length (filter (fun r => res_status r = "not_found") rs))%nat
  = length rs.
Proof.
  induction 1 as [|r rs Hs Hrs IH]; [reflexivity|]. rewrite !filter_cons.
  repeat (apply elem_of_cons in Hs as [Hs|Hs]); [| | |inversion Hs];
    repeat (case_decide; try congruence); simpl; lia.
Qed.

(** C5. On a fresh validator, [validate_all] yields one result per entry,
    in input order, each the result of [validate_entry] on that entry;
    every result has one of the statuses validated, mismatch, not_found
    (with a match: validated exactly when it has no issue); each bucket is
    the sequence of the results of its status, in input order; and the
    three sizes add up to the number of entries. *)
Theorem validate_all_partition entries st :
  let results := (validate_all truthy_result format_2f sources entries no_results st).1 in
  exists rs,
    Forall2 (fun entry r =>
               exists st0, r = (validate_entry truthy_result format_2f sources entry st0).1)
            entries rs
    /\ Forall classified rs
    /\ validated results = filter (fun r => res_status r = "validated") rs
    /\ mismatches results = filter (fun r => res_status r = "mismatch") rs
    /\ not_found results = filter (fun r => res_status r = "not_found") rs
    /\ (length (validated results) + length (mismatches results)
        + length (not_found results))%nat = length entries.
Proof.
  cbv zeta.
  assert (Heach : validate_all truthy_result format_2f sources entries no_results st
                  = validate_each truthy_result format_2f sources entries no_results st)
    by (destruct entries; reflexivity).
  rewrite Heach.
  destruct (validate_each_spec entries no_results st) as (rs & Hrs & Hv & Hm & Hn).
  simpl in Hv, Hm, Hn.
  assert (Hcl : Forall classified rs).
  { clear -Hrs. induction Hrs as [|entry r entries rs [st0 ->] _ IH]; constructor; auto.
    apply validate_entry_classified. }
  exists rs. rewrite Hv, Hm, Hn. repeat split; auto.
  rewrite length_buckets; [symmetry; eapply Forall2_length; eassumption|].
  eapply Forall_impl; [exact Hcl|]. intros r (? & _). assumption.
Qed.

End Run.
End ValidatorFacts.

(** ** Similarity and the comparison of authors *)
Module CompareFacts.
Import PyStr Normalize Dict Validator.
Local Open Scope list_scope.

(** C9. [similarity] is 1 on a string and itself, on two empty strings,
    and whenever the two strings have the same normalised form, the empty
    one included. *)
Theorem similarity_identical :
  (forall s, similarity s s = 1%Qc)
  /\ similarity "" "" = 1%Qc
  /\ (forall a b, normalize_string (Some a) = normalize_string (Some b) ->
                 similarity a b = 1%Qc)
  /\ (forall a b, normalize_string (Some a) = "" -> normalize_string (Some b) = "" ->
                 similarity a b = 1%Qc).
Proof.
  assert (Hsame : forall a b, normalize_string (Some a) = normalize_string (Some b) ->
                    similarity a b = 1%Qc).
  { intros a b Hab. unfold similarity. rewrite Hab. apply DifflibFacts.ratio_same. }
  split; [intros s; apply Hsame; reflexivity|].
  split; [apply Hsame; reflexivity|].
  split; [exact Hsame|].
  intros a b Ha Hb. apply Hsame. congruence.
Qed.

(** The text of one mismatching pair. *)
Definition pair_text (p : string * string) : string :=
  "'" +:+ p.1 +:+ "' vs '" +:+ p.2 +:+ "'".

(** The pairs of authors, taken by position, that are too far apart. *)
Definition far_pairs (orig_authors corr_authors : list string) : list (string * string) :=
  filter (fun p => (similarity p.1 p.2 < Q2Qc (3 # 4))%Qc) (zip orig_authors corr_authors).

Lemma author_mismatches_pairs orig_authors corr_authors :
  author_mismatches orig_authors corr_authors
  = pair_text <$> far_pairs orig_authors corr_authors.
Proof.
  unfold far_pairs. revert corr_authors.
  induction orig_authors as [|oa orig IH]; intros [|ca corr]; simpl; try reflexivity.
  rewrite filter_cons. simpl. rewrite IH.
  destruct (decide (similarity oa ca < Q2Qc (3 # 4))%Qc) as [Hlt|Hge].
  - rewrite bool_decide_eq_true_2 by assumption. reflexivity.
  - rewrite bool_decide_eq_false_2 by assumption. reflexivity.
Qed.

Lemma authors_to_list_str s :
  authors_to_list (AStr s) = stripped (split " and " s).
Proof. destruct s; reflexivity. Qed.

(** Names that are already stripped and not blank are kept as they
    are. *)
Lemma stripped_clean l :
  Forall (fun x => strip x = x /\ nonempty x = true) l -> stripped l = l.
Proof.
  unfold stripped. induction 1 as [|x l [Hx Hne] Hl IH]; [reflexivity|].
  rewrite fmap_cons, filter_cons, Hx. rewrite decide_True by assumption.
  rewrite IH. reflexivity.
Qed.

Section Compare.
Variable format_2f : Qc -> string.

(** The comparison of authors, when both sides have an author field. *)
Lemma compare_authors_unfold original corrected o c :
  original !! "author" = Some o ->
  Dict.get "author" corrected = Some c ->
  let orig_authors := stripped (split " and " o) in
  let corr_authors := stripped (split " and " c) in
  let mismatches := pair_text <$> far_pairs orig_authors corr_authors in
  compare_authors original corrected
  = if decide (length orig_authors <> length corr_authors) then
      ["AUTHORS: Different count (" +:+ str_of_nat (length orig_authors) +:+ " vs "
         +:+ str_of_nat (length corr_authors) +:+ ")"]
    else if decide (1 <= length mismatches <= 3)%nat then
      ["AUTHORS: " +:+ join "; " mismatches]
    else [].
Proof.
  intros Ho Hc. cbv zeta. unfold compare_authors, Dict.mem.
  rewrite Ho, Hc. rewrite !bool_decide_eq_true_2 by eauto.
  cbn [andb author_of]. rewrite !authors_to_list_str, author_mismatches_pairs.
  destruct (decide (length (stripped (split " and " o)) <> length (stripped (split " and " c))))
    as [Hne|Heq].
  - apply Nat.eqb_neq in Hne. rewrite Hne. reflexivity.
  - assert (Heq' : length (stripped (split " and " o)) = length (stripped (split " and " c)))
      by lia.
    apply Nat.eqb_eq in Heq'. rewrite Heq'. cbn [negb].
    set (ms := pair_text <$> far_pairs _ _).
    destruct ms as [|m ms']; [reflexivity|].
    rewrite bool_decide_eq_false_2 by discriminate. cbn [negb andb].
    destruct (decide (1 <= length (m :: ms') <= 3)%nat) as [Hle|Hgt].
    + destruct (Nat.leb_spec (length (m :: ms')) 3); [reflexivity|lia].
    + destruct (Nat.leb_spec (length (m :: ms')) 3); [simpl in *; lia|reflexivity].
Qed.

(** The issues after those on authors are on the venue, the year and the
    title. *)
Lemma compare_rest_not_authors original corrected :
  Forall (fun i => String.prefix "AUTHORS" i = false)
    (compare_venue original corrected ++ compare_year original corrected
     ++ compare_title format_2f original corrected).
Proof.
  rewrite !Forall_app. unfold compare_venue, compare_year, compare_title.
  repeat split;
    repeat match goal with
           | |- Forall _ (if ?b then _ else _) => destruct b
           | |- Forall _ (match ?o with Some _ => _ | None => _ end) => destruct o
           end; repeat constructor.
Qed.

(** C4, amended. When the original and the corrected fields both have an
    author: each value is turned into a list of names, a string by
    splitting on the literal [ and ], a list item by item, in both cases
    with every name stripped of surrounding whitespace and the blank names
    dropped (so a list of stripped, non-blank names is taken as it is). If
    the two counts differ, the one author issue is the count mismatch. If
    they are equal, the pairs by position with similarity below 0.75 are
    collected: with 1 to 3 of them the one author issue lists them, with
    none or more than 3 there is no author issue. The other issues of the
    comparison are not on authors. *)
Theorem compare_authors_issue original corrected o c :
  original !! "author" = Some o ->
  Dict.get "author" corrected = Some c ->
  let orig_authors := stripped (split " and " o) in
  let corr_authors := stripped (split " and " c) in
  let mismatches := pair_text <$> far_pairs orig_authors corr_authors in
  authors_to_list (AStr o) = orig_authors
  /\ authors_to_list (AStr c) = corr_authors
  /\ (forall l, authors_to_list (AList l) = stripped l)
  /\ (forall l, Forall (fun x => strip x = x /\ nonempty x = true) l ->
                authors_to_list (AList l) = l)
  /\ exists rest,
      compare_with_corrected format_2f original corrected
      = (if decide (length orig_authors <> length corr_authors) then
           ["AUTHORS: Different count (" +:+ str_of_nat (length orig_authors) +:+ " vs "
              +:+ str_of_nat (length corr_authors) +:+ ")"]
         else if decide (1 <= length mismatches <= 3)%nat then
           ["AUTHORS: " +:+ join "; " mismatches]
         else [])
        ++ rest
      /\ Forall (fun i => String.prefix "AUTHORS" i = false) rest.
Proof.
  intros Ho Hc. cbv zeta.
  split; [apply authors_to_list_str|]. split; [apply authors_to_list_str|].
  split; [reflexivity|]. split; [exact stripped_clean|].
  eexists. split; [|apply (compare_rest_not_authors original corrected)].
  unfold compare_with_corrected.
  rewrite (compare_authors_unfold original corrected o c Ho Hc). reflexivity.
Qed.

End Compare.

(** C4 as stated fails: splitting on the literal alone gives three names
    for the original and two for the corrected value, yet no issue on the
    count is raised, because the blank name is dropped first. *)
Lemma compare_authors_drops_blank :
  ~ (forall (original : Entry) (corrected : FieldMap) o c,
        original !! "author" = Some o ->
        Dict.get "author" corrected = Some c ->
        length (split " and " o) <> length (split " and " c) ->
        exists i, compare_authors original corrected = [i]).
Proof.
  intros H.
  destruct (H {[ "author" := "A Smith and  and B Jones" ]}
              [("author", "A Smith and B Jones")]
              "A Smith and  and B Jones" "A Smith and B Jones") as [i Hi].
  - reflexivity.
  - reflexivity.
  - vm_compute. discriminate.
  - vm_compute in Hi. discriminate.
Qed.

(** A list is not taken as it is either: its blank names are dropped. *)
Example authors_to_list_blank :
  authors_to_list (AList ["A Smith"; " "]) = ["A Smith"].
Proof. reflexivity. Qed.

(** The example of the specification: two authors against one. *)
Example compare_authors_count :
  compare_authors {[ "author" := "A Smith and B Jones" ]} [("author", "A Smith")]
  = ["AUTHORS: Different count (2 vs 1)"].
Proof. vm_compute. reflexivity. Qed.

Lemma compare_authors_issue_witness :
  exists rest,
    compare_with_corrected (fun _ => "0.00")
      {[ "author" := "A Smith and B Jones" ]} [("author", "A Smith and Z Brown")]
    = ["AUTHORS: 'B Jones' vs 'Z Brown'"] ++ rest.
Proof.
  destruct (compare_authors_issue (fun _ => "0.00")
              {[ "author" := "A Smith and B Jones" ]} [("author", "A Smith and Z Brown")]
              "A Smith and B Jones" "A Smith and Z Brown")
    as (_ & _ & _ & _ & rest & Hrest & _).
  - reflexivity.
  - reflexivity.
  - exists rest. vm_compute. vm_compute in Hrest. exact Hrest.
Defined.

Lemma similarity_identical_witness :
  similarity "Deep {L}earning" "deep  learning!" = 1%Qc.
Proof.
  apply (proj1 (proj2 (proj2 similarity_identical))). reflexivity.
Defined.

End CompareFacts.

(** ** Applying the corrections *)
Module ApplyFacts.
Import PyStr Dict Validator.
Local Open Scope list_scope.

Section Apply.
Context {R : Type}.
Implicit Types (h : heap) (e : Entry) (results : Results R).

(** What one item of the corrected fields does to the copy [e] of the
    entry [entry]. *)
Definition write_field (entry : Entry) (e : Entry) (item : string * string) : Entry :=
  let '(field, value) := item in
  if nonempty value then
    if bool_decide (field = "venue") then
      if bool_decide (entry !! "ENTRYTYPE" = Some "article")
      then <["journal" := value]> e
      else <["booktitle" := value]> e
    else <[field := value]> e
  else e.

(** The entry with the corrected fields written. *)
Definition corrected_entry (entry : Entry) (corrected : FieldMap) : Entry :=
  foldl (write_field entry) entry corrected.

(** The provenance note of a result, after the note [existing]. *)
Definition provenance_note (r : ValidationResult R) (existing : string) : string :=
  let validation_note := "Validated via " +:+ str_of_method (res_search_method r) in
  if nonempty existing then existing +:+ "; " +:+ validation_note else validation_note.

(** The entry with the provenance note of [r] appended. *)
Definition noted_entry (r : ValidationResult R) (e : Entry) : Entry :=
  <["note" := provenance_note r (default "" (e !! "note"))]> e.

(** What the copy of an entry holds in the end. *)
Definition updated_entry results (e : Entry) : Entry :=
  match find_result results (e !! "ID") with
  | Some r => noted_entry r (corrected_entry e (res_corrected_fields r))
  | None => e
  end.

Lemma write_insert d k v h e :
  write d k v (<[d := e]> h) = <[d := <[k := v]> e]> h.
Proof. unfold write. apply alter_insert_eq. Qed.

Lemma read_insert d k h e : read d k (<[d := e]> h) = e !! k.
Proof. unfold read. rewrite lookup_insert_eq. reflexivity. Qed.

Lemma read_insert_ne d d' k h e e' :
  d <> d' -> h !! d = Some e -> read d k (<[d' := e']> h) = e !! k.
Proof. intros Hne Hd. unfold read. rewrite lookup_insert_ne by congruence. rewrite Hd. reflexivity. Qed.

(** The loop over the corrected fields writes to the copy only. *)
Lemma write_fields_insert entry entry_copy corrected h e : forall cur,
  entry <> entry_copy -> h !! entry = Some e ->
  write_fields entry entry_copy corrected (<[entry_copy := cur]> h)
  = <[entry_copy := foldl (write_field e) cur corrected]> h.
Proof.
  unfold write_fields.
  induction corrected as [|[field value] corrected IH]; intros cur Hne He; simpl.
  - reflexivity.
  - rewrite (read_insert_ne entry entry_copy _ h e) by assumption.
    destruct (nonempty value); [|apply IH; assumption].
    destruct (bool_decide (field = "venue")).
    + destruct (bool_decide (e !! "ENTRYTYPE" = Some "article"));
        rewrite write_insert; apply IH; assumption.
    + rewrite write_insert. apply IH; assumption.
Qed.

(** One round: a fresh dictionary holds the updated entry, nothing else
    changes. *)
Lemma apply_corrections_insert results entry h e :
  h !! entry = Some e ->
  apply_corrections results entry h
  = (fresh (dom h), <[fresh (dom h) := updated_entry results e]> h).
Proof.
  intros He. unfold apply_corrections, deepcopy.
  assert (Hne : entry <> fresh (dom h)).
  { intros Heq. apply (is_fresh (dom h)). rewrite <- Heq. apply elem_of_dom. eauto. }
  rewrite (lookup_total_correct _ _ _ He).
  rewrite (read_insert_ne entry _ _ h e) by assumption.
  unfold updated_entry. destruct (find_result results (e !! "ID")) as [r|]; [|reflexivity].
  rewrite (write_fields_insert entry _ _ h e) by assumption.
  unfold write_note. rewrite read_insert, write_insert. reflexivity.
Qed.

(** The loop: the heap only grows, by one fresh dictionary per entry. *)
Lemma apply_corrections_loop_spec results h0 entries : forall updated_entries h,
  h0 ⊆ h -> Forall (fun entry => is_Some (h0 !! entry)) entries ->
  let out := apply_corrections_loop results entries updated_entries h in
  exists copies,
    out.1 = updated_entries ++ copies
    /\ h ⊆ out.2
    /\ NoDup copies
    /\ Forall (fun entry_copy => h !! entry_copy = None) copies
    /\ Forall2 (fun entry entry_copy =>
                  exists e, h0 !! entry = Some e
                            /\ out.2 !! entry_copy = Some (updated_entry results e))
               entries copies.
Proof.
  induction entries as [|entry entries IH]; intros updated_entries h Hsub Halloc; cbv zeta.
  - exists []. simpl. rewrite app_nil_r. repeat split; auto; constructor.
  - simpl. apply Forall_cons in Halloc as [[e He] Halloc].
    rewrite (apply_corrections_insert results entry h e) by (eapply lookup_weaken; eassumption).
    set (entry_copy := fresh (dom h)).
    assert (Hfresh : h !! entry_copy = None) by (apply not_elem_of_dom, is_fresh).
    set (h1 := <[entry_copy := updated_entry results e]> h).
    assert (Hsub1 : h ⊆ h1) by (apply insert_subseteq; assumption).
    destruct (IH (updated_entries ++ [entry_copy]) h1) as (copies & Hout & Hsub' & Hnd & Hnew & Hall).
    { etransitivity; eassumption. }
    { assumption. }
    exists (entry_copy :: copies). split; [|split; [|split; [|split]]].
    + rewrite Hout, <- app_assoc. reflexivity.
    + etransitivity; eassumption.
    + constructor; [|assumption]. intros Hin. rewrite Forall_forall in Hnew.
      specialize (Hnew _ Hin). unfold h1 in Hnew. rewrite lookup_insert_eq in Hnew. discriminate.
    + constructor; [assumption|]. eapply Forall_impl; [exact Hnew|].
      intros l Hl. simpl in Hl. eapply lookup_weaken_None; eassumption.
    + constructor; [|assumption]. exists e. split; [assumption|].
      eapply lookup_weaken; [|exact Hsub']. unfold h1. apply lookup_insert_eq.
Qed.

(** [find_result] returns the first result of [validated + mismatches]
    that has the id. *)
Lemma find_result_first results entry_id :
  match find_result results entry_id with
  | Some r =>
      Some (res_id r) = entry_id
      /\ exists before after,
          validated results ++ mismatches results = before ++ r :: after
          /\ Forall (fun r' => Some (res_id r') <> entry_id) before
  | None =>
      Forall (fun r' => Some (res_id r') <> entry_id) (validated results ++ mismatches results)
  end.
Proof.
  unfold find_result. induction (validated results ++ mismatches results) as [|r rs IH]; simpl.
  - constructor.
  - destruct (decide (Some (res_id r) = entry_id)) as [Heq|Hne].
    + rewrite bool_decide_eq_true_2 by assumption. split; [assumption|].
      exists [], rs. split; [reflexivity|constructor].
    + rewrite bool_decide_eq_false_2 by assumption.
      destruct (List.find _ rs) as [r'|].
      * destruct IH as (Hid & before & after & -> & Hbefore). split; [assumption|].
        exists (r :: before), after. split; [reflexivity|]. constructor; assumption.
      * constructor; assumption.
Qed.

(** C6, amended. [apply_corrections_to_entries] changes no dictionary
    that existed: the sequence it returns is made of new ones, one per
    entry and in order. The copy of an entry has the corrected fields
    written and the provenance note appended if and only if a result with
    its id is found among the validated and mismatch results, whether the
    corrected fields of that result are empty or not: the first such result
    is used, each of its fields with a non-empty value is written (venue
    to journal for an article, to booktitle otherwise), and the note is
    set, after the separator when there was one. The copy of any other
    entry holds what the entry holds. *)
Theorem apply_corrections_to_entries_frame results entries h :
  Forall (fun entry => is_Some (h !! entry)) entries ->
  let out := apply_corrections_to_entries results entries h in
  (forall l e, h !! l = Some e -> out.2 !! l = Some e)
  /\ NoDup out.1
  /\ Forall (fun entry_copy => h !! entry_copy = None) out.1
  /\ Forall2 (fun entry entry_copy =>
                exists e, h !! entry = Some e
                          /\ out.2 !! entry_copy = Some (updated_entry results e))
             entries out.1
  /\ (forall e,
        Forall (fun r => Some (res_id r) <> e !! "ID") (validated results ++ mismatches results) ->
        updated_entry results e = e)
  /\ (forall e r,
        r ∈ validated results ++ mismatches results -> Some (res_id r) = e !! "ID" ->
        exists r' before after,
          validated results ++ mismatches results = before ++ r' :: after
          /\ Forall (fun r0 => Some (res_id r0) <> e !! "ID") before
          /\ Some (res_id r') = e !! "ID"
          /\ updated_entry results e
             = noted_entry r' (corrected_entry e (res_corrected_fields r')))
  /\ (forall r e,
        noted_entry r e !! "note"
        = Some (if nonempty (default "" (e !! "note"))
                then default "" (e !! "note") +:+ "; Validated via "
                     +:+ str_of_method (res_search_method r)
                else "Validated via " +:+ str_of_method (res_search_method r))
        /\ forall k, k <> "note" -> noted_entry r e !! k = e !! k).
Proof.
  intros Halloc. cbv zeta. unfold apply_corrections_to_entries.
  destruct (apply_corrections_loop_spec results h entries [] h) as (copies & Hout & Hsub & Hnd & Hnew & Hall);
    [reflexivity|assumption|].
  change ([] ++ copies) with copies in Hout. rewrite Hout.
  split; [intros l e Hl; eapply lookup_weaken; eassumption|].
  split; [assumption|]. split; [assumption|]. split; [assumption|].
  split; [|split].
  - intros e Hnone. unfold updated_entry.
    pose proof (find_result_first results (e !! "ID")) as Hfind.
    destruct (find_result results (e !! "ID")) as [r|]; [|reflexivity].
    destruct Hfind as (Hid & before & after & Heq & _).
    rewrite Forall_forall in Hnone. exfalso. apply (Hnone r); [|assumption].
    rewrite Heq. apply elem_of_app. right. left.
  - intros e r Hin Hid. unfold updated_entry.
    pose proof (find_result_first results (e !! "ID")) as Hfind.
    destruct (find_result results (e !! "ID")) as [r'|].
    + destruct Hfind as (Hid' & before & after & Heq & Hbefore).
      exists r', before, after. auto.
    + rewrite Forall_forall in Hfind. exfalso. apply (Hfind r); assumption.
  - intros r e. unfold noted_entry, provenance_note. split.
    + rewrite lookup_insert_eq. destruct (nonempty (default "" (e !! "note"))); reflexivity.
    + intros k Hk. apply lookup_insert_ne. congruence.
Qed.

End Apply.

(** A validated result whose source extracted no field: a Scholar result
    without bibliographic data. *)
Definition empty_fields_result : ValidationResult unit :=
  {| res_id := "k"; res_title := "T"; res_status := "validated"; res_issues := [];
     res_corrected_fields := []; res_search_method := Some "scholar:Title";
     res_matches := [("scholar", {| match_search_method := Some "scholar:Title";
                                    match_source_data := tt;
                                    match_corrected_fields := [] |})];
     res_attempts := [("scholar", {| attempted := true; reason := "ok" |})] |}.

(** C6 as stated fails: the copy of an entry whose result carries empty
    corrected fields is not what the entry holds, because the provenance
    note is added all the same. *)
Lemma apply_corrections_notes_empty_fields :
  ~ (forall (results : Results unit) entries h,
        Forall (fun entry => is_Some (h !! entry)) entries ->
        let out := apply_corrections_to_entries results entries h in
        Forall2 (fun entry entry_copy =>
                   forall e, h !! entry = Some e ->
                     (forall r, find_result results (e !! "ID") = Some r ->
                                res_corrected_fields r = []) ->
                     out.2 !! entry_copy = Some e)
                entries out.1).
Proof.
  intros H.
  set (results := {| validated := [empty_fields_result]; mismatches := []; not_found := [] |}).
  set (e := ({[ "ID" := "k" ]} : Entry)).
  set (h := ({[ 0%nat := e ]} : heap)).
  assert (Halloc : Forall (fun entry => is_Some (h !! entry)) [0%nat]).
  { constructor; [|constructor]. exists e. reflexivity. }
  specialize (H results [0%nat] h Halloc). cbv zeta in H.
  destruct (apply_corrections_loop_spec results h [0%nat] [] h)
    as (copies & Hout & _ & _ & _ & Hall); [reflexivity|assumption|].
  unfold apply_corrections_to_entries in H.
  destruct (apply_corrections_loop results [0%nat] [] h) as [updated h'].
  cbn [fst snd] in *. change ([] ++ copies) with copies in Hout. subst updated.
  inversion Hall as [|? entry_copy ? ? (e' & He' & Hcopy) Hnil]; subst.
  inversion H as [|? ? ? ? Hsame _]; subst.
  assert (He : h !! 0%nat = Some e) by reflexivity.
  rewrite He in He'. injection He' as <-.
  rewrite (Hsame e He) in Hcopy.
  - assert (Heq : e = updated_entry results e) by congruence.
    apply (f_equal (fun x : Entry => x !! "note")) in Heq.
    vm_compute in Heq. discriminate.
  - intros r Hr. vm_compute in Hr. injection Hr as <-. reflexivity.
Qed.

(** A validator that has that one result, and a heap with one entry. *)
Definition one_result : Results unit :=
  {| validated := [empty_fields_result]; mismatches := []; not_found := [] |}.

Definition one_entry : heap := {[ 0%nat := {[ "ID" := "k" ]} ]}.

Lemma apply_corrections_to_entries_frame_witness :
  NoDup (apply_corrections_to_entries one_result [0%nat] one_entry).1
  /\ Forall2 (fun entry entry_copy =>
               exists e, one_entry !! entry = Some e
                         /\ (apply_corrections_to_entries one_result [0%nat] one_entry).2
                            !! entry_copy = Some (updated_entry one_result e))
            [0%nat] (apply_corrections_to_entries one_result [0%nat] one_entry).1.
Proof.
  destruct (apply_corrections_to_entries_frame one_result [0%nat] one_entry)
    as (_ & Hnd & _ & Hall & _).
  - constructor; [|constructor]. eexists. reflexivity.
  - split; assumption.
Defined.

End ApplyFacts.

(** ** The theorems at concrete inputs *)
Module Examples.
Import PyStr Normalize Dict Validator ValidatorFacts.
Local Open Scope list_scope.

(** A provider result is the mapping of its fields; the empty mapping is
    falsy. *)
Definition truthy_fields (r : FieldMap) : bool := negb (bool_decide (r = [])).

Definition two_decimals (q : Qc) : string := "0.00".

(** A DBLP that knows one paper, and a Scholar that knows the same
    paper. *)
Definition the_paper : FieldMap :=
  [("title", "Deep Learning"); ("author", "I Goodfellow and Y Bengio"); ("year", "2016")].

Definition one_dblp : Source unit FieldMap :=
  DBLPSource (fun q w => (Some the_paper, w)) (fun r => r).

Definition one_scholar : Source unit FieldMap :=
  ScholarSource (fun title w => (Some the_paper, w)) (fun r => r).

Definition two_sources : gmap string (Source unit FieldMap) :=
  build_sources one_dblp one_scholar one_scholar ["dblp"; "scholar"].

Definition an_entry : Entry :=
  {[ "ID" := "goodfellow2016"; "ENTRYTYPE" := "book"; "title" := "Deep learning";
     "author" := "I Goodfellow and Y Bengio"; "year" := "2015";
     "doi" := "10.1000/xyz" ]}.

Definition start : state unit := State tt [].

Example validate_entry_an_entry :
  let r := (validate_entry truthy_fields two_decimals two_sources an_entry start).1 in
  res_status r = "mismatch"
  /\ res_issues r = ["DBLP: YEAR: 2015 vs 2016"; "SCHOLAR: YEAR: 2015 vs 2016"]
  /\ res_search_method r = Some "dblp:DOI"
  /\ Dict.keys (res_matches r) = ["dblp"; "scholar"]
  /\ trace (validate_entry truthy_fields two_decimals two_sources an_entry start).2
     = [SearchByDoi "dblp" "10.1000/xyz" true; Sleep 1;
        SearchByDoi "scholar" "10.1000/xyz" false;
        SearchByTitle "scholar" "Deep learning" true; Sleep 1].
Proof. vm_compute. repeat split. Qed.

Lemma validate_entry_corrected_witness :
  exists i preferred source m,
    DEFAULT_ORDER !! i = Some preferred
    /\ two_sources !! preferred = Some source
    /\ Dict.get preferred
         (res_matches (validate_entry truthy_fields two_decimals two_sources an_entry start).1)
       = Some m
    /\ res_corrected_fields (validate_entry truthy_fields two_decimals two_sources an_entry start).1
       = match_corrected_fields m
    /\ res_search_method (validate_entry truthy_fields two_decimals two_sources an_entry start).1
       = match_search_method m.
Proof.
  destruct (validate_entry_corrected truthy_fields two_decimals two_sources an_entry start)
    as (i & preferred & source & m & Hi & Hsrc & Hm & _ & _ & Hfields & Hmethod & _).
  - vm_compute. discriminate.
  - exists i, preferred, source, m. repeat split; assumption.
Defined.

Lemma try_source_searches_witness :
  trace (try_source truthy_fields two_sources an_entry "scholar"
           (initial_result an_entry) start).2
  = [SearchByDoi "scholar" "10.1000/xyz" false;
     SearchByTitle "scholar" "Deep learning" true; Sleep 1].
Proof.
  destruct (try_source_searches truthy_fields two_sources "scholar" one_scholar an_entry
              (initial_result an_entry) start) as (Htrace & _).
  - reflexivity.
  - reflexivity.
  - rewrite Htrace. reflexivity.
Defined.

Lemma scholar_search_by_doi_none_witness :
  match Dict.get "scholar"
          (res_matches (validate_entry truthy_fields two_decimals two_sources an_entry start).1)
  with
  | Some m => match_search_method m = Some "scholar:Title"
  | None => False
  end.
Proof.
  destruct (Dict.get "scholar"
              (res_matches (validate_entry truthy_fields two_decimals two_sources an_entry start).1))
    as [m|] eqn:Hm.
  - apply (proj2 (scholar_search_by_doi_none truthy_fields two_decimals two_sources
                    (fun title w => (Some the_paper, w)) (fun r => r)) eq_refl an_entry start m Hm).
  - vm_compute in Hm. discriminate.
Defined.

Lemma normalize_string_shape_witness :
  sub_command "\textbf{Deep} learning" = "Deep" +:+ sub_command " learning".
Proof.
  apply (proj1 (proj2 (proj2 (proj2 NormalizeFacts.normalize_string_shape)))
           "textbf" "Deep" " learning"); reflexivity.
Defined.

End Examples.

(** * Further properties *)

(** ** The matching blocks stay within the two sequences *)
Module DifflibBounds.
Import Difflib DifflibTermination.
Local Open Scope nat_scope.
Local Open Scope list_scope.

Section Bounds.
Context {A : Type} `{EqDecision A}.
Variables a b : list A.

(** A best match that lies in [b[blo:bhi]]. *)
Definition within_b (blo bhi : nat) (best : block) : Prop :=
  blo <= best.1.2 /\ best.1.2 + block_size best <= bhi.

(** A row whose entry at [j] is a run that ends at [j] and starts at [blo]
    or later. *)
Definition row_from (blo : nat) (j2len : gmap nat nat) : Prop :=
  forall j k, j2len !! j = Some k -> k <= j + 1 - blo.

Lemma match_row_bounds_b i blo bhi j2len js : forall newj2len best,
  row_from blo j2len -> row_from blo newj2len -> within_b blo bhi best ->
  row_from blo (match_row i blo bhi j2len js newj2len best).1
  /\ within_b blo bhi (match_row i blo bhi j2len js newj2len best).2.
Proof.
  induction js as [|j js IH]; intros newj2len best Hrow Hnew Hbest; simpl.
  - auto.
  - destruct (j <? blo) eqn:Elo; [apply IH; assumption|].
    destruct (bhi <=? j) eqn:Ehi; [auto|].
    apply Nat.ltb_ge in Elo. apply Nat.leb_gt in Ehi.
    assert (Hk : j2len_get j2len j + 1 <= j + 1 - blo).
    { destruct j as [|j']; simpl; [lia|].
      destruct (j2len !! j') as [k|] eqn:E; simpl; [|lia]. specialize (Hrow _ _ E). lia. }
    apply IH; try assumption.
    + intros j0 k. destruct (decide (j0 = j)) as [->|Hne].
      * rewrite lookup_insert_eq. intros [= <-]. assumption.
      * rewrite lookup_insert_ne by congruence. apply Hnew.
    + destruct (block_size best <? j2len_get j2len j + 1); [|assumption].
      unfold within_b, block_size. simpl. lia.
Qed.

Lemma match_rows_bounds_b blo bhi rows : forall j2len best,
  row_from blo j2len -> within_b blo bhi best ->
  within_b blo bhi (match_rows a b blo bhi rows j2len best).
Proof.
  induction rows as [|i rows IH]; intros j2len best Hrow Hbest; simpl; [assumption|].
  destruct (a !! i) as [x|]; [|assumption].
  destruct (match_row_bounds_b i blo bhi j2len (b2j_get b x) ∅ best) as [Hrow1 Hbest1];
    try assumption.
  { intros j k Hk. rewrite lookup_empty in Hk. discriminate. }
  destruct (match_row i blo bhi j2len (b2j_get b x) ∅ best) as [newj2len best1].
  apply IH; assumption.
Qed.

Lemma extend_down_bounds_b junk alo blo hi besti : forall bestj bestsize,
  within_b blo hi (besti, bestj, bestsize) ->
  within_b blo hi (extend_down a b junk alo blo besti bestj bestsize).
Proof.
  induction besti as [|i' IH]; intros bestj bestsize Hbest; simpl; [assumption|].
  destruct bestj as [|j']; [assumption|].
  destruct ((alo <? S i') && (blo <? S j') && junk_at b junk j' && same_at a b i' j') eqn:E;
    [|assumption].
  apply IH. apply andb_true_iff in E as [E _]. apply andb_true_iff in E as [E _].
  apply andb_true_iff in E as [_ E]. apply Nat.ltb_lt in E.
  destruct Hbest as [Hlo Hhi]. unfold within_b, block_size in *. simpl in *. lia.
Qed.

Lemma extend_up_bounds_b junk blo ahi bhi n besti bestj : forall bestsize,
  within_b blo bhi (besti, bestj, bestsize) ->
  within_b blo bhi (extend_up a b junk ahi bhi n besti bestj bestsize).
Proof.
  induction n as [|n IH]; intros bestsize Hbest; simpl; [assumption|].
  destruct ((besti + bestsize <? ahi) && (bestj + bestsize <? bhi)
            && junk_at b junk (bestj + bestsize)
            && same_at a b (besti + bestsize) (bestj + bestsize)) eqn:E; [|assumption].
  apply IH. apply andb_true_iff in E as [E _]. apply andb_true_iff in E as [E _].
  apply andb_true_iff in E as [_ E]. apply Nat.ltb_lt in E.
  destruct Hbest as [Hlo Hhi]. unfold within_b, block_size in *. simpl in *. lia.
Qed.

Lemma extend_bounds_b junk alo ahi blo bhi best :
  within_b blo bhi best -> within_b blo bhi (extend a b junk alo ahi blo bhi best).
Proof.
  intros Hbest. destruct best as [[besti bestj] bestsize]. unfold extend.
  pose proof (extend_down_bounds_b junk alo blo bhi besti bestj bestsize Hbest) as Hdown.
  destruct (extend_down a b junk alo blo besti bestj bestsize) as [[i j] k].
  apply extend_up_bounds_b. assumption.
Qed.

(** The match that [find_longest_match] returns lies in the range of [b]
    it was asked about. *)
Lemma find_longest_match_bounds_b alo ahi blo bhi :
  blo <= bhi -> within_b blo bhi (find_longest_match a b alo ahi blo bhi).
Proof.
  intros Hle. unfold find_longest_match. apply extend_bounds_b, extend_bounds_b.
  apply match_rows_bounds_b.
  - intros j k Hk. rewrite lookup_empty in Hk. discriminate.
  - split; simpl; lia.
Qed.

(** The elements matched so far. *)
Definition matched (blocks : list block) : nat := sum_list (block_size <$> blocks).

(** The elements of [a], and of [b], in the ranges still to be searched. *)
Definition left_a (queue : list (nat * nat * nat * nat)) : nat :=
  sum_list ((fun '(alo, ahi, _, _) => ahi - alo) <$> queue).
Definition left_b (queue : list (nat * nat * nat * nat)) : nat :=
  sum_list ((fun '(_, _, blo, bhi) => bhi - blo) <$> queue).

Definition ordered2 (item : nat * nat * nat * nat) : Prop :=
  let '(alo, ahi, blo, bhi) := item in alo <= ahi /\ blo <= bhi.

Lemma matched_app l1 l2 : matched (l1 ++ l2) = matched l1 + matched l2.
Proof. unfold matched. rewrite fmap_app, sum_list_with_app. reflexivity. Qed.

Lemma left_a_app q1 q2 : left_a (q1 ++ q2) = left_a q1 + left_a q2.
Proof. unfold left_a. rewrite fmap_app, sum_list_with_app. reflexivity. Qed.

Lemma left_b_app q1 q2 : left_b (q1 ++ q2) = left_b q1 + left_b q2.
Proof. unfold left_b. rewrite fmap_app, sum_list_with_app. reflexivity. Qed.

(** The loop never matches more elements than the ranges hold. *)
Lemma blocks_loop_matched fuel : forall queue matching_blocks,
  Forall ordered2 queue ->
  matched (blocks_loop a b fuel queue matching_blocks) <= matched matching_blocks + left_a queue
  /\ matched (blocks_loop a b fuel queue matching_blocks) <= matched matching_blocks + left_b queue.
Proof.
  induction fuel as [|fuel IH]; intros queue matching_blocks Hord.
  - simpl. lia.
  - destruct queue as [|[[[alo ahi] blo] bhi] queue]; [simpl; lia|].
    apply Forall_cons in Hord as [[Hla Hlb] Hord]. simpl blocks_loop.
    pose proof (find_longest_match_bounds a b alo ahi blo bhi Hla) as [Hlo Hhi].
    pose proof (find_longest_match_bounds_b alo ahi blo bhi Hlb) as [Hlo' Hhi'].
    destruct (find_longest_match a b alo ahi blo bhi) as [[i j] k].
    unfold block_size in Hhi, Hhi'. simpl in Hlo, Hhi, Hlo', Hhi'.
    change (left_a ((alo, ahi, blo, bhi) :: queue)) with (ahi - alo + left_a queue).
    change (left_b ((alo, ahi, blo, bhi) :: queue)) with (bhi - blo + left_b queue).
    destruct (0 <? k) eqn:Ek.
    2:{ destruct (IH queue matching_blocks Hord). lia. }
    set (q1 := if (alo <? i) && (blo <? j) then [(alo, i, blo, j)] else []).
    set (q2 := if (i + k <? ahi) && (j + k <? bhi) then [(i + k, ahi, j + k, bhi)] else []).
    assert (Hq1 : Forall ordered2 q1 /\ left_a q1 <= i - alo /\ left_b q1 <= j - blo).
    { unfold q1. destruct ((alo <? i) && (blo <? j)).
      - split; [constructor; [simpl; lia|constructor]|]. unfold left_a, left_b. simpl. lia.
      - split; [constructor|]. unfold left_a, left_b. simpl. lia. }
    assert (Hq2 : Forall ordered2 q2 /\ left_a q2 <= ahi - (i + k) /\ left_b q2 <= bhi - (j + k)).
    { unfold q2. destruct ((i + k <? ahi) && (j + k <? bhi)).
      - split; [constructor; [simpl; lia|constructor]|]. unfold left_a, left_b. simpl. lia.
      - split; [constructor|]. unfold left_a, left_b. simpl. lia. }
    destruct Hq1 as (Ho1 & Ha1 & Hb1). destruct Hq2 as (Ho2 & Ha2 & Hb2).
    destruct (IH (q2 ++ q1 ++ queue) (matching_blocks ++ [(i, j, k)])) as [Ha Hb].
    { rewrite !Forall_app. auto. }
    rewrite matched_app, !left_a_app in Ha. rewrite matched_app, !left_b_app in Hb.
    change (matched [(i, j, k)]) with (k + 0) in Ha, Hb. lia.
Qed.

Lemma matched_insert_block x l : matched (insert_block x l) = block_size x + matched l.
Proof.
  induction l as [|y l IH]; simpl; [reflexivity|].
  destruct (block_leb x y); [reflexivity|].
  change (matched (y :: insert_block x l)) with (block_size y + matched (insert_block x l)).
  change (matched (y :: l)) with (block_size y + matched l). lia.
Qed.

Lemma matched_sort_blocks l : matched (sort_blocks l) = matched l.
Proof.
  unfold sort_blocks. induction l as [|x l IH]; simpl; [reflexivity|].
  rewrite matched_insert_block, IH. reflexivity.
Qed.

Lemma matched_collapse l : forall i1 j1 k1, matched (collapse i1 j1 k1 l) = k1 + matched l.
Proof.
  induction l as [|[[i2 j2] k2] l IH]; intros i1 j1 k1; simpl.
  - destruct (0 <? k1) eqn:E; [unfold matched; simpl; unfold block_size; simpl; lia|].
    apply Nat.ltb_ge in E. unfold matched. simpl. lia.
  - change (matched ((i2, j2, k2) :: l)) with (k2 + matched l).
    destruct ((i1 + k1 =? i2) && (j1 + k1 =? j2)).
    + rewrite IH. lia.
    + rewrite matched_app, IH. destruct (0 <? k1) eqn:E.
      * change (matched [(i1, j1, k1)]) with (k1 + 0). lia.
      * apply Nat.ltb_ge in E. change (matched []) with 0. lia.
Qed.

(** The matching blocks hold at most as many elements as either
    sequence. *)
Lemma get_matching_blocks_matched :
  matched (get_matching_blocks a b) <= length a
  /\ matched (get_matching_blocks a b) <= length b.
Proof.
  unfold get_matching_blocks. rewrite matched_app, matched_collapse, matched_sort_blocks.
  change (matched [(length a, length b, 0)]) with 0.
  destruct (blocks_loop_matched (2 * length a + 1) [(0, length a, 0, length b)] []) as [Ha Hb].
  { constructor; [simpl; lia|constructor]. }
  unfold left_a, left_b, matched in *. simpl in *. lia.
Qed.

End Bounds.
End DifflibBounds.

(** ** The ratio is between 0 and 1 *)
Module DifflibRatio.
Import Difflib DifflibBounds.
Local Open Scope nat_scope.
Local Open Scope list_scope.

Lemma calculate_ratio_bounds matches length :
  2 * matches <= length -> (0 <= calculate_ratio matches length <= 1)%Qc.
Proof.
  intros Hle. unfold calculate_ratio. destruct length as [|n]; [split; discriminate|].
  set (x := Z.of_nat (2 * matches)). set (y := Z.of_nat (S n)).
  assert (Hx : (0 <= x)%Z) by lia. assert (Hy : (0 < y)%Z) by lia.
  assert (Hxy : (x <= y)%Z) by lia. clearbody x y.
  unfold Qcle, Qcdiv, Qcmult, Qcinv, Qc_of_Z. simpl.
  rewrite !Qred_correct.
  split.
  - apply Qmult_le_0_compat.
    + unfold Qle. simpl. lia.
    + apply Qinv_le_0_compat. unfold Qle. simpl. lia.
  - apply Qle_shift_div_r.
    + unfold Qlt. simpl. lia.
    + rewrite Qmult_1_l. unfold Qle. simpl. lia.
Qed.

Section Ratio.
Context {A : Type} `{EqDecision A}.

Lemma ratio_bounds (a b : list A) : (0 <= ratio a b <= 1)%Qc.
Proof.
  unfold ratio. apply calculate_ratio_bounds.
  destruct (get_matching_blocks_matched a b) as [Ha Hb]. unfold matched in *. lia.
Qed.

End Ratio.
End DifflibRatio.

(** ** [SequenceMatcher] on sequences with no common element *)
Module DifflibDisjoint.
Import Difflib.
Local Open Scope nat_scope.
Local Open Scope list_scope.

Section Disjoint.
Context {A : Type} `{EqDecision A}.
Variables a b : list A.
Hypothesis apart : forall x, x ∈ a -> x ∉ b.

Lemma b2j_get_apart x : x ∈ a -> b2j_get b x = [].
Proof.
  intros Hx. unfold b2j_get. destruct (popular b x); [reflexivity|].
  unfold indices. induction (seq 0 (length b)) as [|j js IH]; [reflexivity|].
  rewrite filter_cons. destruct (decide (b !! j = Some x)) as [Hj|Hj]; [|assumption].
  exfalso. apply (apart x Hx). eapply list_elem_of_lookup_2. eassumption.
Qed.

Lemma match_rows_apart blo bhi rows j2len best :
  match_rows a b blo bhi rows j2len best = best.
Proof.
  revert j2len. induction rows as [|i rows IH]; intros j2len; simpl; [reflexivity|].
  destruct (a !! i) as [x|] eqn:E; [|reflexivity].
  rewrite b2j_get_apart by (eapply list_elem_of_lookup_2; eassumption).
  simpl. apply IH.
Qed.

Lemma same_at_apart i j : same_at a b i j = false.
Proof.
  unfold same_at. destruct (a !! i) as [x|] eqn:Ea; [|reflexivity].
  destruct (b !! j) as [y|] eqn:Eb; [|reflexivity].
  apply bool_decide_eq_false. intros ->.
  apply (apart y); eapply list_elem_of_lookup_2; eassumption.
Qed.

Lemma extend_apart junk alo ahi blo bhi best :
  extend a b junk alo ahi blo bhi best = best.
Proof.
  destruct best as [[besti bestj] bestsize]. unfold extend.
  assert (Hdown : extend_down a b junk alo blo besti bestj bestsize = (besti, bestj, bestsize)).
  { destruct besti as [|i']; [reflexivity|]. destruct bestj as [|j']; [reflexivity|].
    simpl. rewrite same_at_apart, andb_false_r. reflexivity. }
  rewrite Hdown. destruct (ahi - (besti + bestsize)) as [|n]; [reflexivity|].
  simpl. rewrite same_at_apart, andb_false_r. reflexivity.
Qed.

Lemma find_longest_match_apart alo ahi blo bhi :
  find_longest_match a b alo ahi blo bhi = (alo, blo, 0).
Proof. unfold find_longest_match. rewrite match_rows_apart, !extend_apart. reflexivity. Qed.

Lemma get_matching_blocks_apart :
  get_matching_blocks a b = [(length a, length b, 0)].
Proof.
  unfold get_matching_blocks.
  replace (2 * length a + 1) with (S (2 * length a)) by lia.
  simpl blocks_loop. rewrite find_longest_match_apart. simpl.
  rewrite DifflibFacts.blocks_loop_done. reflexivity.
Qed.

Lemma ratio_apart :
  ratio a b = if decide (length a + length b = 0) then 1%Qc else 0%Qc.
Proof.
  unfold ratio. rewrite get_matching_blocks_apart. simpl.
  unfold calculate_ratio. destruct (length a + length b) as [|n]; [reflexivity|].
  rewrite decide_False by lia. simpl. apply Qc_is_canon. reflexivity.
Qed.

End Disjoint.
End DifflibDisjoint.

(** ** [normalize_string] and letter case *)
Module NormalizeCase.
Import PyStr PyStrFacts Normalize NormalizeFacts.











End NormalizeCase.

(** ** Splitting what was joined *)
Module SplitFacts.
Import PyStr PyStrFacts.
Local Open Scope list_scope.

(** One step of the scan of [split]. *)
Lemma split_go_cons a p cur c s :
  split_go a p cur (String c s) =
  match strip_prefix (String a p) (String c s) with
  | Some rest => cur :: split_go a p "" rest
  | None => split_go a p (cur +:+ String c "") s
  end.
Proof.
  simp split_go.
  destruct (inspect (strip_prefix (String a p) (String c s))) as [[rest|] H];
    simpl; simpl in H; rewrite H; reflexivity.
Qed.

Lemma strip_prefix_app p r : strip_prefix p (p +:+ r) = Some r.
Proof.
  induction p as [|a p IH]; [destruct r; reflexivity|].
  rewrite append_cons. simpl. rewrite decide_True by reflexivity. assumption.
Qed.

Lemma strip_prefix_more p t x r :
  strip_prefix p t = Some r -> strip_prefix p (t +:+ x) = Some (r +:+ x).
Proof.
  revert t; induction p as [|a p IH]; intros t.
  - destruct t; simpl; intros [= <-]; destruct x; reflexivity.
  - destruct t as [|c t]; [discriminate|]. rewrite append_cons. simpl.
    destruct (decide (a = c)); [apply IH|discriminate].
Qed.

(** No occurrence of [sep] starts inside [e] when [follow] comes next. *)
Definition free (sep e follow : string) : Prop :=
  forall u c v, e = u +:+ String c v -> strip_prefix sep (String c v +:+ follow) = None.

Lemma split_go_free a p e : forall cur follow,
  free (String a p) e follow ->
  split_go a p cur (e +:+ follow) = split_go a p (cur +:+ e) follow.
Proof.
  induction e as [|c e IH]; intros cur follow Hfree.
  - rewrite append_nil_r. reflexivity.
  - rewrite append_cons, split_go_cons.
    rewrite <- append_cons, (Hfree "" c e eq_refl).
    rewrite IH.
    + rewrite append_assoc. reflexivity.
    + intros u d v ->. apply (Hfree (String c u) d v). reflexivity.
Qed.

Lemma split_go_sep a p cur rest :
  split_go a p cur (String a p +:+ rest) = cur :: split_go a p "" rest.
Proof.
  rewrite append_cons, split_go_cons, <- append_cons, strip_prefix_app. reflexivity.
Qed.

Lemma split_go_nil a p cur : split_go a p cur "" = [cur].
Proof. simp split_go. reflexivity. Qed.

(** Splitting what [join] made of pieces that hide no separator gives the
    pieces back. *)
Lemma split_go_join a p n ns : forall cur,
  Forall (fun e => forall follow, follow = "" \/ (exists rest, follow = String a p +:+ rest) ->
                     free (String a p) e follow) (n :: ns) ->
  split_go a p cur (join (String a p) (n :: ns)) = (cur +:+ n) :: ns.
Proof.
  unfold join. revert n. induction ns as [|n' ns IH]; intros n cur Hall.
  - apply Forall_cons in Hall as [Hn _]. simpl.
    rewrite <- (append_nil_r n) at 1. rewrite split_go_free by (apply Hn; left; reflexivity).
    apply split_go_nil.
  - apply Forall_cons in Hall as [Hn Hall].
    change (String.concat (String a p) (n :: n' :: ns))
      with (n +:+ (String a p +:+ String.concat (String a p) (n' :: ns))).
    rewrite split_go_free by (apply Hn; right; eauto).
    rewrite split_go_sep, IH by assumption. reflexivity.
Qed.

Lemma contains_false pat s :
  contains pat s = false -> forall u t, s = u +:+ t -> strip_prefix pat t = None.
Proof.
  induction s as [|c s IH]; intros Hc u t Hs.
  - destruct u; [|discriminate]. change ("" +:+ t) with t in Hs. subst t.
    simpl in Hc. destruct (strip_prefix pat ""); [discriminate|reflexivity].
  - simpl in Hc. destruct (strip_prefix pat (String c s)) eqn:E; [discriminate|].
    destruct u as [|d u].
    + change ("" +:+ t) with t in Hs. subst t. assumption.
    + rewrite append_cons in Hs. injection Hs as _ Hs. apply (IH Hc u t Hs).
Qed.

(** The separator of author lists. *)
Definition and_sep : string := " and ".

(** After a piece that does not match [ and ] even with a space added,
    the separator itself brings no match. *)
Lemma and_sep_follow t rest :
  nonempty t = true ->
  strip_prefix and_sep (t +:+ " ") = None ->
  strip_prefix and_sep (t +:+ (and_sep +:+ rest)) = None.
Proof.
  unfold and_sep.
  destruct t as [|c1 [|c2 [|c3 [|c4 [|c5 t]]]]]; intros Hne; [discriminate|..];
    rewrite ?append_cons; change ("" +:+ ?x) with x; simpl;
    repeat (case_decide; try subst; try reflexivity; try discriminate; simpl).
Qed.

(** A name in which [ and ] does not occur, even when a space is added at
    its end, hides no separator. *)
Lemma and_sep_free n follow :
  contains and_sep (n +:+ " ") = false ->
  follow = "" \/ (exists rest, follow = and_sep +:+ rest) ->
  free and_sep n follow.
Proof.
  intros Hc Hfollow u c v ->.
  assert (Hsp : strip_prefix and_sep (String c v +:+ " ") = None).
  { apply (contains_false _ _ Hc u). rewrite append_assoc. reflexivity. }
  destruct Hfollow as [->|[rest ->]].
  - destruct (strip_prefix and_sep (String c v +:+ "")) as [r|] eqn:E; [|reflexivity].
    rewrite append_nil_r in E. rewrite (strip_prefix_more _ _ " " _ E) in Hsp. discriminate.
  - apply and_sep_follow; [reflexivity|assumption].
Qed.

Lemma split_join_and names :
  names <> [] ->
  Forall (fun n => contains and_sep (n +:+ " ") = false) names ->
  split and_sep (join and_sep names) = names.
Proof.
  destruct names as [|n ns]; [contradiction|]. intros _ Hall.
  change (split and_sep (join and_sep (n :: ns)))
    with (split_go " " "and " "" (join (String " " "and ") (n :: ns))).
  rewrite split_go_join; [reflexivity|].
  eapply Forall_impl; [exact Hall|]. intros e He follow Hf. apply and_sep_free; assumption.
Qed.

End SplitFacts.

(** ** More on [similarity] *)
Module SimilarityFacts.
Import PyStr PyStrFacts Normalize NormalizeFacts Dict DictFacts Validator CompareFacts.
Local Open Scope list_scope.

(** X1. The similarity of two strings lies between 0 and 1: the matching
    blocks of [SequenceMatcher] never hold more elements than either
    normalised string. *)
Theorem similarity_bounds a b : (0 <= similarity a b <= 1)%Qc.
Proof. unfold similarity. apply DifflibRatio.ratio_bounds. Qed.

(** X2. When the normalised forms of two strings share no character and
    are not both empty, their similarity is 0; this covers an empty string
    against a string that is not. *)
Theorem similarity_apart a b :
  let na := list_ascii_of_string (normalize_string (Some a)) in
  let nb := list_ascii_of_string (normalize_string (Some b)) in
  (forall c, c ∈ na -> c ∉ nb) -> na <> [] \/ nb <> [] ->
  similarity a b = 0%Qc.
Proof.
  cbv zeta. intros Hapart Hne. unfold similarity.
  rewrite DifflibDisjoint.ratio_apart by assumption.
  rewrite decide_False; [reflexivity|].
  destruct (list_ascii_of_string (normalize_string (Some a)));
    destruct (list_ascii_of_string (normalize_string (Some b))); simpl; try lia.
  destruct Hne; contradiction.
Qed.

Lemma similarity_apart_witness : similarity "abc" "x-y-z" = 0%Qc.
Proof.
  apply similarity_apart.
  - vm_compute. intros c Hc Hc'.
    repeat (apply elem_of_cons in Hc as [->|Hc];
            [repeat (apply elem_of_cons in Hc' as [Hc'|Hc']; [discriminate Hc'|]); inversion Hc'|]).
    inversion Hc.
  - left. vm_compute. discriminate.
Defined.

(** Two texts with the same normalised form. *)
Definition same_normal (a b : string) : Prop :=
  normalize_string (Some a) = normalize_string (Some b).

Lemma similarity_same_normal a b : same_normal a b -> similarity a b = 1%Qc.
Proof. intros Hab. unfold similarity. rewrite Hab. apply DifflibFacts.ratio_same. Qed.



End SimilarityFacts.

(** ** Comparisons that raise no issue *)
Module CompareAgree.
Import PyStr PyStrFacts Normalize NormalizeFacts Dict DictFacts Validator CompareFacts.
Import SplitFacts SimilarityFacts.
Local Open Scope list_scope.

(** A name as a provider gives it: not blank, no whitespace around it, and
    [ and ] does not occur in it, nor at its end without the last space. *)
Definition plain_name (n : string) : Prop :=
  strip n = n /\ nonempty n = true /\ contains and_sep (n +:+ " ") = false.

(** X4. Joining names with [ and ] and turning the result into a list
    gives the names back, for names that are stripped, not blank, and in
    which [ and ] occurs neither inside nor, without its last space, at the
    end. *)
Theorem authors_to_list_join names :
  Forall plain_name names ->
  authors_to_list (AStr (join " and " names)) = names.
Proof.
  intros Hall. rewrite authors_to_list_str.
  destruct names as [|n ns]; [reflexivity|].
  pose proof (split_join_and (n :: ns)) as Hsplit. unfold and_sep in Hsplit.
  rewrite Hsplit.
  - apply stripped_clean. eapply Forall_impl; [exact Hall|]. intros x (? & ? & _). auto.
  - discriminate.
  - eapply Forall_impl; [exact Hall|]. intros x (_ & _ & ?). assumption.
Qed.

Lemma authors_to_list_join_witness :
  authors_to_list (AStr (join " and " ["Ian Goodfellow"; "Chris Anderson"; "Y. Bengio"]))
  = ["Ian Goodfellow"; "Chris Anderson"; "Y. Bengio"].
Proof.
  apply authors_to_list_join. repeat constructor.
Defined.

(** A name that ends in [ and] is cut off the next one. *)
Example authors_to_list_join_and :
  authors_to_list (AStr (join " and " ["Rock and"; "Roll"])) = ["Rock"; "and Roll"].
Proof. vm_compute. reflexivity. Qed.

Lemma not_below_one (q : Q) : (q < 1)%Q -> ~ (1 < Q2Qc q)%Qc.
Proof.
  intros Hq Hlt. unfold Qclt in Hlt. simpl in Hlt. rewrite !Qred_correct in Hlt.
  apply (Qlt_irrefl 1). eapply Qlt_trans; eassumption.
Qed.

Lemma author_mismatches_same_normal orig_authors corr_authors :
  Forall2 same_normal orig_authors corr_authors ->
  author_mismatches orig_authors corr_authors = [].
Proof.
  induction 1 as [|oa ca orig corr Hsame _ IH]; [reflexivity|]. simpl.
  rewrite (similarity_same_normal _ _ Hsame), IH.
  rewrite bool_decide_eq_false_2; [reflexivity|]. apply not_below_one. reflexivity.
Qed.

(** The venue of an entry: its booktitle, else its journal. *)
Definition venue_of (original : Entry) : string :=
  default "" (por (por (original !! "booktitle") (original !! "journal")) (Some "")).

Section Compare.
Variable format_2f : Qc -> string.

(** X5. [compare_with_corrected] reports no issue when the corrected
    fields agree with the entry: the authors name by name, the title and
    the venue up to normalisation, the year as text. A field that is
    missing on either side, and a venue or a year that is empty on either
    side, needs no agreement. *)
Theorem compare_with_corrected_agree original corrected :
  (forall o c, original !! "author" = Some o -> Dict.get "author" corrected = Some c ->
     Forall2 same_normal (authors_to_list (AStr o)) (authors_to_list (AStr c))) ->
  (forall c, Dict.get "venue" corrected = Some c -> venue_of original <> "" -> c <> "" ->
     same_normal (venue_of original) c) ->
  (forall o c, original !! "year" = Some o -> Dict.get "year" corrected = Some c ->
     o <> "" -> c <> "" -> o = c) ->
  (forall o c, original !! "title" = Some o -> Dict.get "title" corrected = Some c ->
     same_normal o c) ->
  compare_with_corrected format_2f original corrected = [].
Proof.
  intros Hauthor Hvenue Hyear Htitle. unfold compare_with_corrected.
  assert (Ha : compare_authors original corrected = []).
  { unfold compare_authors, Dict.mem.
    destruct (Dict.get "author" corrected) as [c|] eqn:Ec.
    2:{ rewrite bool_decide_eq_false_2 by (intros [? [=]]). reflexivity. }
    destruct (original !! "author") as [o|] eqn:Eo.
    2:{ rewrite (bool_decide_eq_false_2 (is_Some None)) by (intros [? [=]]).
        rewrite andb_false_r. reflexivity. }
    rewrite !bool_decide_eq_true_2 by eauto. cbn [andb author_of].
    specialize (Hauthor o c eq_refl eq_refl).
    rewrite (Forall2_length _ _ _ Hauthor), Nat.eqb_refl. cbn [negb].
    rewrite (author_mismatches_same_normal _ _ Hauthor). reflexivity. }
  assert (Hv : compare_venue original corrected = []).
  { unfold compare_venue. fold (venue_of original).
    destruct (Dict.get "venue" corrected) as [c|] eqn:Ec; simpl.
    2:{ rewrite andb_false_r. reflexivity. }
    destruct (venue_of original) as [|a v] eqn:Ev; [reflexivity|].
    destruct c as [|b c]; [reflexivity|]. cbn [nonempty andb].
    rewrite (similarity_same_normal (String a v) (String b c))
      by (apply Hvenue; [reflexivity|discriminate|discriminate]).
    rewrite bool_decide_eq_false_2; [reflexivity|]. apply not_below_one. reflexivity. }
  assert (Hy : compare_year original corrected = []).
  { unfold compare_year.
    destruct (original !! "year") as [o|] eqn:Eo; simpl; [|reflexivity].
    destruct (Dict.get "year" corrected) as [c|] eqn:Ec; simpl.
    2:{ rewrite andb_false_r. reflexivity. }
    destruct o as [|a o]; [reflexivity|]. destruct c as [|b c]; [reflexivity|].
    rewrite (Hyear (String a o) (String b c) eq_refl eq_refl) by discriminate.
    rewrite (bool_decide_eq_true_2 (String b c = String b c)) by reflexivity.
    reflexivity. }
  assert (Ht : compare_title format_2f original corrected = []).
  { unfold compare_title.
    destruct (original !! "title") as [o|] eqn:Eo; [|reflexivity].
    destruct (Dict.get "title" corrected) as [c|] eqn:Ec; [|reflexivity].
    cbv zeta. rewrite (similarity_same_normal _ _ (Htitle o c eq_refl eq_refl)).
    rewrite bool_decide_eq_false_2; [reflexivity|]. apply not_below_one. reflexivity. }
  rewrite Ha, Hv, Hy, Ht. reflexivity.
Qed.

(** X6. [compare_with_corrected] reads the fields author, venue, year and
    title of the corrected map and author, booktitle, journal, year and
    title of the entry, and nothing else: setting any other field on either
    side, a DOI for one, leaves the issues as they were. *)
Theorem compare_with_corrected_frame original corrected k v k' v' :
  k ∉ ["author"; "booktitle"; "journal"; "year"; "title"] ->
  k' ∉ ["author"; "venue"; "year"; "title"] ->
  compare_with_corrected format_2f (<[k := v]> original) (Dict.set k' v' corrected)
  = compare_with_corrected format_2f original corrected.
Proof.
  intros Hk Hk'.
  assert (Ho : forall f, f ∈ ["author"; "booktitle"; "journal"; "year"; "title"] ->
                    <[k := v]> original !! f = original !! f).
  { intros f Hf. apply lookup_insert_ne. intros ->. contradiction. }
  assert (Hc : forall f, f ∈ ["author"; "venue"; "year"; "title"] ->
                    Dict.get f (Dict.set k' v' corrected) = Dict.get f corrected).
  { intros f Hf. apply get_set_ne. intros ->. contradiction. }
  unfold compare_with_corrected, compare_authors, compare_venue, compare_year, compare_title,
    Dict.mem.
  rewrite !Ho, !Hc by set_solver. reflexivity.
Qed.

End Compare.


Lemma compare_with_corrected_agree_witness :
  compare_with_corrected (fun _ => "0.00")
    {[ "author" := "Ian Goodfellow and Yoshua Bengio"; "title" := "Deep {L}earning";
       "year" := "2016"; "journal" := "Nature" ]}
    [("title", "deep learning."); ("author", "ian goodfellow and yoshua bengio");
     ("year", "2016"); ("venue", "NATURE")]
  = [].
Proof.
  apply compare_with_corrected_agree.
  - intros o c Ho Hc. vm_compute in Ho. vm_compute in Hc.
    injection Ho as <-. injection Hc as <-.
    replace (authors_to_list (AStr "Ian Goodfellow and Yoshua Bengio"))
      with ["Ian Goodfellow"; "Yoshua Bengio"] by (vm_compute; reflexivity).
    replace (authors_to_list (AStr "ian goodfellow and yoshua bengio"))
      with ["ian goodfellow"; "yoshua bengio"] by (vm_compute; reflexivity).
    constructor; [vm_compute; reflexivity|].
    constructor; [vm_compute; reflexivity|]. constructor.
  - intros c Hc _ _. vm_compute in Hc. injection Hc as <-. vm_compute. reflexivity.
  - intros o c Ho Hc _ _. vm_compute in Ho. vm_compute in Hc.
    injection Ho as <-. injection Hc as <-. reflexivity.
  - intros o c Ho Hc. vm_compute in Ho. vm_compute in Hc.
    injection Ho as <-. injection Hc as <-. vm_compute. reflexivity.
Defined.

Lemma compare_with_corrected_frame_witness :
  compare_with_corrected (fun _ => "0.00") (<["doi" := "10.1/a"]> ∅) (Dict.set "doi" "10.1/b" [])
  = compare_with_corrected (fun _ => "0.00") ∅ [].
Proof.
  apply compare_with_corrected_frame; intros Hin;
    repeat (apply elem_of_cons in Hin as [Hin|Hin]; [discriminate Hin|]); inversion Hin.
Defined.

End CompareAgree.

(** ** The attempts, the issues and the events of a validation *)
Module DictKeys.
Import Dict DictFacts.
Local Open Scope list_scope.
Section Dict.
Context {V : Type}.
Implicit Types (d : dict V) (k : string) (v : V).

Lemma get_None_keys k d : get k d = None <-> k ∉ keys d.
Proof.
  induction d as [|[k' v'] d IH].
  - split; [intros _ Hin; inversion Hin|reflexivity].
  - change (keys ((k', v') :: d)) with (k' :: keys d). cbn [get].
    rewrite not_elem_of_cons. destruct (decide (k' = k)) as [->|Hne].
    + split; [discriminate|]. intros [? _]. contradiction.
    + rewrite IH. split; [auto|tauto].
Qed.

(** A new key goes last. *)
Lemma keys_set_new k v d : k ∉ keys d -> keys (set k v d) = keys d ++ [k].
Proof.
  induction d as [|[k' v'] d IH]; [reflexivity|].
  change (keys ((k', v') :: d)) with (k' :: keys d).
  intros [Hne Hin]%not_elem_of_cons. cbn [set].
  rewrite decide_False by congruence.
  change (keys ((k', v') :: set k v d)) with (k' :: keys (set k v d)).
  rewrite IH by assumption. reflexivity.
Qed.

End Dict.
End DictKeys.

Module ValidatorTrace.
Import PyStr Dict DictFacts DictKeys Validator ValidatorFacts.
Local Open Scope list_scope.

Section Run.
Context {W R : Type}.
Variable truthy_result : R -> bool.
Variable format_2f : Qc -> string.
Variable sources : gmap string (Source W R).

Ltac fields :=
  cbn [res_id res_title res_status res_issues res_corrected_fields res_search_method
       res_matches res_attempts set_outcome set_corrected set_match set_attempt fst snd] in *.
Ltac run := unfold sleep, log, query, bind, ret in *; simpl in *.


Lemma choose_corrected_attempts order (result : ValidationResult R) :
  res_attempts (choose_corrected order result) = res_attempts result.
Proof.
  induction order as [|preferred order IH]; simpl; [reflexivity|].
  destruct (Dict.get preferred (res_matches result)); [reflexivity|assumption].
Qed.

(** What the attempt of a configured source records. *)
Definition attempt_of (source : Source W R) (entry : Entry) : Attempt :=
  {| attempted := (should_attempt source entry).1; reason := (should_attempt source entry).2 |}.

(** A source that is configured and accepts the entry. *)
Definition accepts (entry : Entry) (source_name : string) : bool :=
  match sources !! source_name with
  | Some source => (should_attempt source entry).1
  | None => false
  end.

Lemma accepts_Some entry source_name :
  accepts entry source_name = true ->
  exists source, sources !! source_name = Some source /\ (should_attempt source entry).1 = true.
Proof. unfold accepts. destruct (sources !! source_name); [eauto|discriminate]. Qed.

Lemma try_source_attempts entry source_name result st :
  let out := try_source truthy_result sources entry source_name result st in
  res_attempts out.1
  = match sources !! source_name with
    | Some source => Dict.set source_name (attempt_of source entry) (res_attempts result)
    | None => res_attempts result
    end
  /\ (res_matches out.1 = res_matches result
      \/ (accepts entry source_name = true
          /\ exists m, res_matches out.1 = Dict.set source_name m (res_matches result))).
Proof.
  cbv zeta. unfold try_source, attempt_of, accepts.
  destruct (sources !! source_name) as [source|] eqn:Hsrc; [|split; [reflexivity|left; reflexivity]].
  destruct (should_attempt source entry) as [[] why] eqn:Hok; run;
    [|split; [reflexivity|left; reflexivity]].
  destruct (search_source _ _ _ _ _) as [[[data|] method] st']; simpl;
    [|split; [reflexivity|left; reflexivity]].
  destruct (truthy_result data); simpl; (split; [reflexivity|]); [right|left; reflexivity].
  split; [reflexivity|]. eexists. reflexivity.
Qed.

(** The attempts and the matches after the loop over the sources. *)
Lemma try_sources_attempts entry order : forall result st,
  NoDup order ->
  (forall n, n ∈ order -> n ∉ Dict.keys (res_attempts result)) ->
  let out := try_sources truthy_result sources entry order result st in
  Dict.keys (res_attempts out.1)
  = Dict.keys (res_attempts result) ++ filter (fun n => is_Some (sources !! n)) order
  /\ (forall n source, n ∈ order -> sources !! n = Some source ->
        Dict.get n (res_attempts out.1) = Some (attempt_of source entry))
  /\ (forall n, n ∉ order -> Dict.get n (res_attempts out.1) = Dict.get n (res_attempts result))
  /\ (forall n m, Dict.get n (res_matches out.1) = Some m ->
        Dict.get n (res_matches result) = Some m \/ (n ∈ order /\ accepts entry n = true)).
Proof.
  induction order as [|source_name order IH]; intros result st Hnd Hnew; cbv zeta.
  - simpl. rewrite app_nil_r. repeat split; auto. intros n source Hin. inversion Hin.
  - simpl. unfold bind.
    pose proof (try_source_attempts entry source_name result st) as [Ha Hm].
    destruct (try_source truthy_result sources entry source_name result st) as [result1 st1].
    cbn [fst snd] in Ha, Hm. apply NoDup_cons in Hnd as [Hfirst Hnd].
    assert (Hkeys1 : Dict.keys (res_attempts result1)
                     = Dict.keys (res_attempts result)
                       ++ (if decide (is_Some (sources !! source_name)) then [source_name] else [])).
    { rewrite Ha. destruct (sources !! source_name) as [source|].
      - rewrite decide_True by eauto. apply keys_set_new. apply Hnew. left.
      - rewrite decide_False by (intros [? [=]]). rewrite app_nil_r. reflexivity. }
    destruct (IH result1 st1 Hnd) as (Hkeys & Hget & Hother & Hmatches).
    { intros n Hin. rewrite Hkeys1, elem_of_app. intros [Hold|Hone].
      - apply (Hnew n); [right; assumption|assumption].
      - destruct (decide (is_Some (sources !! source_name))); [|inversion Hone].
        apply list_elem_of_singleton in Hone. subst n. contradiction. }
    split; [|split; [|split]].
    + rewrite Hkeys, Hkeys1, filter_cons, <- app_assoc.
      destruct (decide (is_Some (sources !! source_name))); reflexivity.
    + intros n source [->|Hin]%elem_of_cons Hsrc.
      * rewrite (Hother _ Hfirst), Ha, Hsrc. apply get_set_eq.
      * apply Hget; assumption.
    + intros n [Hne Hnot]%not_elem_of_cons. rewrite (Hother _ Hnot), Ha.
      destruct (sources !! source_name); [|reflexivity]. apply get_set_ne. congruence.
    + intros n m Hn. destruct (Hmatches n m Hn) as [Hold|[Hin Hacc]].
      * destruct Hm as [Heq|(Hacc & m1 & Heq)]; rewrite Heq in Hold; [left; assumption|].
        destruct (decide (source_name = n)) as [->|Hne].
        -- right. split; [left|assumption].
        -- rewrite get_set_ne in Hold by assumption. left. assumption.
      * right. split; [right|]; assumption.
Qed.

Lemma DEFAULT_ORDER_NoDup : NoDup DEFAULT_ORDER.
Proof.
  unfold DEFAULT_ORDER. repeat constructor; intros Hin;
    repeat (apply elem_of_cons in Hin as [Hin|Hin]; [discriminate Hin|]); inversion Hin.
Qed.

Lemma validate_entry_attempts_loop entry st :
  res_attempts (validate_entry truthy_result format_2f sources entry st).1
  = res_attempts (try_sources truthy_result sources entry DEFAULT_ORDER (initial_result entry) st).1.
Proof.
  destruct (validate_entry_unfold truthy_result format_2f sources entry st)
    as (_ & _ & _ & Hnil & Hne).
  destruct (decide (res_matches
    (try_sources truthy_result sources entry DEFAULT_ORDER (initial_result entry) st).1 = []))
    as [E|E].
  - rewrite (Hnil E). reflexivity.
  - rewrite (Hne E). cbv zeta. fields. apply choose_corrected_attempts.
Qed.

(** X7. The attempts of a result list the configured sources in the order
    dblp, scholar, semantic, each with the answer of its [should_attempt];
    and a source has a match only if it is configured and its attempt is
    recorded as made. *)
Theorem validate_entry_attempts entry st :
  let r := (validate_entry truthy_result format_2f sources entry st).1 in
  Dict.keys (res_attempts r) = filter (fun n => is_Some (sources !! n)) DEFAULT_ORDER
  /\ (forall n source, n ∈ DEFAULT_ORDER -> sources !! n = Some source ->
        Dict.get n (res_attempts r)
        = Some {| attempted := (should_attempt source entry).1;
                  reason := (should_attempt source entry).2 |})
  /\ (forall n m, Dict.get n (res_matches r) = Some m ->
        exists source, n ∈ DEFAULT_ORDER /\ sources !! n = Some source
          /\ Dict.get n (res_attempts r)
             = Some {| attempted := true; reason := (should_attempt source entry).2 |}).
Proof.
  cbv zeta. rewrite validate_entry_attempts_loop.
  destruct (validate_entry_unfold truthy_result format_2f sources entry st) as (_ & -> & _).
  destruct (try_sources_attempts entry DEFAULT_ORDER (initial_result entry) st DEFAULT_ORDER_NoDup)
    as (Hkeys & Hget & _ & Hmatches).
  { intros n _ Hin. inversion Hin. }
  split; [exact Hkeys|]. split; [exact Hget|].
  intros n m Hn. destruct (Hmatches n m Hn) as [Hinit|[Hin (source & Hsrc & Hok)%accepts_Some]];
    [discriminate Hinit|].
  exists source. split; [assumption|]. split; [assumption|].
  rewrite (Hget n source Hin Hsrc). unfold attempt_of. rewrite Hok. reflexivity.
Qed.


(** *** The searches and the delays of a run *)

(** The seconds a sequence of events sleeps. *)
Definition seconds (evs : list event) : nat :=
  sum_list_with (fun e => match e with Sleep n => n | _ => 0%nat end) evs.

Definition is_search (e : event) : bool :=
  match e with Sleep _ => false | _ => true end.

(** The searches issued in a sequence of events. *)
Definition searches (evs : list event) : nat := length (filter (fun e => is_search e = true) evs).

(** An event of the round of [source_name]: a search by that source, which
    accepted the entry, for the entry's own DOI or title, or the delay of
    one second. *)
Definition round_event (entry : Entry) (source_name : string) (e : event) : Prop :=
  match e with
  | SearchByDoi n doi _ =>
      n = source_name /\ accepts entry n = true /\ entry !! "doi" = Some doi /\ doi <> ""
  | SearchByTitle n title _ =>
      n = source_name /\ accepts entry n = true /\ entry !! "title" = Some title /\ title <> ""
  | Sleep n => n = 1%nat
  end.

Lemma truthy_Some (o : option string) :
  truthy o = true -> o = Some (default "" o) /\ default "" o <> "".
Proof. destruct o as [[|c s]|]; simpl; try discriminate. intros _. split; [reflexivity|discriminate]. Qed.

Lemma seconds_app evs1 evs2 : seconds (evs1 ++ evs2) = (seconds evs1 + seconds evs2)%nat.
Proof. apply sum_list_with_app. Qed.

Lemma searches_app evs1 evs2 : searches (evs1 ++ evs2) = (searches evs1 + searches evs2)%nat.
Proof. unfold searches. rewrite filter_app, length_app. reflexivity. Qed.

(** The events of one round of the loop over the sources. *)
Lemma try_source_events entry source_name result st :
  let out := try_source truthy_result sources entry source_name result st in
  exists evs,
    trace out.2 = trace st ++ evs
    /\ Forall (round_event entry source_name) evs
    /\ seconds evs = (if accepts entry source_name then 1 else 0)%nat
    /\ (searches evs <= 2 * seconds evs)%nat.
Proof.
  cbv zeta. unfold try_source, accepts.
  destruct (sources !! source_name) as [source|] eqn:Hsrc.
  2:{ exists []. run. rewrite app_nil_r. repeat split; auto. }
  destruct (should_attempt source entry) as [[] why] eqn:Hok.
  2:{ exists []. run. rewrite app_nil_r. repeat split; auto. }
  cbn [negb fst]. unfold bind.
  destruct (search_source_cases truthy_result source_name source entry st) as (Htrace & _ & _).
  destruct (search_source truthy_result source_name source entry st) as [[found method] st1].
  cbn [fst snd] in Htrace. run. rewrite Htrace, <- !app_assoc.
  eexists. split; [reflexivity|].
  assert (Hacc : accepts entry source_name = true) by (unfold accepts; rewrite Hsrc, Hok; reflexivity).
  destruct (truthy (entry !! "doi")) eqn:Hdoi;
    [destruct (truthy_Some _ Hdoi) as [Hd Hd']|];
    (destruct (truthy (entry !! "title") && _) eqn:Htitle;
     [apply andb_true_iff in Htitle as [[Ht Ht']%truthy_Some _]|]);
    simpl; repeat split; repeat constructor; auto; lia.
Qed.

(** The events of the loop over the sources. *)
Lemma try_sources_events entry order : forall result st,
  let out := try_sources truthy_result sources entry order result st in
  exists evs,
    trace out.2 = trace st ++ evs
    /\ Forall (fun e => exists source_name, source_name ∈ order
                                           /\ round_event entry source_name e) evs
    /\ seconds evs = length (filter (fun n => accepts entry n = true) order)
    /\ (searches evs <= 2 * seconds evs)%nat.
Proof.
  induction order as [|source_name order IH]; intros result st; cbv zeta.
  - exists []. simpl. rewrite app_nil_r. repeat split; auto.
  - simpl. unfold bind.
    destruct (try_source_events entry source_name result st) as (evs1 & Ht1 & Hall1 & Hs1 & Hq1).
    destruct (try_source truthy_result sources entry source_name result st) as [result1 st1].
    cbn [fst snd] in *.
    destruct (IH result1 st1) as (evs2 & Ht2 & Hall2 & Hs2 & Hq2).
    exists (evs1 ++ evs2). split; [|split; [|split]].
    + rewrite Ht2, Ht1, app_assoc. reflexivity.
    + rewrite Forall_app. split.
      * eapply Forall_impl; [exact Hall1|]. intros e He. exists source_name. split; [left|assumption].
      * eapply Forall_impl; [exact Hall2|]. intros e (n & Hn & He). exists n. split; [right|]; assumption.
    + rewrite seconds_app, Hs1, Hs2, filter_cons.
      destruct (accepts entry source_name); [rewrite decide_True by reflexivity|
                                             rewrite decide_False by discriminate]; reflexivity.
    + rewrite searches_app, seconds_app. lia.
Qed.

(** X9. A run of [validate_entry] searches only through sources of the
    order that are configured and accepted the entry, and only for the DOI
    and the title of the entry itself, neither of them empty. It sleeps one
    second per accepting source, at most 3 seconds, and issues at most two
    searches per second slept. *)
Theorem validate_entry_searches entry st :
  let out := validate_entry truthy_result format_2f sources entry st in
  exists evs,
    trace out.2 = trace st ++ evs
    /\ Forall (fun e => exists source_name, source_name ∈ DEFAULT_ORDER
                                           /\ round_event entry source_name e) evs
    /\ seconds evs = length (filter (fun n => accepts entry n = true) DEFAULT_ORDER)
    /\ (seconds evs <= 3)%nat
    /\ (searches evs <= 2 * seconds evs)%nat.
Proof.
  cbv zeta.
  destruct (validate_entry_unfold truthy_result format_2f sources entry st) as (-> & _).
  destruct (try_sources_events entry DEFAULT_ORDER (initial_result entry) st)
    as (evs & Ht & Hall & Hs & Hq).
  exists evs. repeat split; try assumption.
  rewrite Hs. etransitivity; [apply length_filter|]. reflexivity.
Qed.

(** The events of the loop of [validate_all]. *)
Lemma validate_each_events entries : forall results st,
  let out := validate_each truthy_result format_2f sources entries results st in
  exists evs,
    trace out.2 = trace st ++ evs
    /\ seconds evs
       = (2 * length entries
          + sum_list ((fun entry => length (filter (fun n => accepts entry n = true) DEFAULT_ORDER))
                        <$> entries))%nat
    /\ (searches evs + 4 * length entries <= 2 * seconds evs)%nat.
Proof.
  induction entries as [|entry entries IH]; intros results st; cbv zeta.
  - exists []. simpl. rewrite app_nil_r. repeat split; auto.
  - simpl validate_each. unfold bind.
    destruct (validate_entry_unfold truthy_result format_2f sources entry st) as (Hst & _).
    destruct (try_sources_events entry DEFAULT_ORDER (initial_result entry) st)
      as (evs1 & Ht1 & _ & Hs1 & Hq1).
    rewrite <- Hst in Ht1.
    destruct (validate_entry truthy_result format_2f sources entry st) as [r st1].
    cbn [fst snd] in *. run.
    destruct (IH (bucket r results) (State (world st1) (trace st1 ++ [Sleep 2])))
      as (evs2 & Ht2 & Hs2 & Hq2).
    exists (evs1 ++ [Sleep 2] ++ evs2). split; [|split].
    + rewrite Ht2. simpl. rewrite Ht1, <- !app_assoc. reflexivity.
    + rewrite !seconds_app, Hs1, Hs2. change (seconds [Sleep 2]) with 2%nat.
      unfold fmap. lia.
    + rewrite !searches_app, !seconds_app. change (searches [Sleep 2]) with 0%nat.
      change (seconds [Sleep 2]) with 2%nat. cbn [length]. lia.
Qed.

(** X10. A run of [validate_all] over n entries sleeps two seconds per
    entry and one second per source that accepts it: between 2n and 5n
    seconds in all, with at most 6n searches. *)
Theorem validate_all_pacing entries results st :
  let out := validate_all truthy_result format_2f sources entries results st in
  exists evs,
    trace out.2 = trace st ++ evs
    /\ seconds evs
       = (2 * length entries
          + sum_list ((fun entry => length (filter (fun n => accepts entry n = true) DEFAULT_ORDER))
                        <$> entries))%nat
    /\ (2 * length entries <= seconds evs <= 5 * length entries)%nat
    /\ (searches evs <= 6 * length entries)%nat.
Proof.
  cbv zeta.
  assert (Heach : validate_all truthy_result format_2f sources entries results st
                  = validate_each truthy_result format_2f sources entries results st)
    by (destruct entries; reflexivity).
  rewrite Heach.
  destruct (validate_each_events entries results st) as (evs & Ht & Hs & Hq).
  exists evs. split; [assumption|]. split; [assumption|].
  assert (Hsum : (sum_list ((fun entry => length (filter (fun n => accepts entry n = true)
                                                   DEFAULT_ORDER)) <$> entries)
                  <= 3 * length entries)%nat).
  { clear. induction entries as [|entry entries IH]; [simpl; lia|].
    pose proof (length_filter (fun n => accepts entry n = true) DEFAULT_ORDER) as Hle.
    change (length DEFAULT_ORDER) with 3%nat in Hle.
    rewrite fmap_cons. cbn [sum_list sum_list_with length]. unfold id at 1. lia. }
  lia.
Qed.

(** The loop over the sources leaves the corrected fields and the search
    method alone. *)
Lemma try_sources_method entry order : forall result st,
  let out := try_sources truthy_result sources entry order result st in
  res_search_method out.1 = res_search_method result
  /\ res_corrected_fields out.1 = res_corrected_fields result.
Proof.
  induction order as [|source_name order IH]; intros result st; cbv zeta; [split; reflexivity|].
  simpl. unfold bind.
  assert (H1 : res_search_method (try_source truthy_result sources entry source_name result st).1
               = res_search_method result
               /\ res_corrected_fields (try_source truthy_result sources entry source_name result st).1
                  = res_corrected_fields result).
  { unfold try_source. destruct (sources !! source_name) as [source|]; [|auto].
    destruct (should_attempt source entry) as [[] why]; run; [|auto].
    destruct (search_source _ _ _ _ _) as [[[data|] method] st']; simpl; [|auto].
    destruct (truthy_result data); auto. }
  destruct (try_source truthy_result sources entry source_name result st) as [result1 st1].
  cbn [fst snd] in *. destruct (IH result1 st1) as [-> ->]. assumption.
Qed.

(** X11. A result that is not_found has no search method and no corrected
    fields; any other result has the search method [source:DOI] or
    [source:Title] of a source of the order that is configured and has a
    match. *)
Theorem validate_entry_search_method entry st :
  let r := (validate_entry truthy_result format_2f sources entry st).1 in
  (res_status r = "not_found" -> res_search_method r = None /\ res_corrected_fields r = [])
  /\ (res_status r <> "not_found" ->
      exists n, n ∈ DEFAULT_ORDER /\ is_Some (sources !! n)
        /\ is_Some (Dict.get n (res_matches r))
        /\ (res_search_method r = Some (n +:+ ":DOI")
            \/ res_search_method r = Some (n +:+ ":Title"))).
Proof.
  cbv zeta.
  pose proof (validate_entry_status truthy_result format_2f sources entry st) as Hstatus.
  pose proof (validate_entry_matches truthy_result format_2f sources entry st) as Horigin.
  destruct (validate_entry_unfold truthy_result format_2f sources entry st)
    as (_ & Hm & _ & Hnil & Hne).
  destruct (try_sources_method entry DEFAULT_ORDER (initial_result entry) st) as [Hmethod Hfields].
  cbv zeta in Hstatus. rewrite Hm in Hstatus, Horigin |- *.
  set (loop := (try_sources truthy_result sources entry DEFAULT_ORDER (initial_result entry) st).1)
    in *.
  split.
  - intros Hs. destruct Hstatus as [(E & _)|[(_ & Hs' & _)|(_ & Hs' & _)]]; [|congruence|congruence].
    rewrite (Hnil E). fields. rewrite Hmethod, Hfields. split; reflexivity.
  - intros Hs. destruct Hstatus as [(_ & Hs' & _)|[(E & _)|(E & _)]]; [contradiction| |];
      rewrite (Hne E); cbv zeta; fields;
      (destruct (choose_corrected_first DEFAULT_ORDER loop)
         as [(i & n & m & Hi & Hget & _ & ->)|[Hnone _]];
       [ destruct (Horigin _ _ (get_elem_of _ _ _ Hget))
           as (Hin & source & data & method & Hsrc & _ & -> & Hmeth);
         exists n; fields; rewrite Hget; repeat split; eauto;
         destruct Hmeth as [[-> _]| ->]; auto
       | destruct (res_matches loop) as [|[k v] matches] eqn:Ek; [contradiction|];
         assert (Hk : (k, v) ∈ (k, v) :: matches) by left;
         destruct (Horigin _ _ Hk) as [Hord _]; apply elem_of_get in Hk as [? Hk];
         rewrite (Hnone _ Hord) in Hk; discriminate ]).
Qed.

End Run.
End ValidatorTrace.

(** ** The policies of the sources and the source table *)
Module SourceFacts.
Import PyStr PyStrFacts Dict DictFacts DictKeys Validator ValidatorFacts ValidatorTrace InitModel.
Local Open Scope list_scope.

(** X12. For each of the three sources, the reason that [should_attempt]
    returns is [ok] exactly when the entry is to be attempted; and Semantic
    Scholar attempts every entry that Scholar attempts. *)
Theorem should_attempt_reason entry :
  ((dblp_should_attempt entry).1 = true <-> (dblp_should_attempt entry).2 = "ok")
  /\ ((scholar_should_attempt entry).1 = true <-> (scholar_should_attempt entry).2 = "ok")
  /\ ((semantic_should_attempt entry).1 = true <-> (semantic_should_attempt entry).2 = "ok")
  /\ ((scholar_should_attempt entry).1 = true -> (semantic_should_attempt entry).1 = true).
Proof.
  split; [|split; [|split]].
  - unfold dblp_should_attempt.
    destruct (List.find _ skip_patterns) as [pattern|]; cbn [fst snd].
    { rewrite append_cons. split; discriminate. }
    destruct (bool_decide (lower (default "" (entry !! "ENTRYTYPE")) = "online")
              && negb (truthy (entry !! "doi"))); cbn [fst snd]; [split; discriminate|].
    destruct (bool_decide (lower (default "" (entry !! "ENTRYTYPE")) ∈ ["techreport"; "misc"; "manual"]))
      eqn:Etype; cbn [andb]; [|tauto].
    destruct (negb (truthy (entry !! "doi"))); cbn [fst snd]; [|tauto].
    apply bool_decide_eq_true in Etype.
    repeat (apply elem_of_cons in Etype as [->|Etype]; [split; discriminate|]).
    inversion Etype.
  - unfold scholar_should_attempt. destruct (negb _); cbn [fst snd]; [split; discriminate|tauto].
  - unfold semantic_should_attempt. destruct (_ && _); cbn [fst snd]; [split; discriminate|tauto].
  - unfold scholar_should_attempt, semantic_should_attempt.
    destruct (truthy (entry !! "title")); cbn [negb fst snd]; [|discriminate].
    rewrite andb_false_r. reflexivity.
Qed.

Section Sources.
Context {W R : Type}.
Variables dblp scholar semantic : Source W R.

(** The source that [build_sources] constructs for a name. *)
Definition default_source (source_name : string) : option (Source W R) :=
  if bool_decide (source_name = "dblp") then Some dblp
  else if bool_decide (source_name = "scholar") then Some scholar
  else if bool_decide (source_name = "semantic") then Some semantic
  else None.

Lemma build_sources_get selected source_name :
  build_sources dblp scholar semantic selected !! source_name
  = if bool_decide (source_name ∈ selected) then default_source source_name else None.
Proof.
  unfold build_sources, DEFAULT_ORDER, default_source. cbn [foldl].
  change (bool_decide ("dblp" = "dblp")) with true.
  change (bool_decide ("scholar" = "scholar")) with true.
  change (bool_decide ("semantic" = "semantic")) with true.
  change (bool_decide ("scholar" = "dblp")) with false.
  change (bool_decide ("semantic" = "dblp")) with false.
  change (bool_decide ("semantic" = "scholar")) with false.
  cbv iota.
  destruct (decide (source_name = "dblp")) as [->|Hd];
    [|destruct (decide (source_name = "scholar")) as [->|Hs];
      [|destruct (decide (source_name = "semantic")) as [->|Hm]]].
  - change (bool_decide ("dblp" = "dblp")) with true. cbv iota.
    destruct (bool_decide ("dblp" ∈ selected)), (bool_decide ("scholar" ∈ selected)),
      (bool_decide ("semantic" ∈ selected));
      rewrite ?lookup_insert_eq, ?lookup_insert_ne, ?lookup_empty by discriminate; reflexivity.
  - change (bool_decide ("scholar" = "dblp")) with false.
    change (bool_decide ("scholar" = "scholar")) with true. cbv iota.
    destruct (bool_decide ("dblp" ∈ selected)), (bool_decide ("scholar" ∈ selected)),
      (bool_decide ("semantic" ∈ selected));
      rewrite ?lookup_insert_eq, ?lookup_insert_ne, ?lookup_empty by discriminate; reflexivity.
  - change (bool_decide ("semantic" = "dblp")) with false.
    change (bool_decide ("semantic" = "scholar")) with false.
    change (bool_decide ("semantic" = "semantic")) with true. cbv iota.
    destruct (bool_decide ("dblp" ∈ selected)), (bool_decide ("scholar" ∈ selected)),
      (bool_decide ("semantic" ∈ selected));
      rewrite ?lookup_insert_eq, ?lookup_insert_ne, ?lookup_empty by discriminate; reflexivity.
  - rewrite !(bool_decide_eq_false_2 (source_name = _)) by assumption.
    destruct (bool_decide ("dblp" ∈ selected)), (bool_decide ("scholar" ∈ selected)),
      (bool_decide ("semantic" ∈ selected));
      rewrite ?lookup_insert_ne, ?lookup_empty by congruence;
      destruct (bool_decide (source_name ∈ selected)); reflexivity.
Qed.

(** X13. [build_sources] maps a name to its source exactly when the name
    is selected and is one of dblp, scholar, semantic. The order of the
    selection, repetitions in it and unknown names in it make no
    difference, and the table is empty exactly when no default name is
    selected. *)
Theorem build_sources_selected selected :
  (forall source_name,
     build_sources dblp scholar semantic selected !! source_name
     = if bool_decide (source_name ∈ selected) then default_source source_name else None)
  /\ (forall selected', (forall n, n ∈ DEFAULT_ORDER -> n ∈ selected <-> n ∈ selected') ->
        build_sources dblp scholar semantic selected
        = build_sources dblp scholar semantic selected')
  /\ (build_sources dblp scholar semantic selected = ∅
      <-> forall n, n ∈ DEFAULT_ORDER -> n ∉ selected).
Proof.
  assert (Hdefault : forall n, n ∉ DEFAULT_ORDER -> default_source n = None).
  { intros n Hn. unfold default_source, DEFAULT_ORDER in *.
    rewrite !not_elem_of_cons in Hn. destruct Hn as (? & ? & ? & _).
    rewrite !bool_decide_eq_false_2 by assumption. reflexivity. }
  assert (Hsome : forall n, n ∈ DEFAULT_ORDER -> is_Some (default_source n)).
  { intros n Hn. unfold DEFAULT_ORDER in Hn.
    repeat (apply elem_of_cons in Hn as [->|Hn]; [vm_compute; eauto|]). inversion Hn. }
  split; [apply build_sources_get|]. split.
  - intros selected' Hsame. apply map_eq. intros n. rewrite !build_sources_get.
    destruct (decide (n ∈ DEFAULT_ORDER)) as [Hn|Hn].
    + rewrite (bool_decide_ext _ _ (Hsame n Hn)). reflexivity.
    + rewrite (Hdefault n Hn). destruct (bool_decide _), (bool_decide _); reflexivity.
  - split.
    + intros Hempty n Hn Hsel.
      pose proof (build_sources_get selected n) as Hget.
      rewrite Hempty, lookup_empty, bool_decide_eq_true_2 in Hget by assumption.
      destruct (Hsome n Hn) as [x Hx]. congruence.
    + intros Hnone. apply map_eq. intros n. rewrite build_sources_get, lookup_empty.
      destruct (decide (n ∈ DEFAULT_ORDER)) as [Hn|Hn].
      * rewrite bool_decide_eq_false_2 by (apply Hnone; assumption). reflexivity.
      * rewrite (Hdefault n Hn). destruct (bool_decide _); reflexivity.
Qed.

Variable truthy_result : R -> bool.
Variable format_2f : Qc -> string.

(** X14. A validator that is given no source table, or an empty one,
    works with all three default sources: an empty table does not mean no
    source, and every result then records an attempt for dblp, scholar and
    semantic. *)
Theorem init_sources_default given entry st :
  given = None \/ given = Some ∅ ->
  let sources := init_sources dblp scholar semantic given in
  sources = build_sources dblp scholar semantic DEFAULT_ORDER
  /\ (forall n, n ∈ DEFAULT_ORDER -> sources !! n = default_source n)
  /\ Dict.keys (res_attempts (validate_entry truthy_result format_2f sources entry st).1)
     = DEFAULT_ORDER.
Proof.
  intros Hgiven. cbv zeta.
  assert (Hinit : init_sources dblp scholar semantic given
                  = build_sources dblp scholar semantic DEFAULT_ORDER).
  { destruct Hgiven as [->| ->]; [reflexivity|]. unfold init_sources.
    rewrite decide_True by reflexivity. reflexivity. }
  rewrite Hinit. split; [reflexivity|].
  assert (Hget : forall n, n ∈ DEFAULT_ORDER ->
            build_sources dblp scholar semantic DEFAULT_ORDER !! n = default_source n).
  { intros n Hn. rewrite build_sources_get, bool_decide_eq_true_2 by assumption. reflexivity. }
  split; [exact Hget|].
  rewrite validate_entry_attempts_loop.
  destruct (try_sources_attempts truthy_result
              (build_sources dblp scholar semantic DEFAULT_ORDER)
              entry DEFAULT_ORDER (initial_result entry) st DEFAULT_ORDER_NoDup) as (-> & _).
  { intros n _ Hin. inversion Hin. }
  change (Dict.keys (res_attempts (initial_result entry))) with (@nil string).
  cbn [app]. clear -Hget.
  assert (Hall : forall n, n ∈ DEFAULT_ORDER ->
            is_Some (build_sources dblp scholar semantic DEFAULT_ORDER !! n)).
  { intros n Hn. rewrite (Hget n Hn). unfold DEFAULT_ORDER in Hn.
    repeat (apply elem_of_cons in Hn as [->|Hn]; [vm_compute; eauto|]). inversion Hn. }
  revert Hall. generalize (build_sources dblp scholar semantic DEFAULT_ORDER).
  generalize DEFAULT_ORDER. intros order table Hall.
  induction order as [|n order IH]; [reflexivity|].
  rewrite filter_cons_True by (apply Hall; left). rewrite IH; [reflexivity|].
  intros n' Hn'. apply Hall. right. assumption.
Qed.

End Sources.

(** The table of a validator that was given an empty one. *)
Lemma init_sources_default_witness :
  init_sources Examples.one_dblp Examples.one_scholar Examples.one_scholar (Some ∅) !! "semantic"
  = Some Examples.one_scholar.
Proof.
  destruct (init_sources_default Examples.one_dblp Examples.one_scholar Examples.one_scholar
              Examples.truthy_fields Examples.two_decimals (Some ∅) Examples.an_entry
              Examples.start) as (_ & Hget & _).
  - right. reflexivity.
  - apply Hget. right. right. left.
Defined.

Lemma build_sources_selected_witness :
  build_sources Examples.one_dblp Examples.one_scholar Examples.one_scholar ["scholar"; "dblp"; "dblp"]
  = build_sources Examples.one_dblp Examples.one_scholar Examples.one_scholar ["dblp"; "scholar"].
Proof.
  apply (proj1 (proj2 (build_sources_selected Examples.one_dblp Examples.one_scholar
                         Examples.one_scholar ["scholar"; "dblp"; "dblp"]))).
  intros n _. rewrite !elem_of_cons. tauto.
Defined.

End SourceFacts.

(** ** The fields that the corrections write *)
Module ApplyFields.
Import PyStr Dict DictFacts DictKeys Validator ApplyFacts.
Local Open Scope list_scope.

Section Apply.
Context {R : Type}.
Implicit Types (h : heap) (e : Entry) (results : Results R).

(** The field of the copy that receives the corrected field [field]. *)
Definition target (entry : Entry) (field : string) : string :=
  if bool_decide (field = "venue") then
    if bool_decide (entry !! "ENTRYTYPE" = Some "article") then "journal" else "booktitle"
  else field.

Lemma write_field_lookup entry e field value k :
  write_field entry e (field, value) !! k
  = if nonempty value && bool_decide (target entry field = k) then Some value else e !! k.
Proof.
  unfold write_field, target. destruct (nonempty value); [|reflexivity]. cbn [andb].
  destruct (bool_decide (field = "venue"));
    [destruct (bool_decide (entry !! "ENTRYTYPE" = Some "article"))|];
    (case_bool_decide as Hk; [subst k; apply lookup_insert_eq|apply lookup_insert_ne; assumption]).
Qed.

(** A field that no corrected field with a value is written to keeps its
    value. *)
Lemma corrected_frame entry corrected k : forall cur,
  (forall f v, (f, v) ∈ corrected -> nonempty v = true -> target entry f <> k) ->
  foldl (write_field entry) cur corrected !! k = cur !! k.
Proof.
  induction corrected as [|[f v] corrected IH]; intros cur Hno; [reflexivity|].
  cbn [foldl]. rewrite IH by (intros f' v' Hin; apply Hno; right; assumption).
  rewrite write_field_lookup. destruct (nonempty v) eqn:Hv; [|reflexivity].
  rewrite bool_decide_eq_false_2; [reflexivity|]. apply (Hno f v); [left|assumption].
Qed.

(** The field that one corrected field alone is written to holds its
    value. *)
Lemma corrected_written entry corrected k f0 v : forall cur,
  NoDup (Dict.keys corrected) -> Dict.get f0 corrected = Some v -> nonempty v = true ->
  target entry f0 = k ->
  (forall f v', (f, v') ∈ corrected -> nonempty v' = true -> target entry f = k -> f = f0) ->
  foldl (write_field entry) cur corrected !! k = Some v.
Proof.
  induction corrected as [|[f v'] corrected IH]; intros cur Hnd Hget Hv Hk Honly; [discriminate|].
  change (Dict.keys ((f, v') :: corrected)) with (f :: Dict.keys corrected) in Hnd.
  apply NoDup_cons in Hnd as [Hf Hnd]. cbn [foldl Dict.get] in *.
  destruct (decide (f = f0)) as [->|Hne].
  - injection Hget as ->. rewrite corrected_frame.
    + rewrite write_field_lookup, Hv, bool_decide_eq_true_2 by assumption. reflexivity.
    + intros f v' Hin Hv' Hk'. apply Hf.
      rewrite <- (Honly f v' (list_elem_of_further _ _ _ Hin) Hv' Hk').
      apply list_elem_of_fmap. exists (f, v'). split; [reflexivity|assumption].
  - apply IH; try assumption. intros f' v'' Hin. apply Honly. right. assumption.
Qed.

Lemma noted_entry_other (r : ValidationResult R) e k :
  k <> "note" -> noted_entry r e !! k = e !! k.
Proof. intros Hk. unfold noted_entry. apply lookup_insert_ne. congruence. Qed.

(** What each copy holds, entry by entry. *)
Lemma apply_corrections_copies results entries h :
  Forall (fun entry => is_Some (h !! entry)) entries ->
  let out := apply_corrections_to_entries results entries h in
  Forall2 (fun entry entry_copy =>
             exists e, h !! entry = Some e
                       /\ out.2 !! entry_copy = Some (updated_entry results e))
          entries out.1.
Proof.
  intros Halloc. cbv zeta. unfold apply_corrections_to_entries.
  destruct (apply_corrections_loop_spec results h entries [] h)
    as (copies & Hout & _ & _ & _ & Hall); [reflexivity|assumption|].
  change ([] ++ copies) with copies in Hout. rewrite Hout. assumption.
Qed.

(** X15. [apply_corrections_to_entries] never writes a field named venue;
    and a field other than note, journal and booktitle is the same in the
    copy as in the entry unless the corrected fields of the result found
    for the entry hold a non-empty value under that very name. *)
Theorem apply_corrections_keeps_fields results entries h :
  Forall (fun entry => is_Some (h !! entry)) entries ->
  let out := apply_corrections_to_entries results entries h in
  Forall2 (fun entry entry_copy =>
             read entry_copy "venue" out.2 = read entry "venue" h
             /\ forall k, k ∉ ["note"; "journal"; "booktitle"] ->
                  (forall r v, find_result results (read entry "ID" h) = Some r ->
                               (k, v) ∈ res_corrected_fields r -> v = "") ->
                  read entry_copy k out.2 = read entry k h)
          entries out.1.
Proof.
  intros Halloc. cbv zeta.
  eapply Forall2_impl; [apply apply_corrections_copies; assumption|].
  intros entry entry_copy (e & He & Hcopy). cbv beta in Hcopy |- *.
  unfold read. rewrite He, Hcopy. cbn [mbind option_bind]. unfold updated_entry.
  destruct (find_result results (e !! "ID")) as [r|]; [|split; reflexivity]. split.
  - rewrite noted_entry_other by discriminate. apply corrected_frame.
    intros f v _ _. unfold target. destruct (decide (f = "venue")) as [->|Hf].
    + rewrite bool_decide_eq_true_2 by reflexivity. destruct (bool_decide _); discriminate.
    + rewrite bool_decide_eq_false_2 by assumption. assumption.
  - intros k Hk Hempty. rewrite !not_elem_of_cons in Hk. destruct Hk as (Hn & Hj & Hb & _).
    rewrite noted_entry_other by assumption. apply corrected_frame.
    intros f v Hin Hv. unfold target. destruct (decide (f = "venue")) as [->|Hf].
    + rewrite bool_decide_eq_true_2 by reflexivity. destruct (bool_decide _); congruence.
    + rewrite bool_decide_eq_false_2 by assumption. intros ->.
      rewrite (Hempty r v eq_refl Hin) in Hv. discriminate.
Qed.

(** X16. A non-empty corrected venue is stored under journal when the
    ENTRYTYPE of the entry is exactly [article], and under booktitle
    otherwise; the other of the two fields is left as it was. The corrected
    fields are those of a dictionary (distinct keys) that has neither
    journal nor booktitle. *)
Theorem apply_corrections_venue results entries h :
  Forall (fun entry => is_Some (h !! entry)) entries ->
  let out := apply_corrections_to_entries results entries h in
  Forall2 (fun entry entry_copy =>
             forall r venue,
               find_result results (read entry "ID" h) = Some r ->
               NoDup (Dict.keys (res_corrected_fields r)) ->
               Dict.get "venue" (res_corrected_fields r) = Some venue -> venue <> "" ->
               Dict.get "journal" (res_corrected_fields r) = None ->
               Dict.get "booktitle" (res_corrected_fields r) = None ->
               if bool_decide (read entry "ENTRYTYPE" h = Some "article")
               then read entry_copy "journal" out.2 = Some venue
                    /\ read entry_copy "booktitle" out.2 = read entry "booktitle" h
               else read entry_copy "booktitle" out.2 = Some venue
                    /\ read entry_copy "journal" out.2 = read entry "journal" h)
          entries out.1.
Proof.
  intros Halloc. cbv zeta.
  eapply Forall2_impl; [apply apply_corrections_copies; assumption|].
  intros entry entry_copy (e & He & Hcopy) r venue. cbv beta in Hcopy |- *.
  unfold read. rewrite He, Hcopy. cbn [mbind option_bind]. unfold updated_entry.
  intros -> Hnd Hvenue Hne Hj Hb.
  assert (Hv : nonempty venue = true) by (destruct venue; [contradiction|reflexivity]).
  rewrite !noted_entry_other by discriminate.
  assert (Habsent : forall f v, Dict.get f (res_corrected_fields r) = None ->
                      (f, v) ∈ res_corrected_fields r -> False).
  { intros f v Hnone Hin. apply elem_of_get in Hin as [x Hx]. congruence. }
  destruct (bool_decide (e !! "ENTRYTYPE" = Some "article")) eqn:Etype; split.
  - apply (corrected_written e _ "journal" "venue" venue); try assumption.
    + unfold target. rewrite bool_decide_eq_true_2 by reflexivity. rewrite Etype. reflexivity.
    + intros f v Hin _. unfold target. destruct (decide (f = "venue")) as [->|Hf]; [reflexivity|].
      rewrite bool_decide_eq_false_2 by assumption. intros ->. destruct (Habsent _ _ Hj Hin).
  - apply corrected_frame. intros f v Hin _. unfold target.
    destruct (decide (f = "venue")) as [->|Hf].
    + rewrite bool_decide_eq_true_2 by reflexivity. rewrite Etype. discriminate.
    + rewrite bool_decide_eq_false_2 by assumption. intros ->. destruct (Habsent _ _ Hb Hin).
  - apply (corrected_written e _ "booktitle" "venue" venue); try assumption.
    + unfold target. rewrite bool_decide_eq_true_2 by reflexivity. rewrite Etype. reflexivity.
    + intros f v Hin _. unfold target. destruct (decide (f = "venue")) as [->|Hf]; [reflexivity|].
      rewrite bool_decide_eq_false_2 by assumption. intros ->. destruct (Habsent _ _ Hb Hin).
  - apply corrected_frame. intros f v Hin _. unfold target.
    destruct (decide (f = "venue")) as [->|Hf].
    + rewrite bool_decide_eq_true_2 by reflexivity. rewrite Etype. discriminate.
    + rewrite bool_decide_eq_false_2 by assumption. intros ->. destruct (Habsent _ _ Hj Hin).
Qed.

(** X17. The copy of an entry without ID holds what the entry holds,
    whatever the results are: the id [unknown] that its result was given is
    never looked up. *)
Theorem apply_corrections_without_id results entries h :
  Forall (fun entry => is_Some (h !! entry)) entries ->
  let out := apply_corrections_to_entries results entries h in
  Forall2 (fun entry entry_copy =>
             read entry "ID" h = None -> out.2 !! entry_copy = h !! entry)
          entries out.1.
Proof.
  intros Halloc. cbv zeta.
  eapply Forall2_impl; [apply apply_corrections_copies; assumption|].
  intros entry entry_copy (e & He & Hcopy) Hid. cbv beta in Hcopy.
  unfold read in Hid. rewrite He in Hid. cbn [mbind option_bind] in Hid.
  rewrite He, Hcopy. f_equal. unfold updated_entry, find_result. rewrite Hid.
  induction (validated results ++ mismatches results) as [|r rs IH]; [reflexivity|].
  cbn [List.find]. rewrite bool_decide_eq_false_2 by discriminate. assumption.
Qed.

End Apply.
End ApplyFields.

(** ** Validation followed by the corrections *)
Module PipelineFacts.
Import PyStr Dict DictFacts Validator ValidatorFacts ApplyFacts ApplyFields.
Local Open Scope list_scope.

Section Run.
Context {W R : Type}.
Variable truthy_result : R -> bool.
Variable format_2f : Qc -> string.
Variable sources : gmap string (Source W R).

(** The id of a result is the ID of its entry. *)
Lemma validate_entry_id entry st :
  res_id (validate_entry truthy_result format_2f sources entry st).1
  = default "unknown" (entry !! "ID").
Proof.
  destruct (validate_entry_unfold truthy_result format_2f sources entry st) as (_ & _ & -> & _).
  destruct (try_sources_spec truthy_result sources entry DEFAULT_ORDER (initial_result entry) st)
    as (evs & _ & _ & _ & _ & -> & _).
  reflexivity.
Qed.

Lemma fmap_NoDup_inj {A B} (f : A -> B) (l : list A) x y :
  NoDup (f <$> l) -> x ∈ l -> y ∈ l -> f x = f y -> x = y.
Proof.
  induction l as [|z l IH]; intros Hnd Hx Hy Hxy; [inversion Hx|].
  rewrite fmap_cons in Hnd. apply NoDup_cons in Hnd as [Hz Hnd].
  apply elem_of_cons in Hx as [->|Hx]; apply elem_of_cons in Hy as [->|Hy].
  - reflexivity.
  - exfalso. apply Hz. rewrite Hxy. apply list_elem_of_fmap. eauto.
  - exfalso. apply Hz. rewrite <- Hxy. apply list_elem_of_fmap. eauto.
  - apply IH; assumption.
Qed.

(** Among results with distinct ids, the search by the id of a result
    finds that very result, if it is validated or a mismatch. *)
Lemma find_result_own (rs : list (ValidationResult R)) r :
  NoDup (res_id <$> rs) -> r ∈ rs ->
  find_result {| validated := filter (fun r => res_status r = "validated") rs;
                 mismatches := filter (fun r => res_status r = "mismatch") rs;
                 not_found := filter (fun r => res_status r = "not_found") rs |}
              (Some (res_id r))
  = if decide (res_status r = "validated" \/ res_status r = "mismatch") then Some r else None.
Proof.
  intros Hnd Hr. unfold find_result. cbn [validated mismatches].
  set (found := filter (fun r => res_status r = "validated") rs
                ++ filter (fun r => res_status r = "mismatch") rs).
  assert (Hfound : forall r', r' ∈ found <->
            r' ∈ rs /\ (res_status r' = "validated" \/ res_status r' = "mismatch")).
  { intros r'. unfold found. rewrite elem_of_app, !list_elem_of_filter. tauto. }
  destruct (List.find _ found) as [r'|] eqn:Hfind.
  - apply find_some in Hfind as [Hin Hid]. apply list_elem_of_In, Hfound in Hin as [Hin Hs].
    apply bool_decide_eq_true in Hid. injection Hid as Hid.
    assert (r' = r) as -> by (eapply fmap_NoDup_inj; eassumption).
    rewrite decide_True by assumption. reflexivity.
  - destruct (decide (res_status r = "validated" \/ res_status r = "mismatch")) as [Hs|Hs];
      [|reflexivity].
    assert (Hin : r ∈ found) by (apply Hfound; auto).
    apply list_elem_of_In in Hin. apply (find_none _ _ Hfind) in Hin.
    apply bool_decide_eq_false in Hin. contradiction.
Qed.

(** X18. After [validate_all] on entries with pairwise distinct IDs,
    [apply_corrections_to_entries] gives every entry the corrections of its
    own result: the copy of an entry whose result is not_found holds what
    the entry holds, and the copy of any other entry has the corrected
    fields of its result written and its provenance note added. *)
Theorem validate_all_then_apply entries h st :
  Forall (fun entry => is_Some (h !! entry)) entries ->
  Forall (fun entry => is_Some (read entry "ID" h)) entries ->
  NoDup ((fun entry => read entry "ID" h) <$> entries) ->
  let contents := (fun entry => h !!! entry) <$> entries in
  let results := (validate_all truthy_result format_2f sources contents no_results st).1 in
  let out := apply_corrections_to_entries results entries h in
  exists rs,
    Forall2 (fun e r => exists st0, r = (validate_entry truthy_result format_2f sources e st0).1)
            contents rs
    /\ forall i entry r entry_copy,
         entries !! i = Some entry -> rs !! i = Some r -> out.1 !! i = Some entry_copy ->
         out.2 !! entry_copy
         = Some (if decide (res_status r = "not_found") then h !!! entry
                 else noted_entry r (corrected_entry (h !!! entry) (res_corrected_fields r))).
Proof.
  intros Halloc Hids Hnd. cbv zeta.
  set (contents := (fun entry => h !!! entry) <$> entries).
  assert (Heach : validate_all truthy_result format_2f sources contents no_results st
                  = validate_each truthy_result format_2f sources contents no_results st)
    by (destruct contents; reflexivity).
  rewrite Heach.
  destruct (validate_each_spec truthy_result format_2f sources contents no_results st)
    as (rs & Hrs & Hv & Hm & Hn).
  cbn [validated mismatches not_found no_results app] in Hv, Hm, Hn.
  set (results := (validate_each truthy_result format_2f sources contents no_results st).1) in *.
  assert (Hresults : results
                     = {| validated := filter (fun r => res_status r = "validated") rs;
                          mismatches := filter (fun r => res_status r = "mismatch") rs;
                          not_found := filter (fun r => res_status r = "not_found") rs |}).
  { destruct results. cbn in Hv, Hm, Hn. subst. reflexivity. }
  exists rs. split; [assumption|].
  (* each result carries the ID of its entry and one of the three statuses *)
  assert (Hown : Forall2 (fun entry r =>
                   read entry "ID" h = Some (res_id r)
                   /\ res_status r ∈ ["validated"; "mismatch"; "not_found"]) entries rs).
  { unfold contents in Hrs. apply Forall2_fmap_l in Hrs.
    clear -Hrs Halloc Hids. induction Hrs as [|entry r entries rs [st0 ->] _ IH]; [constructor|].
    apply Forall_cons in Halloc as [[e He] Halloc]. apply Forall_cons in Hids as [[x Hx] Hids].
    constructor; [|apply IH; assumption]. split.
    - assert (Hread : read entry "ID" h = e !! "ID") by (unfold read; rewrite He; reflexivity).
      rewrite Hread in Hx |- *.
      rewrite validate_entry_id, (lookup_total_correct _ _ _ He), Hx. reflexivity.
    - apply validate_entry_classified. }
  assert (Hidlist : Some <$> (res_id <$> rs) = (fun entry => read entry "ID" h) <$> entries).
  { clear -Hown. induction Hown as [|entry r entries rs [Hid _] _ IH]; [reflexivity|].
    rewrite !fmap_cons, IH, Hid. reflexivity. }
  assert (Hndr : NoDup (res_id <$> rs)).
  { apply (NoDup_fmap_1 Some). rewrite Hidlist. assumption. }
  pose proof (apply_corrections_copies results entries h Halloc) as Hcopies. cbv zeta in Hcopies.
  intros i entry r entry_copy Hi Hr Hc.
  destruct (Forall2_lookup_lr _ _ _ _ _ _ Hcopies Hi Hc) as (e & He & ->).
  destruct (Forall2_lookup_lr _ _ _ _ _ _ Hown Hi Hr) as (Hid & Hstatus).
  rewrite (lookup_total_correct _ _ _ He). f_equal.
  unfold updated_entry. unfold read in Hid. rewrite He in Hid. cbn in Hid. rewrite Hid.
  rewrite Hresults, (find_result_own rs r Hndr (list_elem_of_lookup_2 _ _ _ Hr)).
  repeat (apply elem_of_cons in Hstatus as [Hstatus|Hstatus]); [| | |inversion Hstatus];
    rewrite Hstatus; repeat (case_decide; try (intuition congruence)); reflexivity.
Qed.

End Run.
End PipelineFacts.

(** ** The names that [authors_to_list] returns *)
Module AuthorsFacts.
Import PyStr PyStrFacts Validator CompareFacts.
Local Open Scope list_scope.

Lemma rstrip_rstrip s : rstrip (rstrip s) = rstrip s.
Proof.
  induction s as [|c s IH]; [reflexivity|]. cbn [rstrip].
  destruct (rstrip s) as [|d r] eqn:Hr.
  - destruct (isspace c) eqn:Hc; [reflexivity|]. cbn [rstrip]. rewrite Hc. reflexivity.
  - change (rstrip (String c (String d r)))
      with (match rstrip (String d r) with
            | "" => if isspace c then "" else String c ""
            | String d' r' => String c (String d' r')
            end).
    rewrite IH. reflexivity.
Qed.

(** What [lstrip] leaves does not start with whitespace. *)
Lemma lstrip_head s :
  match lstrip s with "" => True | String c _ => isspace c = false end.
Proof.
  induction s as [|c s IH]; [exact I|]. cbn [lstrip].
  destruct (isspace c) eqn:Hc; [assumption|]. assumption.
Qed.

(** [rstrip] keeps a first character that is not whitespace. *)
Lemma rstrip_head c s :
  isspace c = false -> exists r, rstrip (String c s) = String c r.
Proof.
  intros Hc. cbn [rstrip]. destruct (rstrip s); [rewrite Hc|]; eauto.
Qed.

Lemma strip_strip s : strip (strip s) = strip s.
Proof.
  unfold strip. pose proof (lstrip_head s) as Hhead.
  destruct (lstrip s) as [|c t]; [reflexivity|].
  destruct (rstrip_head c t Hhead) as [r Hr]. rewrite Hr.
  cbn [lstrip]. rewrite Hhead, <- Hr. apply rstrip_rstrip.
Qed.

Lemma stripped_names l :
  Forall (fun n => strip n = n /\ nonempty n = true) (stripped l).
Proof.
  unfold stripped. apply Forall_forall. intros n [Hne (x & -> & _)%list_elem_of_fmap]%list_elem_of_filter.
  split; [apply strip_strip|assumption].
Qed.

(** X19. Every name that [authors_to_list] returns is stripped and not
    empty, and [authors_to_list] maps the list of names it returned to
    itself. *)
Theorem authors_to_list_names authors_val :
  Forall (fun n => strip n = n /\ n <> "") (authors_to_list authors_val)
  /\ authors_to_list (AList (authors_to_list authors_val)) = authors_to_list authors_val.
Proof.
  assert (Hnames : Forall (fun n => strip n = n /\ nonempty n = true)
                     (authors_to_list authors_val)).
  { destruct authors_val as [|s|l]; cbn [authors_to_list]; [constructor| |apply stripped_names].
    destruct (nonempty s); [apply stripped_names|constructor]. }
  split.
  - eapply Forall_impl; [exact Hnames|]. intros n [Hs Hne]. split; [assumption|].
    intros ->. discriminate.
  - cbn [authors_to_list]. apply stripped_clean. assumption.
Qed.

End AuthorsFacts.

(** ** The retries of the DBLP search *)
Module DblpFacts.
Import PyStr PyValue Dblp.
Local Open Scope list_scope.
Local Open Scope nat_scope.

(** The events of [k + 1] attempts, the first of them the attempt number
    [attempt]: a wait between two requests, each wait twice the one
    before. *)
Fixpoint backoff (q : string) (attempt k : nat) : list http_event :=
  match k with
  | O => [Request q]
  | S k' => Request q :: Wait (retry_delay * 2 ^ attempt) :: backoff q (S attempt) k'
  end.

(** The requests sent and the seconds waited in a sequence of events. *)
Definition requests (evs : list http_event) : nat :=
  sum_list_with (fun e => match e with Request _ => 1 | Wait _ => 0 end) evs.

Definition waited (evs : list http_event) : nat :=
  sum_list_with (fun e => match e with Wait n => n | Request _ => 0 end) evs.

Lemma requests_backoff q k : forall attempt, requests (backoff q attempt k) = S k.
Proof. induction k as [|k IH]; intros attempt; [reflexivity|]. simpl. rewrite IH. reflexivity. Qed.

Lemma waited_backoff q k : forall attempt,
  waited (backoff q attempt k) + retry_delay * 2 ^ attempt = retry_delay * 2 ^ (attempt + k).
Proof.
  induction k as [|k IH]; intros attempt.
  - rewrite Nat.add_0_r. reflexivity.
  - cbn [backoff waited sum_list_with]. fold (waited (backoff q (S attempt) k)).
    specialize (IH (S attempt)). replace (attempt + S k) with (S attempt + k) by lia.
    rewrite <- IH. rewrite Nat.pow_succ_r'. lia.
Qed.

Section Search.
Context {W E : Type}.
Variable is_request_exception : E -> bool.
Variable requests_get : string -> W -> (E + response (E:=E)) * W.

(** A response that makes [_search] try again, if an attempt is left:
    the status 429, or a [RequestException] raised by [requests.get],
    [raise_for_status] or [json]. *)
Definition retryable (got : E + response (E:=E)) : bool :=
  match got with
  | inl e => is_request_exception e
  | inr response =>
      if (status_code response =? 429)%Z then true
      else match raise_for_status response with
           | Some e => is_request_exception e
           | None => match json response with
                     | inl e => is_request_exception e
                     | inr _ => false
                     end
           end
  end.

(** A response that answers the search: not rate limited, no error, and a
    document that can be read. *)
Definition answers (got : E + response (E:=E)) (found : option value) : Prop :=
  exists response data,
    got = inr response /\ status_code response <> 429%Z
    /\ raise_for_status response = None /\ json response = inr data
    /\ first_hit (E:=E) data = Return found.

Lemma has_raises k v (e : exc E) : has k v = Raise e -> e = Builtin TypeError.
Proof. destruct v; cbn; intros [=]; auto. Qed.

Lemma item_raises k v (e : exc E) :
  item k v = Raise e -> e = Builtin TypeError \/ e = Builtin KeyError.
Proof.
  destruct v as [| | | | | |d]; cbn; [..|destruct (Dict.get k d)]; intros [=]; auto.
Qed.

(** [v[0]] raises no [IndexError] on a truthy value. *)
Lemma first_raises v (e : exc E) :
  truthy_value v = true -> first v = Raise e -> e = Builtin TypeError \/ e = Builtin KeyError.
Proof.
  destruct v as [| | | |s|l|d]; cbn.
  - discriminate.
  - intros _ [=]; auto.
  - intros _ [=]; auto.
  - intros _ [=]; auto.
  - destruct s; [discriminate|]. intros _ [=].
  - destruct l; [discriminate|]. intros _ [=].
  - intros _ [=]; auto.
Qed.

Lemma bind_raise {X Y} (m : outcome E X) (k : X -> outcome E Y) e :
  m ≫= k = Raise e -> m = Raise e \/ exists x, m = Return x /\ k x = Raise e.
Proof. destruct m as [x|e']; cbn; [eauto|]. intros [= <-]. auto. Qed.

(** Finds the step at which a computation raised. *)
Ltac raised :=
  repeat match goal with
         | H : mbind _ _ = Raise _ |- _ =>
             apply bind_raise in H as [H|(? & ? & H)]; cbv beta in H
         | H : (if ?b then _ else _) = Raise _ |- _ => destruct b eqn:?
         | H : Return _ = Raise _ |- _ => discriminate H
         | H : mret _ = Raise _ |- _ => discriminate H
         | H : has _ _ = Raise _ |- _ => apply has_raises in H; auto
         | H : item _ _ = Raise _ |- _ => apply item_raises in H; assumption
         | H : first _ = Raise _ |- _ => apply first_raises in H; assumption
         end.

Lemma first_hit_raises data (e : exc E) :
  first_hit (E:=E) data = Raise e -> e = Builtin TypeError \/ e = Builtin KeyError.
Proof. unfold first_hit. intros H. raised. Qed.

(** What a round decides. *)
Lemma search_round_cases max_retries attempt got :
  match search_round is_request_exception max_retries attempt got with
  | Continue wait_time =>
      retryable got = true /\ attempt < max_retries - 1
      /\ wait_time = retry_delay * 2 ^ attempt
  | Stop (Return found) =>
      (retryable got = true /\ max_retries - 1 <= attempt /\ found = None)
      \/ (retryable got = false /\ answers got found)
  | Stop (Raise e) =>
      retryable got = false
      /\ ((exists e', e = Library e' /\ is_request_exception e' = false)
          \/ e = Builtin TypeError \/ e = Builtin KeyError)
  end.
Proof.
  assert (Hexc : forall e', 
    match on_exception is_request_exception max_retries attempt (Library e') with
    | Continue wait_time =>
        is_request_exception e' = true /\ attempt < max_retries - 1
        /\ wait_time = retry_delay * 2 ^ attempt
    | Stop (Return found) =>
        is_request_exception e' = true /\ max_retries - 1 <= attempt /\ found = None
    | Stop (Raise e) => is_request_exception e' = false /\ e = Library e'
    end).
  { intros e'. unfold on_exception, caught. destruct (is_request_exception e'); [|auto].
    destruct (Nat.ltb_spec attempt (max_retries - 1)); auto. }
  unfold search_round, retryable. destruct got as [e'|response].
  { specialize (Hexc e'). destruct (on_exception _ _ _ _) as [wt|[found|e]].
    - assumption.
    - left. assumption.
    - destruct Hexc as [? ->]. eauto. }
  destruct (Z.eqb_spec (status_code response) 429) as [Hs|Hs].
  { destruct (Nat.ltb_spec attempt (max_retries - 1)); auto. }
  destruct (raise_for_status response) as [e'|] eqn:Hraise.
  { specialize (Hexc e'). destruct (on_exception _ _ _ _) as [wt|[found|e]].
    - assumption.
    - left. assumption.
    - destruct Hexc as [? ->]. eauto. }
  destruct (json response) as [e'|data] eqn:Hjson.
  { specialize (Hexc e'). destruct (on_exception _ _ _ _) as [wt|[found|e]].
    - assumption.
    - left. assumption.
    - destruct Hexc as [? ->]. eauto. }
  destruct (first_hit (E:=E) data) as [found|e] eqn:Hhit.
  - right. split; [reflexivity|]. exists response, data. auto.
  - apply first_hit_raises in Hhit.
    destruct Hhit as [-> | ->]; cbn; auto.
Qed.

(** The loop: the attempts it makes, and where its result comes from. *)
Lemma search_loop_spec q max_retries n : forall attempt st,
  attempt + n = max_retries -> 0 < n ->
  let out := search_loop is_request_exception requests_get q max_retries (seq attempt n) st in
  exists k,
    k < n
    /\ net_log out.2 = net_log st ++ backoff q attempt k
    /\ match out.1 with
       | Return (Some info) => exists w, answers (requests_get q w).1 (Some info)
       | Return None => True
       | Raise e =>
           (exists e', e = Library e' /\ is_request_exception e' = false)
           \/ e = Builtin TypeError \/ e = Builtin KeyError
       end
    /\ ((forall w, retryable (requests_get q w).1 = true) ->
        k = n - 1 /\ out.1 = Return None).
Proof.
  induction n as [|n IH]; intros attempt st Hsum Hpos; [lia|]. cbv zeta.
  cbn [seq search_loop].
  destruct (requests_get q (net_world st)) as [got w] eqn:Hget.
  pose proof (search_round_cases max_retries attempt got) as Hround.
  destruct (search_round is_request_exception max_retries attempt got) as [wt|result].
  - destruct Hround as (_ & Hlt & ->). cbn [net_world net_log].
    destruct (IH (S attempt) (Net w ((net_log st ++ [Request q]) ++ [Wait (retry_delay * 2 ^ attempt)])))
      as (k & Hk & Hlog & Hres & Hall); [lia|lia|].
    exists (S k). split; [lia|]. split; [|split].
    + rewrite Hlog. cbn [net_log backoff]. rewrite <- !app_assoc. reflexivity.
    + exact Hres.
    + intros Hretry. destruct (Hall Hretry) as [-> ->]. split; [lia|reflexivity].
  - exists 0. split; [lia|]. split; [reflexivity|]. cbn [fst].
    assert (Hgot : got = (requests_get q (net_world st)).1) by (rewrite Hget; reflexivity).
    split.
    + destruct result as [[info|]|e].
      * destruct Hround as [(_ & _ & [=])|(_ & Hans)]. exists (net_world st). rewrite <- Hgot.
        assumption.
      * exact I.
      * destruct Hround as [_ ?]. assumption.
    + intros Hretry. specialize (Hretry (net_world st)). rewrite <- Hgot in Hretry.
      destruct result as [found|e].
      * destruct Hround as [(_ & Hle & ->)|(Hno & _)]; [|congruence].
        split; [lia|reflexivity].
      * destruct Hround as [Hno _]. congruence.
Qed.

(** X20. [_search] sends at most [max_retries] requests, all with its
    query, and waits between two consecutive requests: 3 seconds first and
    twice as long each time. It never waits after its last request, and it
    waits less than 3 * 2^(max_retries - 1) seconds in all, which is at
    most 9 seconds over 3 requests for the searches by DOI and by title.
    With no retry allowed it sends nothing and returns [None]. *)
Theorem search_backoff q max_retries st :
  let out := _search is_request_exception requests_get q max_retries st in
  exists evs,
    net_log out.2 = net_log st ++ evs
    /\ (max_retries = 0 -> evs = [] /\ out.1 = Return None)
    /\ (0 < max_retries -> exists k, k < max_retries /\ evs = backoff q 0 k)
    /\ requests evs <= max_retries
    /\ waited evs + retry_delay <= retry_delay * 2 ^ (max_retries - 1)
    /\ (max_retries = 3 -> waited evs <= 9).
Proof.
  cbv zeta. unfold _search. destruct max_retries as [|n].
  - exists []. cbn. rewrite app_nil_r. repeat split; auto; lia.
  - destruct (search_loop_spec q (S n) (S n) 0 st) as (k & Hk & Hlog & _); [lia|lia|].
    exists (backoff q 0 k). split; [assumption|]. split; [discriminate|].
    split; [eauto|]. rewrite requests_backoff. split; [lia|].
    pose proof (waited_backoff q k 0) as Hw. cbn [Nat.pow Nat.add] in Hw.
    replace (S n - 1) with n by lia.
    assert (Hpow : 2 ^ k <= 2 ^ n) by (apply Nat.pow_le_mono_r; lia).
    unfold retry_delay in *. split; [lia|].
    intros [= ->]. change (2 ^ 2) with 4 in Hpow. lia.
Qed.

(** X21. A hit that [_search] returns is the first hit of a response to
    its query that was not rate limited, raised no error and was parsed;
    and [_search] lets no [RequestException] escape: what it raises is
    another exception of a library call, or the [TypeError] or [KeyError]
    of reading a document of an unexpected shape. *)
Theorem search_result q max_retries st :
  match (_search is_request_exception requests_get q max_retries st).1 with
  | Return (Some info) => exists w, answers (requests_get q w).1 (Some info)
  | Return None => True
  | Raise e =>
      (exists e', e = Library e' /\ is_request_exception e' = false)
      \/ e = Builtin TypeError \/ e = Builtin KeyError
  end.
Proof.
  unfold _search. destruct max_retries as [|n]; [exact I|].
  destruct (search_loop_spec q (S n) (S n) 0 st) as (k & _ & _ & Hres & _); [lia|lia|].
  exact Hres.
Qed.

(** X22. When every request is rate limited (status 429) or fails with a
    [RequestException], [_search] returns [None] after exactly
    [max_retries] requests and 3 * (2^(max_retries - 1) - 1) seconds of
    waiting: 3 requests and 9 seconds for the searches by DOI and by
    title. *)
Theorem search_gives_up q max_retries st :
  (forall w, retryable (requests_get q w).1 = true) ->
  0 < max_retries ->
  let out := _search is_request_exception requests_get q max_retries st in
  out.1 = Return None
  /\ net_log out.2 = net_log st ++ backoff q 0 (max_retries - 1)
  /\ requests (backoff q 0 (max_retries - 1)) = max_retries
  /\ waited (backoff q 0 (max_retries - 1)) + retry_delay
     = retry_delay * 2 ^ (max_retries - 1).
Proof.
  intros Hretry Hpos. cbv zeta. unfold _search.
  destruct (search_loop_spec q max_retries max_retries 0 st) as (k & _ & Hlog & _ & Hall);
    [lia|lia|].
  destruct (Hall Hretry) as [-> Hnone]. split; [assumption|]. split; [assumption|].
  rewrite requests_backoff. split; [lia|].
  pose proof (waited_backoff q (max_retries - 1) 0) as Hw. cbn [Nat.pow Nat.add] in Hw.
  unfold retry_delay in *. lia.
Qed.

End Search.
End DblpFacts.

(** ** The fields extracted from a DBLP record *)
Module DblpExtract.
Import PyStr PyValue Dblp Dict DictFacts DictKeys Validator CompareFacts SplitFacts CompareAgree.
Local Open Scope list_scope.

Section Extract.
Context {E : Type}.
Variable repr : value -> string.

Lemma bind_return {X Y} (m : outcome E X) (k : X -> outcome E Y) y :
  m ≫= k = Return y -> exists x, m = Return x /\ k x = Return y.
Proof. destruct m as [x|e]; cbn; [eauto|discriminate]. Qed.

(** A field that is set when a test holds. *)
Lemma set_if_return (b : bool) (m : outcome E value) (f : value -> value) k fields fields' :
  (if b then x ← m; Return (Dict.set k (f x) fields) else Return fields) = Return fields' ->
  fields' = fields \/ exists x, fields' = Dict.set k (f x) fields.
Proof.
  destruct b; [|intros [= <-]; auto].
  intros (x & _ & [= <-])%bind_return. eauto.
Qed.

(** X23. The fields that the DBLP source extracts are among title,
    author, year, venue, doi, in this order, and the author and the year
    among them are strings. *)
Theorem extract_bibtex_fields_keys result fields :
  Dblp.extract_bibtex_fields (E:=E) repr result = Return fields ->
  Dict.keys fields `sublist_of` ["title"; "author"; "year"; "venue"; "doi"]
  /\ (forall v, Dict.get "author" fields = Some v -> exists s, v = VStr s)
  /\ (forall v, Dict.get "year" fields = Some v -> exists s, v = VStr s).
Proof.
  unfold Dblp.extract_bibtex_fields.
  intros (has_title & _ & H)%bind_return.
  apply bind_return in H as (f1 & H1 & H).
  apply (set_if_return _ _ (fun x => x)) in H1.
  apply bind_return in H as (has_authors & _ & H).
  apply bind_return in H as (has_author & _ & H).
  apply bind_return in H as (f2 & H2 & H).
  assert (H2' : f2 = f1 \/ exists s, f2 = Dict.set "author" (VStr s) f1).
  { destruct has_author; [|injection H2 as <-; auto].
    apply bind_return in H2 as (? & _ & H2). apply bind_return in H2 as (? & _ & H2).
    apply bind_return in H2 as (? & _ & H2). apply bind_return in H2 as (s & _ & H2).
    injection H2 as <-. eauto. }
  clear H2.
  apply bind_return in H as (has_year & _ & H).
  apply bind_return in H as (f3 & H3 & H).
  apply (set_if_return _ _ (fun x => VStr (str_of repr x))) in H3.
  apply bind_return in H as (has_venue & _ & H).
  apply bind_return in H as (f4 & H4 & H).
  apply (set_if_return _ _ (fun x => x)) in H4.
  apply bind_return in H as (has_doi & _ & H).
  apply bind_return in H as (f5 & H5 & H).
  apply (set_if_return _ _ (fun x => x)) in H5.
  injection H as <-.
  destruct H1 as [->|[x1 ->]]; destruct H2' as [->|[x2 ->]]; destruct H3 as [->|[x3 ->]];
    destruct H4 as [->|[x4 ->]]; destruct H5 as [->|[x5 ->]];
    (split; [vm_compute; repeat first [apply sublist_nil|apply sublist_skip|apply sublist_cons]|]);
    split; intros v; vm_compute; intros [=]; eauto.
Qed.

(** The names of an author value: an author is a string, or an object
    with the name under [text]. *)
Definition author_named (a : value) (n : string) : Prop :=
  a = VStr n \/ exists d, a = VDict d /\ Dict.get "text" d = Some (VStr n).

(** The authors of a record: a list of them, or a single one. *)
Definition author_items (author_data : value) : list value :=
  match author_data with VList l => l | a => [a] end.

Lemma author_text_named a n : author_named a n -> author_text (E:=E) a = Return (VStr n).
Proof. intros [->|(d & -> & Hd)]; cbn; [reflexivity|]. rewrite Hd. reflexivity. Qed.

Lemma for_each_named l names :
  Forall2 author_named l names -> for_each (E:=E) author_text l = Return (VStr <$> names).
Proof.
  induction 1 as [|a n l names Ha _ IH]; [reflexivity|].
  cbn [for_each]. rewrite (author_text_named a n Ha), IH. reflexivity.
Qed.

Lemma strings_names names : strings (E:=E) (VStr <$> names) = Return names.
Proof. induction names as [|n names IH]; [reflexivity|]. cbn. rewrite IH. reflexivity. Qed.

(** The author field that is extracted from well-formed authors. *)
Lemma extract_authors_joined author_data names :
  Forall2 author_named (author_items author_data) names ->
  (authors ← (match author_data with
              | VList l => for_each (E:=E) author_text l
              | _ => a ← author_text author_data; Return [a]
              end);
   join_values " and " authors)
  = Return (join " and " names).
Proof.
  intros Hall.
  assert (Hauthors : match author_data with
                     | VList l => for_each (E:=E) author_text l
                     | _ => a ← author_text author_data; Return [a]
                     end = Return (VStr <$> names)).
  { destruct author_data as [| | | | |l|]; try (apply for_each_named; assumption);
      cbn [author_items] in Hall;
      inversion Hall as [|? name ? names' Ha Hnil]; subst; inversion Hnil; subst;
      rewrite (author_text_named _ name Ha); reflexivity. }
  rewrite Hauthors. cbn [mbind outcome_bind]. unfold join_values.
  rewrite strings_names. reflexivity.
Qed.

(** On a dictionary, a field that is copied when its key is there. *)
Lemma set_if_dict d k k' (f : value -> value) fields :
  (if Dict.mem k d then x ← item (E:=E) k (VDict d); Return (Dict.set k' (f x) fields)
   else Return fields)
  = Return (match Dict.get k d with
            | Some x => Dict.set k' (f x) fields
            | None => fields
            end).
Proof.
  unfold Dict.mem. cbn [item]. destruct (Dict.get k d) as [x|].
  - rewrite bool_decide_eq_true_2 by eauto. reflexivity.
  - rewrite bool_decide_eq_false_2 by (intros [? [=]]). reflexivity.
Qed.

Lemma get_set_opt_ne k k' (o : option value) (f : value -> value) (fields : Dict.dict value) :
  k' <> k ->
  Dict.get k (match o with Some x => Dict.set k' (f x) fields | None => fields end)
  = Dict.get k fields.
Proof. intros Hne. destruct o; [apply get_set_ne; assumption|reflexivity]. Qed.

(** X24. From a DBLP record whose authors are a list of objects with the
    name under [text], or of plain strings, or a single such author, the
    extraction succeeds and returns the author field that joins the names
    with [ and ]; for plain names [authors_to_list] gives the names back.
    The title is passed through. *)
Theorem extract_bibtex_fields_authors d authors author_data names :
  Dict.get "authors" d = Some (VDict authors) ->
  Dict.get "author" authors = Some author_data ->
  Forall2 author_named (author_items author_data) names ->
  Forall plain_name names ->
  exists fields,
    Dblp.extract_bibtex_fields (E:=E) repr (VDict d) = Return fields
    /\ Dict.get "author" fields = Some (VStr (join " and " names))
    /\ Dict.get "title" fields = Dict.get "title" d
    /\ authors_to_list (AStr (join " and " names)) = names.
Proof.
  intros Hauthors Hauthor Hnamed Hplain.
  pose proof (extract_authors_joined author_data names Hnamed) as Hjoined.
  apply bind_return in Hjoined as (vs & Hvs & Hjoin).
  unfold Dblp.extract_bibtex_fields. cbn [has mbind outcome_bind].
  rewrite (set_if_dict d "title" "title" (fun x => x)). cbn [mbind outcome_bind].
  assert (Hin : forall k (x : value) (t : Dict.dict value),
            Dict.get k t = Some x -> Dict.mem k t = true).
  { intros k x t Hk. unfold Dict.mem. rewrite Hk. apply bool_decide_eq_true_2. eauto. }
  rewrite (Hin _ _ _ Hauthors). cbn [item]. rewrite Hauthors. cbn [mbind outcome_bind has].
  rewrite (Hin _ _ _ Hauthor). cbn [mbind outcome_bind item]. rewrite Hauthor.
  cbn [mbind outcome_bind]. rewrite Hvs. cbn [mbind outcome_bind]. rewrite Hjoin.
  cbn [mbind outcome_bind mret outcome_ret].
  rewrite (set_if_dict d "year" "year" (fun x => VStr (str_of repr x))). cbn [mbind outcome_bind].
  rewrite (set_if_dict d "venue" "venue" (fun x => x)). cbn [mbind outcome_bind].
  rewrite (set_if_dict d "doi" "doi" (fun x => x)). cbn [mbind outcome_bind mret outcome_ret].
  eexists. split; [reflexivity|]. split; [|split].
  - rewrite !get_set_opt_ne by discriminate. apply get_set_eq.
  - rewrite !get_set_opt_ne by discriminate. rewrite get_set_ne by discriminate.
    destruct (Dict.get "title" d); reflexivity.
  - pose proof (split_join_and names) as Hsplit. unfold and_sep in Hsplit.
    rewrite authors_to_list_str. destruct names as [|n ns]; [reflexivity|].
    rewrite Hsplit.
    + apply stripped_clean. eapply Forall_impl; [exact Hplain|]. intros x (? & ? & _). auto.
    + discriminate.
    + eapply Forall_impl; [exact Hplain|]. intros x (_ & _ & ?). assumption.
Qed.

End Extract.
End DblpExtract.

(** ** The URL check *)
Module UrlCheckFacts.
Import PyStr PyStrFacts UrlCheck.
Local Open Scope list_scope.

(** The words [check_url] uses for a failure that is not an HTTP
    status. *)
Definition failure_words : list string :=
  ["empty_url"; "invalid_scheme"; "timeout"; "ssl"; "dns"; "connection_error";
   "request_error"; "unknown_error"].

(** Finds a word in a list of words. *)
Ltac word := repeat first [apply list_elem_of_here | apply list_elem_of_further].

(** A URL that [check_url] sends a request for. *)
Definition http_url (url : string) : Prop :=
  String.prefix "http://" url = true \/ String.prefix "https://" url = true.

(** What [check_url] answers: success with a status from 200 to 399, or
    failure with a word or with another status. *)
Definition verdict (r : bool * string) : Prop :=
  (r.1 = true /\ exists status, (200 <= status < 400)%Z /\ r.2 = "HTTP " +:+ pretty status)
  \/ (r.1 = false
      /\ (r.2 ∈ failure_words
          \/ exists status, ~ (200 <= status < 400)%Z /\ r.2 = "HTTP " +:+ pretty status)).

Lemma verdict_status status :
  verdict (if valid_status status then (true, http_detail status)
           else (false, http_detail status)).
Proof.
  unfold valid_status, http_detail, verdict.
  destruct (Z.leb_spec 200 status); destruct (Z.ltb_spec status 400); cbn [andb fst snd];
    [left; split; [reflexivity|exists status; split; [lia|reflexivity]]|..];
    right; (split; [reflexivity|]); right; exists status; (split; [lia|reflexivity]).
Qed.

Section Check.
Context {W E : Type}.
Variables is_timeout is_ssl_error is_connection_error is_request_exception : E -> bool.
Variable str_of_exception : E -> string.
Variable session_head : string -> W -> (E + Z) * W.
Variable session_get : string -> W -> (E + Z) * W.
Variable response_close : W -> option E * W.

Definition check := check_url is_timeout is_ssl_error is_connection_error is_request_exception
                      str_of_exception session_head session_get response_close.

Definition classify := classify_request_exception is_timeout is_ssl_error is_connection_error
                         is_request_exception str_of_exception.

Lemma classify_words e : classify e ∈ failure_words.
Proof.
  unfold classify, classify_request_exception, failure_words.
  destruct (is_timeout e); [word|].
  destruct (is_connection_error e); [destruct (dns_message _ e); word|].
  destruct (is_ssl_error e); [word|].
  destruct (is_request_exception e); word.
Qed.

Lemma on_head_exception_verdict e :
  verdict (on_head_exception is_timeout is_ssl_error is_connection_error is_request_exception
             str_of_exception e).
Proof.
  right. unfold on_head_exception.
  destruct (is_timeout e); [split; [reflexivity|left; word]|].
  destruct (is_ssl_error e); [split; [reflexivity|left; word]|].
  destruct (is_connection_error e);
    [destruct (dns_message _ e); (split; [reflexivity|left; word])|].
  destruct (is_request_exception e); [|split; [reflexivity|left; word]].
  split; [reflexivity|left; apply classify_words].
Qed.

Lemma get_fallback_verdict url st :
  verdict (get_fallback is_timeout is_ssl_error is_connection_error is_request_exception
             str_of_exception session_get response_close url st).1.
Proof.
  unfold get_fallback. destruct (session_get url (session_world st)) as [[e|status] w].
  - right. split; [reflexivity|left; apply classify_words].
  - cbn [session_world]. destruct (response_close w) as [[e|] w'].
    + right. split; [reflexivity|left; apply classify_words].
    + pose proof (verdict_status status) as Hv. destruct (valid_status status); exact Hv.
Qed.

(** X25. [check_url] answers success only for an http or https URL and a
    status from 200 to 399, with the detail [HTTP status]; a failure
    carries [HTTP status] for another status, or one of eight fixed words.
    An empty URL and a URL with another scheme fail without a request. *)
Theorem check_url_verdict url st :
  let out := check url st in
  verdict out.1
  /\ (out.1.1 = true -> http_url url)
  /\ (url = "" -> out = ((false, "empty_url"), st))
  /\ (url <> "" -> ~ http_url url -> out = ((false, "invalid_scheme"), st)).
Proof.
  cbv zeta. unfold check, check_url, http_url.
  destruct url as [|c url]; cbn [nonempty negb].
  { split; [right; split; [reflexivity|left; word]|]. split; [discriminate|].
    split; [reflexivity|]. intros Hne; contradiction. }
  set (u := String c url).
  destruct (String.prefix "http://" u || String.prefix "https://" u) eqn:Hscheme; cbn [negb].
  2:{ split; [right; split; [reflexivity|left; word]|]. split; [discriminate|].
      split; [discriminate|]. reflexivity. }
  assert (Hurl : String.prefix "http://" u = true \/ String.prefix "https://" u = true)
    by (apply orb_true_iff; assumption).
  split; [|split; [auto|split; [discriminate|intros _ Hno; contradiction]]].
  destruct (session_head u (session_world st)) as [[e|status] w]; cbn [fst].
  - apply on_head_exception_verdict.
  - pose proof (verdict_status status) as Hv.
    destruct (valid_status status); [exact Hv|].
    destruct (bool_decide (status = 405%Z) || bool_decide (status = 403%Z)); [|exact Hv].
    apply get_fallback_verdict.
Qed.

(** The calls of a check, in the four shapes they can take. *)
Definition calls_of (url : string) (evs : list call) : Prop :=
  evs = [] \/ evs = [Head url] \/ evs = [Head url; Get url] \/ evs = [Head url; Get url; Close].

(** X26. [check_url] calls nothing for an empty URL or another scheme,
    and otherwise one HEAD, followed by a GET only if the HEAD returned 403
    or 405, followed by a close only if the GET returned a response. *)
Theorem check_url_calls url st :
  let out := check url st in
  exists evs,
    session_log out.2 = session_log st ++ evs
    /\ calls_of url evs
    /\ (evs = [] <-> ~ (url <> "" /\ http_url url))
    /\ (Get url ∈ evs ->
        (session_head url (session_world st)).1 = inr 403%Z
        \/ (session_head url (session_world st)).1 = inr 405%Z)
    /\ (Close ∈ evs ->
        exists status,
          (session_get url (session_head url (session_world st)).2).1 = inr status).
Proof.
  cbv zeta. unfold check, check_url, http_url, calls_of.
  destruct url as [|c url]; cbn [nonempty negb].
  { exists []. rewrite app_nil_r. split; [reflexivity|]. split; [auto|].
    split; [split; [intros _ [Hne _]; contradiction|reflexivity]|].
    split; intros Hin; inversion Hin. }
  set (u := String c url).
  destruct (String.prefix "http://" u || String.prefix "https://" u) eqn:Hscheme; cbn [negb].
  2:{ exists []. rewrite app_nil_r. split; [reflexivity|]. split; [auto|].
      split; [|split; intros Hin; inversion Hin].
      split; [|reflexivity]. intros _ [_ Hurl]. apply orb_true_iff in Hurl. congruence. }
  assert (Hurl : String.prefix "http://" u = true \/ String.prefix "https://" u = true)
    by (apply orb_true_iff; assumption).
  assert (Hsent : forall evs : list call, evs <> [] ->
            evs = [] <-> ~ (u <> "" /\ (String.prefix "http://" u = true
                                        \/ String.prefix "https://" u = true))).
  { intros evs Hne. split; [contradiction|]. intros Hno. exfalso. apply Hno.
    split; [discriminate|assumption]. }
  assert (Hone : forall evs : list call, evs = [Head u] ->
            (Get u ∈ evs -> (session_head u (session_world st)).1 = inr 403%Z
                            \/ (session_head u (session_world st)).1 = inr 405%Z)
            /\ (Close ∈ evs ->
                exists status,
                  (session_get u (session_head u (session_world st)).2).1 = inr status)).
  { intros evs ->. split; intros [[=]|Hin]%elem_of_cons; inversion Hin. }
  destruct (session_head u (session_world st)) as [[e|status] w] eqn:Hhead; cbn [snd session_log].
  - exists [Head u]. split; [reflexivity|]. split; [auto|]. split; [apply Hsent; discriminate|].
    apply Hone. reflexivity.
  - destruct (valid_status status).
    { exists [Head u]. split; [reflexivity|]. split; [auto|]. split; [apply Hsent; discriminate|].
      apply Hone. reflexivity. }
    destruct (bool_decide (status = 405%Z) || bool_decide (status = 403%Z)) eqn:Hstatus.
    2:{ exists [Head u]. split; [reflexivity|]. split; [auto|]. split; [apply Hsent; discriminate|].
        apply Hone. reflexivity. }
    assert (Hwhy : @inr E Z status = inr 403%Z \/ @inr E Z status = inr 405%Z).
    { apply orb_true_iff in Hstatus as [->%bool_decide_eq_true| ->%bool_decide_eq_true]; auto. }
    unfold get_fallback. cbn [session_world session_log fst].
    destruct (session_get u w) as [[e|status'] w'] eqn:Hget; cbn [snd session_log].
    + exists [Head u; Get u]. rewrite <- app_assoc. split; [reflexivity|]. split; [auto|].
      split; [apply Hsent; discriminate|]. split; [intros _; exact Hwhy|].
      intros Hin. repeat (apply elem_of_cons in Hin as [[=]|Hin]). inversion Hin.
    + destruct (response_close w') as [[e|] w'']; [|destruct (valid_status status')];
        cbn [snd session_log]; exists [Head u; Get u; Close]; rewrite <- !app_assoc;
        (split; [reflexivity|]); (split; [auto|]);
        (split; [apply Hsent; discriminate|]); (split; [intros _; exact Hwhy|]);
        intros _; exists status'; reflexivity.
Qed.

(** X27. Given that an SSL error is a connection error, as in the
    exception hierarchy of requests, [classify_request_exception] never
    answers [ssl]: an SSL error that is reported as [ssl] when the HEAD
    request raises it is reported as [dns] or [connection_error] when the
    GET fallback raises it. *)
Theorem classify_request_exception_ssl :
  (forall e, is_ssl_error e = true -> is_connection_error e = true) ->
  (forall e, classify e <> "ssl")
  /\ (forall e, is_ssl_error e = true -> is_timeout e = false ->
        (on_head_exception is_timeout is_ssl_error is_connection_error is_request_exception
           str_of_exception e).2 = "ssl"
        /\ classify e ∈ ["dns"; "connection_error"]).
Proof.
  intros Hssl. split.
  - intros e. unfold classify, classify_request_exception.
    destruct (is_timeout e); [discriminate|].
    destruct (is_connection_error e) eqn:Hc; [destruct (dns_message _ e); discriminate|].
    destruct (is_ssl_error e) eqn:Hs; [rewrite (Hssl e Hs) in Hc; discriminate|].
    destruct (is_request_exception e); discriminate.
  - intros e Hs Ht. unfold on_head_exception, classify, classify_request_exception.
    rewrite Ht, Hs, (Hssl e Hs). split; [reflexivity|].
    destruct (dns_message _ e); word.
Qed.

End Check.
End UrlCheckFacts.

(** ** The further theorems at concrete inputs *)
Module MoreExamples.
Import PyStr Dict Validator ValidatorFacts ApplyFacts Examples.
Import ApplyFields PipelineFacts PyValue Dblp DblpFacts DblpExtract UrlCheck UrlCheckFacts.
Import CompareAgree.
Local Open Scope list_scope.

(** A validated result with a venue and an empty year, and a heap with an
    article that has the ID of the result and an entry that has no ID. *)
Definition nature_result : ValidationResult unit :=
  {| res_id := "k"; res_title := "T"; res_status := "validated"; res_issues := [];
     res_corrected_fields := [("title", "Deep Learning"); ("venue", "Nature"); ("year", "")];
     res_search_method := Some "dblp:DOI"; res_matches := []; res_attempts := [] |}.

Definition nature_results : Results unit :=
  {| validated := [nature_result]; mismatches := []; not_found := [] |}.

Definition article_heap : heap :=
  {[ 0%nat := {[ "ID" := "k"; "ENTRYTYPE" := "article"; "year" := "2015"; "venue" := "old" ]};
     1%nat := {[ "title" := "No id" ]} ]}.

Lemma article_heap_alloc : Forall (fun entry => is_Some (article_heap !! entry)) [0%nat; 1%nat].
Proof. repeat constructor; eexists; reflexivity. Qed.

Lemma apply_corrections_keeps_fields_witness :
  Forall2 (fun entry entry_copy =>
             read entry_copy "venue"
               (apply_corrections_to_entries nature_results [0%nat; 1%nat] article_heap).2
             = read entry "venue" article_heap
             /\ forall k, k ∉ ["note"; "journal"; "booktitle"] ->
                  (forall r v, find_result nature_results (read entry "ID" article_heap) = Some r ->
                               (k, v) ∈ res_corrected_fields r -> v = "") ->
                  read entry_copy k
                    (apply_corrections_to_entries nature_results [0%nat; 1%nat] article_heap).2
                  = read entry k article_heap)
          [0%nat; 1%nat]
          (apply_corrections_to_entries nature_results [0%nat; 1%nat] article_heap).1.
Proof.
  apply (apply_corrections_keeps_fields nature_results [0%nat; 1%nat] article_heap).
  exact article_heap_alloc.
Defined.

Lemma apply_corrections_venue_witness :
  Forall2 (fun entry entry_copy =>
             forall r venue,
               find_result nature_results (read entry "ID" article_heap) = Some r ->
               NoDup (Dict.keys (res_corrected_fields r)) ->
               Dict.get "venue" (res_corrected_fields r) = Some venue -> venue <> "" ->
               Dict.get "journal" (res_corrected_fields r) = None ->
               Dict.get "booktitle" (res_corrected_fields r) = None ->
               if bool_decide (read entry "ENTRYTYPE" article_heap = Some "article")
               then read entry_copy "journal"
                      (apply_corrections_to_entries nature_results [0%nat; 1%nat] article_heap).2
                    = Some venue
                    /\ read entry_copy "booktitle"
                         (apply_corrections_to_entries nature_results [0%nat; 1%nat] article_heap).2
                       = read entry "booktitle" article_heap
               else read entry_copy "booktitle"
                      (apply_corrections_to_entries nature_results [0%nat; 1%nat] article_heap).2
                    = Some venue
                    /\ read entry_copy "journal"
                         (apply_corrections_to_entries nature_results [0%nat; 1%nat] article_heap).2
                       = read entry "journal" article_heap)
          [0%nat; 1%nat]
          (apply_corrections_to_entries nature_results [0%nat; 1%nat] article_heap).1.
Proof.
  apply (apply_corrections_venue nature_results [0%nat; 1%nat] article_heap).
  exact article_heap_alloc.
Defined.

Lemma apply_corrections_without_id_witness :
  Forall2 (fun entry entry_copy =>
             read entry "ID" article_heap = None ->
             (apply_corrections_to_entries nature_results [0%nat; 1%nat] article_heap).2
               !! entry_copy
             = article_heap !! entry)
          [0%nat; 1%nat]
          (apply_corrections_to_entries nature_results [0%nat; 1%nat] article_heap).1.
Proof.
  apply (apply_corrections_without_id nature_results [0%nat; 1%nat] article_heap).
  exact article_heap_alloc.
Defined.

(** The article as the run leaves it: the venue went to the journal, the
    empty year changed nothing, the old venue field is still there. *)
Example apply_corrections_article :
  let out := apply_corrections_to_entries nature_results [0%nat] article_heap in
  (fun entry_copy => out.2 !! entry_copy) <$> out.1
  = [Some ({[ "ID" := "k"; "ENTRYTYPE" := "article"; "year" := "2015"; "venue" := "old";
              "title" := "Deep Learning"; "journal" := "Nature";
              "note" := "Validated via dblp:DOI" ]} : Entry)].
Proof. vm_compute. reflexivity. Qed.

(** Two entries with distinct IDs, validated against [two_sources]. *)
Definition two_entries : heap :=
  {[ 0%nat := an_entry; 1%nat := {[ "ID" := "untitled" ]} ]}.

Lemma validate_all_then_apply_witness :
  exists rs,
    Forall2 (fun e r => exists st0,
               r = (validate_entry truthy_fields two_decimals two_sources e st0).1)
            ((fun entry => two_entries !!! entry) <$> [0%nat; 1%nat]) rs
    /\ forall i entry r entry_copy,
         [0%nat; 1%nat] !! i = Some entry -> rs !! i = Some r ->
         (apply_corrections_to_entries
            (validate_all truthy_fields two_decimals two_sources
               ((fun entry => two_entries !!! entry) <$> [0%nat; 1%nat]) no_results start).1
            [0%nat; 1%nat] two_entries).1 !! i = Some entry_copy ->
         (apply_corrections_to_entries
            (validate_all truthy_fields two_decimals two_sources
               ((fun entry => two_entries !!! entry) <$> [0%nat; 1%nat]) no_results start).1
            [0%nat; 1%nat] two_entries).2 !! entry_copy
         = Some (if decide (res_status r = "not_found") then two_entries !!! entry
                 else noted_entry r (corrected_entry (two_entries !!! entry)
                                       (res_corrected_fields r))).
Proof.
  apply (validate_all_then_apply truthy_fields two_decimals two_sources [0%nat; 1%nat]
           two_entries start).
  - repeat constructor; eexists; reflexivity.
  - repeat constructor; eexists; reflexivity.
  - vm_compute. repeat constructor; intros Hin;
      repeat (apply elem_of_cons in Hin as [Hin|Hin]; [discriminate Hin|]); inversion Hin.
Defined.

(** A DBLP that answers every request with the status 429. *)
Definition rate_limited : response (E:=unit) :=
  {| status_code := 429; raise_for_status := None; json := inl tt |}.

Lemma search_gives_up_witness :
  (_search (fun _ : unit => true) (fun q (w : unit) => (inr rate_limited, w)) "q" 3
     (Net tt [])).1 = Return None
  /\ net_log (_search (fun _ : unit => true) (fun q (w : unit) => (inr rate_limited, w)) "q" 3
                (Net tt [])).2
     = [Request "q"; Wait 3; Request "q"; Wait 6; Request "q"].
Proof.
  destruct (search_gives_up (fun _ : unit => true) (fun q (w : unit) => (inr rate_limited, w))
              "q" 3 (Net tt [])) as (Hnone & Hlog & _).
  - intros w. reflexivity.
  - lia.
  - split; [exact Hnone|exact Hlog].
Defined.

(** A record of DBLP, with one author given as an object and one as a
    string. *)
Definition a_record : Dict.dict value :=
  [("title", VStr "Deep Learning");
   ("authors", VDict [("author", VList [VDict [("@pid", VStr "1"); ("text", VStr "Ian Goodfellow")];
                                        VStr "Yoshua Bengio"])]);
   ("year", VInt 2016); ("type", VStr "Book")].

Lemma extract_bibtex_fields_keys_witness :
  Dict.keys [("title", VStr "Deep Learning");
             ("author", VStr "Ian Goodfellow and Yoshua Bengio");
             ("year", VStr "2016")]
  `sublist_of` ["title"; "author"; "year"; "venue"; "doi"].
Proof.
  apply (extract_bibtex_fields_keys (E:=unit) (fun _ => "") (VDict a_record)
           [("title", VStr "Deep Learning");
            ("author", VStr "Ian Goodfellow and Yoshua Bengio");
            ("year", VStr "2016")]).
  reflexivity.
Defined.

Lemma extract_bibtex_fields_authors_witness :
  exists fields,
    Dblp.extract_bibtex_fields (E:=unit) (fun _ => "") (VDict a_record) = Return fields
    /\ Dict.get "author" fields = Some (VStr "Ian Goodfellow and Yoshua Bengio")
    /\ authors_to_list (AStr "Ian Goodfellow and Yoshua Bengio")
       = ["Ian Goodfellow"; "Yoshua Bengio"].
Proof.
  destruct (extract_bibtex_fields_authors (E:=unit) (fun _ => "") a_record
              [("author", VList [VDict [("@pid", VStr "1"); ("text", VStr "Ian Goodfellow")];
                                 VStr "Yoshua Bengio"])]
              (VList [VDict [("@pid", VStr "1"); ("text", VStr "Ian Goodfellow")];
                      VStr "Yoshua Bengio"])
              ["Ian Goodfellow"; "Yoshua Bengio"])
    as (fields & Hfields & Hauthor & _ & Hnames).
  - reflexivity.
  - reflexivity.
  - constructor; [right; eexists; split; reflexivity|].
    constructor; [left; reflexivity|constructor].
  - repeat constructor.
  - exists fields. split; [exact Hfields|]. split; [exact Hauthor|exact Hnames].
Defined.

(** Exceptions told apart by a flag: [true] is an SSL error, which is a
    connection error. *)
Lemma classify_request_exception_ssl_witness :
  classify (fun _ : bool => false) (fun e => e) (fun e => e) (fun _ => true)
    (fun _ => "certificate verify failed") true <> "ssl"
  /\ (on_head_exception (fun _ : bool => false) (fun e => e) (fun e => e) (fun _ => true)
        (fun _ => "certificate verify failed") true).2 = "ssl".
Proof.
  destruct (classify_request_exception_ssl (fun _ : bool => false) (fun e => e) (fun e => e)
              (fun _ => true) (fun _ => "certificate verify failed")) as [Hnever Hhead].
  - intros e He. exact He.
  - split; [apply Hnever|]. apply (Hhead true); reflexivity.
Defined.

End MoreExamples.
